(** * aiorpc server: a shallow embedding of [aiorpc/server.py]

    The development follows the source file top-down:

    - [Python]: the Python values that travel through the server (what
      the msgpack decoder produces, what handlers return), exceptions and
      the few built-in operations the server applies to them;
    - [Msgpack]: the wire format as the [msgpack] package reads and writes
      it with the defaults the server uses ([Unpacker()], [packb]);
    - [Message]: the constants and message classes of [aiorpc.message];
    - [Server]: [_get_app_funcs], [_get_exec_func], [_get_control_command],
      [_ctrl_cmd_reflection], [_execute_quest], [process] and [handler];
    - [Wire]: the form in which a peer reads back what the server packed.

    The packer's limit on the nesting of containers is part of the model.
    The limits of the unpacker (the size of its buffer, the depth of its
    stack) and the [-O] switch that strips [assert] are not. *)

From Stdlib Require Import ZArith NArith List Strings.String Strings.Ascii Strings.Byte Bool Lia.
From stdpp Require Import base option list gmap strings.

Local Open Scope N_scope.

Set Warnings "-register-all".

Abbreviation bytes := (list byte).

#[global] Instance byte_eq_dec : EqDecision byte.
Proof.
  intros a b. destruct (decide (Byte.to_N a = Byte.to_N b)) as [E|E].
  - left. apply (f_equal Byte.of_N) in E. rewrite !Byte.of_to_N in E. congruence.
  - right. congruence.
Defined.

(** ** Python values *)

Module Python.

(** Exceptions, by class and constructor arguments.  [AppError] stands for
    whatever an application handler raises: the text of its class and of
    the instance. *)
Inductive exc :=
| AttributeError (type_name attr : string)
| KeyError (key : string)
| IndexError (text : string)
| TypeError (text : string)
| ValueError (text : string)
| OverflowError (text : string)
| UnicodeDecodeError (data : bytes)
| AssertionError (text : string)
| RuntimeError (text : string)
| OSError (text : string)
| AppError (class_name text : string).

Inductive outcome (A : Type) :=
| Return (a : A)
| Raise (e : exc).
Arguments Return {A} a.
Arguments Raise {A} e.

Definition bind {A B} (m : outcome A) (k : A -> outcome B) : outcome B :=
  match m with
  | Return a => k a
  | Raise e => Raise e
  end.

#[global] Instance outcome_bind : MBind outcome := fun A B k m => bind m k.
#[global] Instance outcome_ret : MRet outcome := @Return.

(** Objects.  A float is held by its IEEE-754 binary64 payload.  A
    generator-based coroutine object is held by what awaiting it gives:
    [PyCoroReturn v] completes with [v], [PyCoroRaise e] raises [e].
    [PyExt] is [msgpack.ExtType], a named tuple [(code, data)].
    [PyObject] is any other object (a set, an instance of a user class). *)
Inductive pyobj :=
| PyNone
| PyBool (b : bool)
| PyInt (n : Z)
| PyFloat (bits : N)
| PyBytes (b : bytes)
| PyStr (s : string)
| PyList (l : list pyobj)
| PyTuple (l : list pyobj)
| PyDict (d : list (pyobj * pyobj))
| PyExt (code : Z) (data : bytes)
| PyCoroReturn (v : pyobj)
| PyCoroRaise (e : exc)
| PyObject (repr : string).

(** [type(o).__name__] *)
Definition type_name (o : pyobj) : string :=
  match o with
  | PyNone => "NoneType"
  | PyBool _ => "bool"
  | PyInt _ => "int"
  | PyFloat _ => "float"
  | PyBytes _ => "bytes"
  | PyStr _ => "str"
  | PyList _ => "list"
  | PyTuple _ => "tuple"
  | PyDict _ => "dict"
  | PyExt _ _ => "ExtType"
  | PyCoroReturn _ | PyCoroRaise _ => "generator"
  | PyObject _ => "object"
  end.

(** [isinstance(o, (list, tuple))], with the elements: [ExtType] is a
    named tuple and passes the test. *)
Definition as_sequence (o : pyobj) : option (list pyobj) :=
  match o with
  | PyList l | PyTuple l => Some l
  | PyExt code data => Some [PyInt code; PyBytes data]
  | _ => None
  end.

(** [asyncio.iscoroutine(o)] and [yield from o] *)
Definition iscoroutine (o : pyobj) : bool :=
  match o with
  | PyCoroReturn _ | PyCoroRaise _ => true
  | _ => false
  end.

Definition await (o : pyobj) : outcome pyobj :=
  match o with
  | PyCoroReturn v => Return v
  | PyCoroRaise e => Raise e
  | _ => Raise (TypeError ("'" +:+ type_name o +:+ "' object is not iterable"))
  end.

(** *** Floats and numeric equality

    Python compares [bool], [int] and [float] by exact value. *)

Definition float_exponent (bits : N) : N := (bits / 2 ^ 52) mod 2 ^ 11.
Definition float_mantissa (bits : N) : N := bits mod 2 ^ 52.
Definition float_negative (bits : N) : bool := N.testbit bits 63.

Definition float_is_nan (bits : N) : bool :=
  (float_exponent bits =? 2047) && negb (float_mantissa bits =? 0).

(** The integer a float is equal to, when there is one. *)
Definition float_integral (bits : N) : option Z :=
  let e := float_exponent bits in
  let m := float_mantissa bits in
  let sign (n : N) : Z := if float_negative bits then (- Z.of_N n)%Z else Z.of_N n in
  if e =? 0 then (if m =? 0 then Some 0%Z else None)
  else if e =? 2047 then None
  else
    let significand := 2 ^ 52 + m in
    if 1075 <=? e then Some (sign (significand * 2 ^ (e - 1075)))
    else
      let k := 1075 - e in
      if significand mod 2 ^ k =? 0 then Some (sign (significand / 2 ^ k)) else None.

(** A binary32 payload widened to binary64 (what the unpacker's C cast
    does); a NaN keeps its payload bits. *)
Definition widen32 (b : N) : N :=
  let hi := (b / 2 ^ 31) * 2 ^ 63 in
  let e := (b / 2 ^ 23) mod 2 ^ 8 in
  let m := b mod 2 ^ 23 in
  if e =? 255 then hi + 2047 * 2 ^ 52 + m * 2 ^ 29
  else if e =? 0 then
    if m =? 0 then hi
    else
      let p := N.log2 m in
      hi + (p + 874) * 2 ^ 52 + (m - 2 ^ p) * 2 ^ (52 - p)
  else hi + (e + 896) * 2 ^ 52 + m * 2 ^ 29.

Inductive number :=
| Integral (z : Z)
| Fractional (bits : N)
| NaN.

Definition as_number (o : pyobj) : option number :=
  match o with
  | PyBool b => Some (Integral (if b then 1 else 0))
  | PyInt n => Some (Integral n)
  | PyFloat bits =>
      Some (match float_integral bits with
            | Some z => Integral z
            | None => if float_is_nan bits then NaN else Fractional bits
            end)
  | _ => None
  end.

Definition number_eq (x y : number) : bool :=
  match x, y with
  | Integral a, Integral b => (a =? b)%Z
  | Fractional a, Fractional b => a =? b
  | _, _ => false
  end.

(** [o == n] for an [int] [n] *)
Definition eq_int (o : pyobj) (n : Z) : bool :=
  match as_number o with
  | Some x => number_eq x (Integral n)
  | None => false
  end.

(** [o == None] *)
Definition eq_None (o : pyobj) : bool :=
  match o with
  | PyNone => true
  | _ => false
  end.

(** [a == b] for the hashable objects the unpacker can meet as keys of a
    map: [None], numbers, byte strings and ext pairs. *)
Definition key_eq (a b : pyobj) : bool :=
  match as_number a, as_number b with
  | Some x, Some y => number_eq x y
  | None, None =>
      match a, b with
      | PyNone, PyNone => true
      | PyBytes x, PyBytes y => bool_decide (x = y)
      | PyStr x, PyStr y => bool_decide (x = y)
      | PyExt c x, PyExt d y => (c =? d)%Z && bool_decide (x = y)
      | _, _ => false
      end
  | _, _ => false
  end.

(** [hash(o)] succeeds; the unpacker builds lists, never tuples. *)
Definition hashable (o : pyobj) : bool :=
  match o with
  | PyList _ | PyDict _ => false
  | _ => true
  end.

(** [d[k] = v] on a dict held as its items in insertion order *)
Fixpoint dict_setitem (d : list (pyobj * pyobj)) (k v : pyobj) : list (pyobj * pyobj) :=
  match d with
  | [] => [(k, v)]
  | (k', v') :: d' =>
      if key_eq k' k then (k', v) :: d' else (k', v') :: dict_setitem d' k v
  end.

(** [d.get(k)] *)
Fixpoint dict_get (d : list (pyobj * pyobj)) (k : pyobj) : option pyobj :=
  match d with
  | [] => None
  | (k', v') :: d' => if key_eq k' k then Some v' else dict_get d' k
  end.

(** *** Byte strings *)

(** [b.startswith(p)] and [b.endswith(p)] on [bytes] *)
Fixpoint bytes_startswith (b p : bytes) : bool :=
  match p, b with
  | [], _ => true
  | _ :: _, [] => false
  | y :: p', x :: b' => bool_decide (x = y) && bytes_startswith b' p'
  end.

Definition bytes_endswith (b p : bytes) : bool :=
  bytes_startswith (rev b) (rev p).

(** Well-formed UTF-8, as the strict decoder of [bytes.decode()] accepts
    it: shortest forms only, no surrogates, nothing above U+10FFFF. *)
Definition continuation (x : byte) (lo hi : N) : bool :=
  (lo <=? Byte.to_N x) && (Byte.to_N x <=? hi).

Fixpoint utf8_valid (fuel : nat) (b : bytes) : bool :=
  match fuel with
  | O => match b with [] => true | _ => false end
  | S fuel' =>
    match b with
    | [] => true
    | x :: t =>
      let h := Byte.to_N x in
      if h <? 0x80 then utf8_valid fuel' t
      else if h <? 0xc2 then false
      else if h <? 0xe0 then
        match t with
        | c1 :: t' => continuation c1 0x80 0xbf && utf8_valid fuel' t'
        | _ => false
        end
      else if h <? 0xf0 then
        match t with
        | c1 :: c2 :: t' =>
            continuation c1 (if h =? 0xe0 then 0xa0 else 0x80)
                            (if h =? 0xed then 0x9f else 0xbf)
            && continuation c2 0x80 0xbf && utf8_valid fuel' t'
        | _ => false
        end
      else if h <? 0xf5 then
        match t with
        | c1 :: c2 :: c3 :: t' =>
            continuation c1 (if h =? 0xf0 then 0x90 else 0x80)
                            (if h =? 0xf4 then 0x8f else 0xbf)
            && continuation c2 0x80 0xbf && continuation c3 0x80 0xbf
            && utf8_valid fuel' t'
        | _ => false
        end
      else false
    end
  end.

(** [b.decode()]: a [str] is held by its UTF-8 encoding. *)
Definition bytes_decode (b : bytes) : outcome string :=
  if utf8_valid (length b) b then Return (string_of_list_byte b)
  else Raise (UnicodeDecodeError b).

(** [s.encode('utf-8')] *)
Definition str_encode (s : string) : bytes := list_byte_of_string s.

(** [s.startswith(p)] on [str] *)
Definition str_startswith (s p : string) : bool := String.prefix p s.

(** Methods looked up on an arbitrary object, as the server calls them on
    what the peer sent: only [bytes] has a [startswith]/[endswith] that
    takes a [bytes] argument, and only [bytes] has [decode]. *)
Definition startswith (o : pyobj) (p : bytes) : outcome bool :=
  match o with
  | PyBytes b => Return (bytes_startswith b p)
  | PyStr _ => Raise (TypeError "startswith first arg must be str or a tuple of str, not bytes")
  | _ => Raise (AttributeError (type_name o) "startswith")
  end.

Definition endswith (o : pyobj) (p : bytes) : outcome bool :=
  match o with
  | PyBytes b => Return (bytes_endswith b p)
  | PyStr _ => Raise (TypeError "endswith first arg must be str or a tuple of str, not bytes")
  | _ => Raise (AttributeError (type_name o) "endswith")
  end.

Definition decode (o : pyobj) : outcome string :=
  match o with
  | PyBytes b => bytes_decode b
  | _ => Raise (AttributeError (type_name o) "decode")
  end.

(** *** Text of exceptions

    [process] sends [str(type)] and [str(value)] of what it caught.  The
    class text is fixed by the class; the text of the instance is built
    by the runtime ([repr] and [str] of an object, the codec's diagnostic,
    the complaint about a call that does not fit a signature) and is taken
    as given. *)
Class PyText := {
  repr_obj : pyobj -> string;
  format_obj : pyobj -> string;
  decode_error_text : bytes -> string;
  call_error_text : string -> list pyobj -> gmap string pyobj -> string;
}.

Definition exc_class (e : exc) : string :=
  match e with
  | AttributeError _ _ => "AttributeError"
  | KeyError _ => "KeyError"
  | IndexError _ => "IndexError"
  | TypeError _ => "TypeError"
  | ValueError _ => "ValueError"
  | OverflowError _ => "OverflowError"
  | UnicodeDecodeError _ => "UnicodeDecodeError"
  | AssertionError _ => "AssertionError"
  | RuntimeError _ => "RuntimeError"
  | OSError _ => "OSError"
  | AppError c _ => c
  end.

Definition str_type (e : exc) : string := "<class '" +:+ exc_class e +:+ "'>".

Definition str_value `{PyText} (e : exc) : string :=
  match e with
  | AttributeError t a => "'" +:+ t +:+ "' object has no attribute '" +:+ a +:+ "'"
  | KeyError k => repr_obj (PyStr k)
  | UnicodeDecodeError b => decode_error_text b
  | IndexError s | TypeError s | ValueError s | OverflowError s
  | AssertionError s | RuntimeError s | OSError s | AppError _ s => s
  end.

End Python.

(** ** The msgpack wire format *)

Module Msgpack.
Import Python.

(** [split_at n b]: the first [n] bytes of [b] and what follows them, when
    [b] has that many. *)
Fixpoint split_at (n : N) (b : bytes) : option (bytes * bytes) :=
  if n =? 0 then Some ([], b)
  else
    match b with
    | [] => None
    | x :: t =>
        match split_at (N.pred n) t with
        | Some (p, r) => Some (x :: p, r)
        | None => None
        end
    end.

(** Big-endian unsigned integer *)
Definition be_uint (p : bytes) : N :=
  fold_left (fun acc x => acc * 256 + Byte.to_N x) p 0.

(** Two's complement on [8 * w] bits *)
Definition to_signed (w : N) (u : N) : Z :=
  if u <? 2 ^ (8 * w - 1) then Z.of_N u else (Z.of_N u - 2 ^ Z.of_N (8 * w))%Z.

(** The formats, selected by the first byte of an object. *)
Inductive format :=
| PositiveFixint (n : N)
| NegativeFixint (n : N)
| FixMap (n : N)
| FixArray (n : N)
| FixStr (n : N)
| Nil
| NeverUsed
| Bool (b : bool)
| Bin (width : N)
| Ext (width : N)
| Float32
| Float64
| UInt (width : N)
| Int (width : N)
| FixExt (n : N)
| Str (width : N)
| Array (width : N)
| Map (width : N).

Definition format_of (h : N) : format :=
  if h <? 0x80 then PositiveFixint h
  else if h <? 0x90 then FixMap (h - 0x80)
  else if h <? 0xa0 then FixArray (h - 0x90)
  else if h <? 0xc0 then FixStr (h - 0xa0)
  else if 0xe0 <=? h then NegativeFixint h
  else
    match h with
    | 0xc0 => Nil
    | 0xc2 => Bool false
    | 0xc3 => Bool true
    | 0xc4 => Bin 1
    | 0xc5 => Bin 2
    | 0xc6 => Bin 4
    | 0xc7 => Ext 1
    | 0xc8 => Ext 2
    | 0xc9 => Ext 4
    | 0xca => Float32
    | 0xcb => Float64
    | 0xcc => UInt 1
    | 0xcd => UInt 2
    | 0xce => UInt 4
    | 0xcf => UInt 8
    | 0xd0 => Int 1
    | 0xd1 => Int 2
    | 0xd2 => Int 4
    | 0xd3 => Int 8
    | 0xd4 => FixExt 1
    | 0xd5 => FixExt 2
    | 0xd6 => FixExt 4
    | 0xd7 => FixExt 8
    | 0xd8 => FixExt 16
    | 0xd9 => Str 1
    | 0xda => Str 2
    | 0xdb => Str 4
    | 0xdc => Array 2
    | 0xdd => Array 4
    | 0xde => Map 2
    | 0xdf => Map 4
    | _ => NeverUsed
    end.

(** The ranges of what [format_of] puts into a format: counts and
    lengths of the fix formats, widths in bytes of the others. *)
Definition format_ok (f : format) : bool :=
  match f with
  | PositiveFixint n => n <? 128
  | NegativeFixint n => (224 <=? n) && (n <? 256)
  | FixMap n | FixArray n => n <? 16
  | FixStr n => n <? 32
  | FixExt n => n <=? 16
  | Bin w | Str w | Ext w | Array w | Map w => w <=? 4
  | UInt w | Int w => (0 <? w) && (w <=? 8)
  | Nil | NeverUsed | Bool _ | Float32 | Float64 => true
  end.

(** What the head of an object gives: a complete scalar, or the number of
    elements of a container whose elements follow. *)
Inductive head :=
| HValue (v : pyobj) (rest : bytes)
| HArray (n : N) (rest : bytes)
| HMap (n : N) (rest : bytes)
| HNeedMore
| HFail (e : exc).

Definition with_bytes (n : N) (b : bytes) (k : bytes -> bytes -> head) : head :=
  match split_at n b with
  | Some (p, r) => k p r
  | None => HNeedMore
  end.

Definition with_uint (width : N) (b : bytes) (k : N -> bytes -> head) : head :=
  with_bytes width b (fun p r => k (be_uint p) r).

(** Raw data comes back as [bytes]: the [Unpacker] is built without an
    encoding. *)
Definition read_raw (n : N) (b : bytes) : head :=
  with_bytes n b (fun p r => HValue (PyBytes p) r).

(** The type code is a signed byte; [ExtType] refuses codes outside
    0..127. *)
Definition read_ext (n : N) (b : bytes) : head :=
  with_bytes 1 b (fun c r =>
    with_bytes n r (fun data r' =>
      if be_uint c <? 128 then HValue (PyExt (Z.of_N (be_uint c)) data) r'
      else HFail (ValueError "code must be 0~127"))).

Definition read_body (f : format) (b : bytes) : head :=
  match f with
  | PositiveFixint n => HValue (PyInt (Z.of_N n)) b
  | NegativeFixint n => HValue (PyInt (Z.of_N n - 256)) b
  | FixMap n => HMap n b
  | FixArray n => HArray n b
  | FixStr n => read_raw n b
  | Nil => HValue PyNone b
  | NeverUsed => HFail (ValueError "Unpack failed: error = -1")
  | Bool v => HValue (PyBool v) b
  | Bin w | Str w => with_uint w b read_raw
  | Ext w => with_uint w b read_ext
  | FixExt n => read_ext n b
  | Float32 => with_uint 4 b (fun u r => HValue (PyFloat (widen32 u)) r)
  | Float64 => with_uint 8 b (fun u r => HValue (PyFloat u) r)
  | UInt w => with_uint w b (fun u r => HValue (PyInt (Z.of_N u)) r)
  | Int w => with_uint w b (fun u r => HValue (PyInt (to_signed w u)) r)
  | Array w => with_uint w b HArray
  | Map w => with_uint w b HMap
  end.

Definition read_head (b : bytes) : head :=
  match b with
  | [] => HNeedMore
  | x :: t => read_body (format_of (Byte.to_N x)) t
  end.

(** One object off the front of the buffer. *)
Inductive unpacked :=
| Done (v : pyobj) (rest : bytes)
| NeedMore
| Failed (e : exc).

(** Arrays come back as lists ([use_list] is on by default); a map is
    built item by item into a dict, so an unhashable key fails when its
    item is complete.  Every object takes at least one byte, so the fuel
    [unpack] gives is never what stops the recursion
    ([unpack_fuel_enough]). *)
Fixpoint unpack_fuel (fuel : nat) (b : bytes) : unpacked :=
  match fuel with
  | O => NeedMore
  | S fuel' =>
      match read_head b with
      | HValue v r => Done v r
      | HArray n r => unpack_array fuel' n [] r
      | HMap n r => unpack_map fuel' n [] r
      | HNeedMore => NeedMore
      | HFail e => Failed e
      end
  end
with unpack_array (fuel : nat) (n : N) (acc : list pyobj) (b : bytes) : unpacked :=
  if n =? 0 then Done (PyList (rev acc)) b
  else
    match fuel with
    | O => NeedMore
    | S fuel' =>
        match unpack_fuel fuel' b with
        | Done v r => unpack_array fuel' (N.pred n) (v :: acc) r
        | NeedMore => NeedMore
        | Failed e => Failed e
        end
    end
with unpack_map (fuel : nat) (n : N) (acc : list (pyobj * pyobj)) (b : bytes) : unpacked :=
  if n =? 0 then Done (PyDict acc) b
  else
    match fuel with
    | O => NeedMore
    | S fuel' =>
        match unpack_fuel fuel' b with
        | Done k r =>
            match unpack_fuel fuel' r with
            | Done v r' =>
                if hashable k then unpack_map fuel' (N.pred n) (dict_setitem acc k v) r'
                else Failed (TypeError ("unhashable type: '" +:+ type_name k +:+ "'"))
            | NeedMore => NeedMore
            | Failed e => Failed e
            end
        | NeedMore => NeedMore
        | Failed e => Failed e
        end
    end.

Definition unpack (b : bytes) : unpacked :=
  unpack_fuel (2 * length b + 1) b.
#[global] Arguments unpack : simpl never.

(** The bytes that follow a head. *)
Definition head_rest (h : head) : option bytes :=
  match h with
  | HValue _ r | HArray _ r | HMap _ r => Some r
  | HNeedMore | HFail _ => None
  end.

(** The same results with [more] bytes behind what was read. *)
Definition head_app (h : head) (more : bytes) : head :=
  match h with
  | HValue v r => HValue v (r ++ more)
  | HArray n r => HArray n (r ++ more)
  | HMap n r => HMap n (r ++ more)
  | HNeedMore => HNeedMore
  | HFail e => HFail e
  end.

Definition unpacked_app (u : unpacked) (more : bytes) : unpacked :=
  match u with
  | Done v r => Done v (r ++ more)
  | NeedMore => NeedMore
  | Failed e => Failed e
  end.

(** An [Unpacker] is its buffer: [feed] appends to it, and iterating
    takes complete objects off its front until [StopIteration], which
    leaves the incomplete rest for the next [feed]. *)
Definition feed (buffer chunk : bytes) : bytes := buffer ++ chunk.

(** [for msg in unpacker: body], with the state the body threads.  The
    result is the buffer and the state that are left and the exception
    that ended the loop, if one did.  An object takes at least one byte,
    so the length of the buffer is fuel enough ([for_each_fuel_enough]). *)
Fixpoint for_each_fuel {St : Type} (body : pyobj -> St -> outcome St) (fuel : nat)
    (buffer : bytes) (s : St) : bytes * St * option exc :=
  match fuel with
  | O => (buffer, s, None)
  | S fuel' =>
      match unpack buffer with
      | NeedMore => (buffer, s, None)
      | Failed e => (buffer, s, Some e)
      | Done msg rest =>
          match body msg s with
          | Raise e => (rest, s, Some e)
          | Return s' => for_each_fuel body fuel' rest s'
          end
      end
  end.

Definition for_each {St : Type} (body : pyobj -> St -> outcome St) (buffer : bytes) (s : St)
    : bytes * St * option exc :=
  for_each_fuel body (length buffer) buffer s.
#[global] Arguments for_each : simpl never.

(** Chunks fed one after the other, the objects collected after each
    feed. *)
Definition collect (msg : pyobj) (acc : list pyobj) : outcome (list pyobj) :=
  Return (acc ++ [msg]).

Fixpoint feed_chunks (chunks : list bytes) (buffer : bytes) (acc : list pyobj)
    : bytes * list pyobj * option exc :=
  match chunks with
  | [] => (buffer, acc, None)
  | chunk :: chunks' =>
      match for_each collect (feed buffer chunk) acc with
      | (buffer', acc', None) => feed_chunks chunks' buffer' acc'
      | stopped => stopped
      end
  end.

(** [packb]: the packer with its defaults (no [default] hook, raw data
    without the bin types).  It picks the shortest form of every integer
    and length, raises on what the format cannot hold, and does not go
    deeper than [DEFAULT_RECURSE_LIMIT] containers. *)
Definition byte_of (n : N) : byte :=
  match Byte.of_N (n mod 256) with
  | Some x => x
  | None => x00
  end.

Fixpoint le_bytes (width : nat) (n : N) : bytes :=
  match width with
  | O => []
  | S w => byte_of n :: le_bytes w (n / 256)
  end.

Definition be_bytes (width : nat) (n : N) : bytes := rev (le_bytes width n).

Definition pack_int (n : Z) : outcome bytes :=
  if (0 <=? n)%Z then
    let u := Z.to_N n in
    if u <? 2 ^ 7 then Return [byte_of u]
    else if u <? 2 ^ 8 then Return (xcc :: be_bytes 1 u)
    else if u <? 2 ^ 16 then Return (xcd :: be_bytes 2 u)
    else if u <? 2 ^ 32 then Return (xce :: be_bytes 4 u)
    else if u <? 2 ^ 64 then Return (xcf :: be_bytes 8 u)
    else Raise (OverflowError "Integer value out of range")
  else
    if (-32 <=? n)%Z then Return [byte_of (Z.to_N (n + 256))]
    else if (- 2 ^ 7 <=? n)%Z then Return (xd0 :: be_bytes 1 (Z.to_N (n + 2 ^ 8)))
    else if (- 2 ^ 15 <=? n)%Z then Return (xd1 :: be_bytes 2 (Z.to_N (n + 2 ^ 16)))
    else if (- 2 ^ 31 <=? n)%Z then Return (xd2 :: be_bytes 4 (Z.to_N (n + 2 ^ 32)))
    else if (- 2 ^ 63 <=? n)%Z then Return (xd3 :: be_bytes 8 (Z.to_N (n + 2 ^ 64)))
    else Raise (OverflowError "Integer value out of range").

Definition pack_raw (data : bytes) : outcome bytes :=
  let n := N.of_nat (length data) in
  if n <? 32 then Return (byte_of (0xa0 + n) :: data)
  else if n <? 2 ^ 16 then Return (xda :: be_bytes 2 n ++ data)
  else if n <? 2 ^ 32 then Return (xdb :: be_bytes 4 n ++ data)
  else Raise (ValueError "bytes is too large").

Definition pack_array_header (n : N) : outcome bytes :=
  if n <? 16 then Return [byte_of (0x90 + n)]
  else if n <? 2 ^ 16 then Return (xdc :: be_bytes 2 n)
  else if n <? 2 ^ 32 then Return (xdd :: be_bytes 4 n)
  else Raise (ValueError "list is too large").

Definition pack_map_header (n : N) : outcome bytes :=
  if n <? 16 then Return [byte_of (0x80 + n)]
  else if n <? 2 ^ 16 then Return (xde :: be_bytes 2 n)
  else if n <? 2 ^ 32 then Return (xdf :: be_bytes 4 n)
  else Raise (ValueError "dict is too large").

Definition pack_ext (code : Z) (data : bytes) : outcome bytes :=
  let n := N.of_nat (length data) in
  if negb ((0 <=? code)%Z && (code <? 128)%Z) then Raise (ValueError "code must be 0~127")
  else
    let c := byte_of (Z.to_N code) in
    match n with
    | 1 => Return (xd4 :: c :: data)
    | 2 => Return (xd5 :: c :: data)
    | 4 => Return (xd6 :: c :: data)
    | 8 => Return (xd7 :: c :: data)
    | 16 => Return (xd8 :: c :: data)
    | _ =>
        if n <? 2 ^ 8 then Return (xc7 :: be_bytes 1 n ++ c :: data)
        else if n <? 2 ^ 16 then Return (xc8 :: be_bytes 2 n ++ c :: data)
        else if n <? 2 ^ 32 then Return (xc9 :: be_bytes 4 n ++ c :: data)
        else Raise (ValueError "ext data is too large")
    end.

(** The elements of a list and the items of a dict, packed one after
    the other with [pack]. *)
Fixpoint pack_items (pack : pyobj -> outcome bytes) (l : list pyobj) : outcome bytes :=
  match l with
  | [] => Return []
  | x :: t => bx ← pack x; bt ← pack_items pack t; Return (bx ++ bt)
  end.

Fixpoint pack_pairs (pack : pyobj -> outcome bytes) (d : list (pyobj * pyobj)) : outcome bytes :=
  match d with
  | [] => Return []
  | (k, v) :: t =>
      bk ← pack k; bv ← pack v; bt ← pack_pairs pack t; Return (bk ++ bv ++ bt)
  end.

(** [Packer._pack(o, nest_limit)]: the limit is tested on entry and
    goes down by one for the elements of a list and for the keys and the
    values of a dict.  The exception is the library's [PackValueError], a
    [ValueError]. *)
Definition DEFAULT_RECURSE_LIMIT : Z := 511.

Fixpoint _pack `{PyText} (o : pyobj) (nest_limit : Z) {struct o} : outcome bytes :=
  if (nest_limit <? 0)%Z then Raise (ValueError "recursion limit exceeded.")
  else
    match o with
    | PyNone => Return [xc0]
    | PyBool b => Return [if b then xc3 else xc2]
    | PyInt n => pack_int n
    | PyFloat bits => Return (xcb :: be_bytes 8 bits)
    | PyBytes data => pack_raw data
    | PyStr s => pack_raw (str_encode s)
    | PyList l | PyTuple l =>
        hdr ← pack_array_header (N.of_nat (length l));
        body ← pack_items (fun x => _pack x (nest_limit - 1)%Z) l;
        Return (hdr ++ body)
    | PyDict d =>
        hdr ← pack_map_header (N.of_nat (length d));
        body ← pack_pairs (fun x => _pack x (nest_limit - 1)%Z) d;
        Return (hdr ++ body)
    | PyExt code data => pack_ext code data
    | PyCoroReturn _ | PyCoroRaise _ | PyObject _ =>
        Raise (TypeError ("can't serialize " +:+ repr_obj o))
    end.

Definition packb `{PyText} (o : pyobj) : outcome bytes :=
  _pack o DEFAULT_RECURSE_LIMIT.

(** The depth of the containers of an object: the least [nest_limit]
    that lets [_pack] through it. *)
Fixpoint nesting (o : pyobj) : Z :=
  match o with
  | PyList l | PyTuple l => fold_right (fun x m => Z.max (1 + nesting x) m) 0%Z l
  | PyDict d =>
      fold_right (fun '(k, v) m => Z.max (1 + nesting k) (Z.max (1 + nesting v) m)) 0%Z d
  | _ => 0%Z
  end.

(** [_pack] accepts the object at this limit; [packb] accepts it. *)
Definition packable_in `{PyText} (nest_limit : Z) (o : pyobj) : Prop :=
  exists data, _pack o nest_limit = Return data.

Definition packable `{PyText} (o : pyobj) : Prop :=
  packable_in DEFAULT_RECURSE_LIMIT o.

(** Nothing but its nesting can keep the object from being packed. *)
Definition packs `{PyText} (o : pyobj) : Prop :=
  forall nest_limit, (nesting o <= nest_limit)%Z -> packable_in nest_limit o.

(** What a head announces is within what [_pack] can write. *)
Definition head_packable `{PyText} (h : head) : Prop :=
  match h with
  | HValue v _ => packs v
  | HArray n _ | HMap n _ => n < 2 ^ 32
  | HNeedMore | HFail _ => True
  end.

End Msgpack.

(** ** aiorpc.message *)

Module Message.
Import Python.

(** Modelled from the spec: [aiorpc/message.py] is not among the sources.
    Its three type tags are "three distinct small integers" whose values
    the spec leaves open, so they are parameters; small is read as
    fitting a positive fixint.  [Request] and [Notification] are the two
    message classes the server builds with [Request( *msg)] and
    [Notification( *msg)]: their fields in wire order. *)
Class Tags := {
  TYPE_REQUEST : Z;
  TYPE_RESPONSE : Z;
  TYPE_NOTIFICATION : Z;
  tags_distinct :
    TYPE_REQUEST <> TYPE_RESPONSE /\ TYPE_REQUEST <> TYPE_NOTIFICATION
    /\ TYPE_RESPONSE <> TYPE_NOTIFICATION;
  tags_small :
    (0 <= TYPE_REQUEST < 128 /\ 0 <= TYPE_RESPONSE < 128
     /\ 0 <= TYPE_NOTIFICATION < 128)%Z;
}.

Inductive msgobj :=
| Request (type mid method params : pyobj)
| Notification (type method params : pyobj).

Definition method (msg : msgobj) : pyobj :=
  match msg with
  | Request _ _ m _ | Notification _ m _ => m
  end.

Definition params (msg : msgobj) : pyobj :=
  match msg with
  | Request _ _ _ p | Notification _ _ p => p
  end.

End Message.

(** ** aiorpc.server *)

Module Server.
Import Python Msgpack Message.

(** A call as [_execute_quest] makes it: the context accessor when the
    function takes one (always the first positional argument), the other
    positional arguments, the keyword arguments. *)
Record call := {
  ctx : option (string -> pyobj);
  args : list pyobj;
  kwargs : gmap string pyobj;
}.

(** [inspect.Parameter]: its [name] and its [default], [None] for
    [Parameter.empty]. *)
Record Param := {
  name : string;
  default_value : option pyobj;
}.

(** [FuncDef = namedtuple('FuncDef', ['func', 'params', 'with_context'])];
    [params] is [None] in the descriptor of a control command.  [func] is
    the bound method as a function of the call: what the call gives in
    the state the application object is in when the call is made.  What
    a handler does to the application object is not modelled, so a
    server stands for the application in one state. *)
Record FuncDef := {
  func : call -> outcome pyobj;
  params : option (list Param);
  with_context : bool;
}.

(** The application object, as [dir(app)] lists it: the name of every
    attribute with what [getattr] gives for it, a callable with its
    [inspect.signature] (of the bound method: without [self]) or
    something else. *)
Inductive attribute :=
| Callable (f : call -> outcome pyobj) (parameters : list Param)
| NotCallable.

Abbreviation application := (list (string * attribute)).

(** The stream writer of a connection: the transport's metadata, the
    chunks handed to [write], and whether [close] was called. *)
Record StreamWriter := {
  get_extra_info : string -> pyobj;
  written : list bytes;
  closed : bool;
}.

Definition write (writer : StreamWriter) (data : bytes) : StreamWriter :=
  {| get_extra_info := get_extra_info writer;
     written := written writer ++ [data];
     closed := closed writer |}.

Definition close (writer : StreamWriter) : StreamWriter :=
  {| get_extra_info := get_extra_info writer;
     written := written writer;
     closed := true |}.

(** [Server._get_app_funcs] *)
Definition first_is_context (parameters : list Param) : bool :=
  match parameters with
  | [] => false
  | p :: _ => bool_decide (name p = "ctx") || bool_decide (name p = "context")
  end.

Definition _get_app_funcs (app : application) : gmap string FuncDef :=
  foldl (fun funcs '(method, attr) =>
           if str_startswith method "_" then funcs
           else
             match attr with
             | Callable f parameters =>
                 <[method := {| func := f;
                                params := Some parameters;
                                with_context := first_is_context parameters |}]> funcs
             | NotCallable => funcs
             end)
        ∅ app.

(** The server object: of its fields only [_app_funcs] is read after
    construction by the code below. *)
Record Server := {
  _app_funcs : gmap string FuncDef;
}.

Definition init (app : application) : Server :=
  {| _app_funcs := _get_app_funcs app |}.

Section WithRuntime.
Context `{PyText} `{Tags}.

(** [Server._ctrl_cmd_reflection]: [wrap] takes no argument at all. *)
Definition descriptor (pdef : Param) : pyobj :=
  match default_value pdef with
  | None => PyStr (name pdef)
  | Some d => PyDict [(PyStr "name", PyStr (name pdef)); (PyStr "default", d)]
  end.

Definition method_entry (item : string * FuncDef) : outcome (pyobj * pyobj) :=
  match params item.2 with
  | Some parameters => Return (PyStr item.1, PyList (map descriptor parameters))
  | None => Raise (AttributeError "NoneType" "items")
  end.

Fixpoint method_entries (items : list (string * FuncDef)) : outcome (list (pyobj * pyobj)) :=
  match items with
  | [] => Return []
  | item :: rest =>
      entry ← method_entry item;
      entries ← method_entries rest;
      Return (entry :: entries)
  end.

Definition wrap (self : Server) (c : call) : outcome pyobj :=
  match ctx c, args c, bool_decide (kwargs c = ∅) with
  | None, [], true =>
      methods ← method_entries (map_to_list (_app_funcs self));
      Return (PyDict [(PyStr "methods", PyDict methods)])
  | _, _, _ => Raise (TypeError (call_error_text "wrap" (args c) (kwargs c)))
  end.

Definition _ctrl_cmd_reflection (self : Server) : FuncDef :=
  {| func := wrap self; params := None; with_context := false |}.

(** [s[1:]] on a [str]: the first character goes, with its continuation
    bytes. *)
Fixpoint drop_continuation (s : string) : string :=
  match s with
  | String c r =>
      if (0x80 <=? N_of_ascii c) && (N_of_ascii c <? 0xc0) then drop_continuation r else s
  | EmptyString => s
  end.

Definition str_tail (s : string) : string :=
  match s with
  | String _ r => drop_continuation r
  | EmptyString => s
  end.

(** [Server._get_control_command]: the class has one attribute whose name
    starts with [_ctrl_cmd_]. *)
Definition _get_control_command (self : Server) (method : pyobj) : outcome FuncDef :=
  decoded ← decode method;
  let method := str_tail decoded in
  if bool_decide (method = "reflection") then Return (_ctrl_cmd_reflection self)
  else Raise (AttributeError "Server" ("_ctrl_cmd_" +:+ method)).

(** [Server._get_exec_func] *)
Definition _get_exec_func (self : Server) (msg : msgobj) : outcome FuncDef :=
  control ← startswith (Message.method msg) [x00];
  if (control : bool) then _get_control_command self (Message.method msg)
  else
    method ← decode (Message.method msg);
    match _app_funcs self !! method with
    | Some funcdef => Return funcdef
    | None => Raise (KeyError method)
    end.

(** A dict comprehension [{k.decode(): v for k, v in items if cond(k)}] *)
Fixpoint decode_keys (cond : pyobj -> outcome bool) (items : list (pyobj * pyobj))
    (acc : gmap string pyobj) : outcome (gmap string pyobj) :=
  match items with
  | [] => Return acc
  | (k, v) :: rest =>
      keep ← cond k;
      if (keep : bool) then
        key ← decode k;
        decode_keys cond rest (<[key := v]> acc)
      else decode_keys cond rest acc
  end.

(** [k.startswith(b'__') and k.endswith(b'__')] and its negation as the
    source writes it, [not k.startswith(b'__') or not k.endswith(b'__')] *)
Definition dunder : bytes := ["_"%byte; "_"%byte].

Definition is_ctx_key (k : pyobj) : outcome bool :=
  starts ← startswith k dunder;
  if (starts : bool) then endswith k dunder else Return false.

Definition is_param_key (k : pyobj) : outcome bool :=
  starts ← startswith k dunder;
  if negb starts then Return true
  else ends ← endswith k dunder; Return (negb ends).

(** [Server._execute_quest] *)
Definition _execute_quest (self : Server) (msg : msgobj) (writer : StreamWriter)
    : outcome pyobj :=
  fdef ← _get_exec_func self msg;
  let func := func fdef in
  let params := Message.params msg in
  if with_context fdef then
    match as_sequence params with
    | Some l => func {| ctx := Some (get_extra_info writer); args := l; kwargs := ∅ |}
    | None =>
        match params with
        | PyDict items =>
            ctx ← decode_keys is_ctx_key items ∅;
            params ← decode_keys is_param_key items ∅;
            let ctx_getter := fun k =>
              match (ctx : gmap string pyobj) !! k with
              | Some v => v
              | None => get_extra_info writer k
              end in
            func {| ctx := Some ctx_getter; args := []; kwargs := params |}
        | _ =>
            if eq_None params
            then func {| ctx := Some (get_extra_info writer); args := []; kwargs := ∅ |}
            else func {| ctx := Some (get_extra_info writer); args := [params]; kwargs := ∅ |}
        end
    end
  else
    match as_sequence params with
    | Some l => func {| ctx := None; args := l; kwargs := ∅ |}
    | None =>
        match params with
        | PyDict items =>
            params ← decode_keys (fun _ => Return true) items ∅;
            func {| ctx := None; args := []; kwargs := params |}
        | _ =>
            if eq_None params
            then func {| ctx := None; args := []; kwargs := ∅ |}
            else func {| ctx := None; args := [params]; kwargs := ∅ |}
        end
    end.

(** [list(map(str, sys.exc_info()[:2]))]: the texts of the class and of
    the instance *)
Definition exc_info (e : exc) : pyobj :=
  PyList [PyStr (str_type e); PyStr (str_value e)].

(** [Server.process].  First its [try] statement, which gives [result]
    and [error].  [result] is assigned twice in the [try] block: when the
    awaited coroutine raises, the second assignment does not happen and
    [result] is still the coroutine object. *)
Definition run_handler (self : Server) (msg : msgobj) (writer : StreamWriter)
    : pyobj * pyobj :=
  match _execute_quest self msg writer with
  | Raise e => (PyNone, exc_info e)
  | Return result =>
      if iscoroutine result then
        match await result with
        | Return result' => (result', PyNone)
        | Raise e => (result, exc_info e)
        end
      else (result, PyNone)
  end.

Definition reply_of (mid error result : pyobj) : pyobj :=
  PyList [PyInt TYPE_RESPONSE; mid; error; result].

(** The exception that escapes from a step, if one does. *)
Definition escaped {A : Type} (step : outcome A) : option exc :=
  match step with
  | Return _ => None
  | Raise e => Some e
  end.

(** One dispatch unit run to its end.  The first component is the
    writer afterwards, the second the exception the task ends with, if
    one escapes.  [isinstance(msg, message.Request)] is the match on the
    message.  [drain] is the outcome of [yield from writer.drain()],
    which raises once the connection is lost: it comes after the [write]
    and outside the [try]. *)
Definition process (self : Server) (msg : msgobj) (writer : StreamWriter)
    (drain : outcome unit) : StreamWriter * option exc :=
  let '(result, error) := run_handler self msg writer in
  match msg with
  | Request _ mid _ _ =>
      match packb (reply_of mid error result) with
      | Return reply => (write writer reply, escaped drain)
      | Raise e => (writer, Some e)
      end
  | Notification _ _ _ => (writer, None)
  end.

(** [Server.handler].  The body of [for msg in unpacker]: the checks on
    one decoded object and the message object built from it. *)
Definition message_of (msg : pyobj) : outcome msgobj :=
  match as_sequence msg with
  | None => Raise (AssertionError "message is not list or tuple")
  | Some items =>
      match items with
      | [] => Raise (IndexError "list index out of range")
      | tag :: _ =>
          if eq_int tag TYPE_REQUEST then
            match items with
            | [type; mid; method; params] => Return (Request type mid method params)
            | _ => Raise (AssertionError "malformed request message")
            end
          else if eq_int tag TYPE_NOTIFICATION then
            match items with
            | [type; method; params] => Return (Notification type method params)
            | _ => Raise (AssertionError "malformed notification message")
            end
          else Raise (RuntimeError ("invalid message type " +:+ format_obj tag))
      end
  end.

(** The body of the loop ends with [asyncio.async(self.process(msgobj,
    writer))]: the state is the list of dispatch units handed to the
    event loop so far, in that order. *)
Definition dispatch (msg : pyobj) (spawned : list msgobj) : outcome (list msgobj) :=
  msgobj ← message_of msg;
  Return (spawned ++ [msgobj]).

(** What [yield from reader.read(4096)] gives, call after call: some
    bytes, or an exception thrown into the coroutine at that point.  It
    is the one place where [handler] is suspended, so it is also the one
    place where the event loop can have been closed behind its back
    (the coroutine is then torn down with an exception thrown in):
    [loop_closed] says whether it was.  When the list is used up the peer
    has closed and [read] gives [b'']. *)
Inductive read_result :=
| Chunk (buf : bytes)
| ReadRaises (e : exc) (loop_closed : bool).

(** What ends the [try] statement. *)
Inductive ending :=
| Eof
| Caught (e : exc) (loop_closed : bool).

(** [while True: ...] *)
Fixpoint read_loop (reads : list read_result) (buffer : bytes) (spawned : list msgobj)
    : bytes * list msgobj * ending :=
  match reads with
  | [] => (buffer, spawned, Eof)
  | ReadRaises e loop_closed :: _ => (buffer, spawned, Caught e loop_closed)
  | Chunk buf :: reads' =>
      match buf with
      | [] => (buffer, spawned, Eof)
      | _ =>
          match for_each dispatch (feed buffer buf) spawned with
          | (buffer', spawned', None) => read_loop reads' buffer' spawned'
          | (buffer', spawned', Some e) => (buffer', spawned', Caught e false)
          end
      end
  end.

(** What is left of a connection when [handler] returns: the dispatch
    units it started, the exception it logged, the bytes it did not
    decode, whether it called [reader.feed_eof()], and the writer. *)
Record handled := {
  tasks : list msgobj;
  logged : option exc;
  unread : bytes;
  eof_fed : bool;
  writer_after : StreamWriter;
}.

Definition is_closed (e : ending) : bool :=
  match e with
  | Eof => false
  | Caught _ loop_closed => loop_closed
  end.

Definition caught (e : ending) : option exc :=
  match e with
  | Eof => None
  | Caught e _ => Some e
  end.

(** [nodelay] is the outcome of the two lines that set [TCP_NODELAY] on
    the socket.  The bare [except:] catches everything, so [handler]
    always gets to its last statement. *)
Definition handler (nodelay : outcome unit) (reads : list read_result)
    (writer : StreamWriter) : handled :=
  let '(buffer, spawned, e) :=
    match nodelay with
    | Raise e => ([], [], Caught e false)
    | Return _ => read_loop reads [] []
    end in
  {| tasks := spawned;
     logged := caught e;
     unread := buffer;
     eof_fed := negb (is_closed e);
     writer_after := if is_closed e then writer else close writer |}.

(** The dispatch units that [handler] started with [asyncio.async], run
    to their ends by the event loop.  A unit is suspended only while its
    coroutine is awaited and in [drain]; from [packb] to [writer.write]
    it runs in one piece.  So what the connection carries is the chunks
    of the units in the order in which they get to their [write]:
    [order] is the units in that order, which need not be the order of
    arrival.  The second component is what each unit ends with. *)
Fixpoint run_tasks (self : Server) (order : list msgobj) (writer : StreamWriter)
    (drain : outcome unit) : StreamWriter * list (option exc) :=
  match order with
  | [] => (writer, [])
  | msg :: order' =>
      let '(writer', e) := process self msg writer drain in
      let '(writer'', es) := run_tasks self order' writer' drain in
      (writer'', e :: es)
  end.

(** A key that starts and ends with two underscores. *)
Definition wrapped (k : bytes) : bool :=
  bytes_startswith k dunder && bytes_endswith k dunder.

(** A key that is a byte string of well-formed UTF-8: a name. *)
Definition is_name (k : pyobj) : Prop :=
  exists b, k = PyBytes b /\ utf8_valid (length b) b = true.

(** The type field of a message object is equal to the tag of its
    class. *)
Definition tag_matches (m : msgobj) : bool :=
  match m with
  | Request type _ _ _ => eq_int type TYPE_REQUEST
  | Notification type _ _ => eq_int type TYPE_NOTIFICATION
  end.

(** A complete encoded object that the loop of [handler] accepts as the
    message [m]. *)
Definition encodes (data : bytes) (m : msgobj) : Prop :=
  exists msg, unpack data = Done msg [] /\ message_of msg = Return m.

(** A message object as the loop of [handler] builds them: from an
    object off the wire. *)
Definition received (m : msgobj) : Prop :=
  exists buffer msg rest, unpack buffer = Done msg rest /\ message_of msg = Return m.

(** The texts of an exception are within the 4 GiB that a string takes
    on the wire. *)
Definition short_text (e : exc) : Prop :=
  N.of_nat (String.length (str_type e)) < 2 ^ 32
  /\ N.of_nat (String.length (str_value e)) < 2 ^ 32.

End WithRuntime.

End Server.

(** ** A small application

    The concrete server the examples below run: the tags of
    msgpack-rpc, a plain rendering of the runtime's texts, and an
    application with a synchronous method, two coroutine methods and a
    method that takes the context. *)

Module Demo.
Import Python Msgpack Message Server.

#[global] Instance text : PyText := {|
  repr_obj o := match o with PyStr s => "'" +:+ s +:+ "'" | _ => "<" +:+ type_name o +:+ " object>" end;
  format_obj o := "<" +:+ type_name o +:+ " object>";
  decode_error_text _ := "'utf-8' codec can't decode bytes";
  call_error_text f _ _ := f +:+ "() got unexpected arguments";
|}.

#[global] Instance tags : Tags := {|
  TYPE_REQUEST := 0;
  TYPE_RESPONSE := 1;
  TYPE_NOTIFICATION := 2;
  tags_distinct := ltac:(repeat split; discriminate);
  tags_small := ltac:(repeat split; (discriminate || reflexivity));
|}.

Definition b (s : string) : pyobj := PyBytes (list_byte_of_string s).

(** [def add(self, x, y): return x + y], for integers *)
Definition add (c : call) : outcome pyobj :=
  match ctx c, args c, bool_decide (kwargs c = ∅) with
  | None, [PyInt x; PyInt y], true => Return (PyInt (x + y))
  | _, _, _ => Raise (TypeError (call_error_text "add" (args c) (kwargs c)))
  end.

(** [def echo(self, *args): yield from asyncio.sleep(...); return args] *)
Definition echo (c : call) : outcome pyobj :=
  match ctx c, bool_decide (kwargs c = ∅) with
  | None, true => Return (PyCoroReturn (PyTuple (args c)))
  | _, _ => Raise (TypeError (call_error_text "echo" (args c) (kwargs c)))
  end.

(** [def fail(self): yield from asyncio.sleep(...); raise ValueError('no')] *)
Definition fail (c : call) : outcome pyobj :=
  match ctx c, args c, bool_decide (kwargs c = ∅) with
  | None, [], true => Return (PyCoroRaise (ValueError "no"))
  | _, _, _ => Raise (TypeError (call_error_text "fail" (args c) (kwargs c)))
  end.

(** [def whoami(self, ctx, greeting='hello'):
         return [ctx('__user__'), ctx('peername'), greeting]] *)
Definition whoami (c : call) : outcome pyobj :=
  match ctx c, args c with
  | Some getter, [] =>
      Return (PyList [getter "__user__"; getter "peername";
                      match kwargs c !! "greeting" with
                      | Some g => g
                      | None => PyStr "hello"
                      end])
  | _, _ => Raise (TypeError (call_error_text "whoami" (args c) (kwargs c)))
  end.

Definition whoami_parameters : list Param :=
  [ {| name := "ctx"; default_value := None |};
    {| name := "greeting"; default_value := Some (PyStr "hello") |} ].

Definition app : application :=
  [ ("__init__", Callable add []);
    ("_get_client", Callable add [ {| name := "endpoint"; default_value := None |} ]);
    ("add", Callable add [ {| name := "x"; default_value := None |};
                           {| name := "y"; default_value := None |} ]);
    ("echo", Callable echo [ {| name := "args"; default_value := None |} ]);
    ("fail", Callable fail []);
    ("version", NotCallable);
    ("whoami", Callable whoami whoami_parameters) ].

Definition server : Server := init app.

Definition writer : StreamWriter :=
  {| get_extra_info := fun k => if bool_decide (k = "peername") then PyStr "10.0.0.7" else PyNone;
     written := [];
     closed := false |}.

Definition reflection : pyobj := PyBytes (x00 :: list_byte_of_string "reflection").

(** [[0, 7, b'add', [1, 2]]], [[2, b'add', [1, 2]]] and
    [[1, 7, None, 3]] on the wire *)
Definition request_bytes : bytes :=
  [x94; x00; x07; xa3; "a"; "d"; "d"; x92; x01; x02]%byte.

Definition notification_bytes : bytes :=
  [x93; x02; xa3; "a"; "d"; "d"; x92; x01; x02]%byte.

Definition response_bytes : bytes :=
  [x94; x01; x07; xc0; x03]%byte.

Definition add_request : msgobj :=
  Request (PyInt 0) (PyInt 7) (b "add") (PyList [PyInt 1; PyInt 2]).

Definition add_notification : msgobj :=
  Notification (PyInt 2) (b "add") (PyList [PyInt 1; PyInt 2]).

End Demo.

(** ** What a peer reads back *)

Module Wire.
Import Python Msgpack.

(** The object that the unpacker gives for what [packb] wrote: raw data
    comes back as [bytes], whether it was packed from [bytes] or from
    [str], and an array comes back as a list, whether it was packed from
    a list or from a tuple. *)
Fixpoint unpacked_form (o : pyobj) : pyobj :=
  match o with
  | PyStr s => PyBytes (str_encode s)
  | PyList l | PyTuple l => PyList (map unpacked_form l)
  | PyDict d => PyDict (map (fun '(k, v) => (unpacked_form k, unpacked_form v)) d)
  | _ => o
  end.

(** No key of a dict is equal to a later one. *)
Fixpoint keys_distinct (d : list (pyobj * pyobj)) : bool :=
  match d with
  | [] => true
  | (k, _) :: d' => forallb (fun kv => negb (key_eq k kv.1)) d' && keys_distinct d'
  end.

(** An object that loses nothing but the two distinctions above on its
    way through the wire: the payload of a float is 64 bits, and the
    keys of a dict are still hashable and still distinct when they come
    back. *)
Fixpoint faithful (o : pyobj) : bool :=
  match o with
  | PyFloat bits => bits <? 2 ^ 64
  | PyList l | PyTuple l => forallb faithful l
  | PyDict d =>
      forallb (fun '(k, v) => faithful k && faithful v && hashable (unpacked_form k)) d
      && keys_distinct (map (fun '(k, v) => (unpacked_form k, unpacked_form v)) d)
  | PyCoroReturn _ | PyCoroRaise _ | PyObject _ => false
  | _ => true
  end.

(** An object as the unpacker builds them: it is faithful, and it is its
    own unpacked form. *)
Definition wire_object (o : pyobj) : Prop :=
  faithful o = true /\ unpacked_form o = o.

Definition head_wire (h : head) : Prop :=
  match h with
  | HValue v _ => wire_object v
  | _ => True
  end.

End Wire.

(** * Properties *)

Import Python Msgpack Message Server.

(** A bind whose first computation has returned. *)
Ltac bind_return := change (Return ?x ≫= ?f) with (f x); cbn beta.

(** Case analysis on every test of a chain of conditionals. *)
Ltac case_ifs :=
  repeat match goal with
         | |- context [if ?c then _ else _] => destruct c eqn:?
         end.

(** ** The unpacker *)

Lemma split_at_0 (b : bytes) : split_at 0 b = Some ([], b).
Proof. by destruct b. Qed.

Lemma split_at_cons (n : N) (x : byte) (t : bytes) :
  n ≠ 0 →
  split_at n (x :: t) =
    match split_at (N.pred n) t with Some (p, r) => Some (x :: p, r) | None => None end.
Proof. intros Hn. simpl. destruct (N.eqb_spec n 0); [done | done]. Qed.

Lemma split_at_app (n : N) (b p r more : bytes) :
  split_at n b = Some (p, r) → split_at n (b ++ more) = Some (p, r ++ more).
Proof.
  revert n p. induction b as [|x t IH]; intros n p.
  - simpl. destruct (N.eqb_spec n 0) as [->|Hn]; [|done].
    intros [= <- <-]. by rewrite split_at_0.
  - destruct (N.eqb_spec n 0) as [->|Hn].
    + rewrite split_at_0. intros [= <- <-]. by rewrite split_at_0.
    + rewrite <- app_comm_cons, !split_at_cons by done.
      destruct (split_at (N.pred n) t) as [[p' r']|] eqn:E; [|done].
      intros [= <- <-]. by rewrite (IH _ _ E).
Qed.

Lemma split_at_spec (n : N) (b p r : bytes) :
  split_at n b = Some (p, r) → b = p ++ r ∧ N.of_nat (length p) = n.
Proof.
  revert n p. induction b as [|x t IH]; intros n p.
  - simpl. destruct (N.eqb_spec n 0) as [->|Hn]; [|done]. by intros [= <- <-].
  - destruct (N.eqb_spec n 0) as [->|Hn].
    + rewrite split_at_0. by intros [= <- <-].
    + rewrite split_at_cons by done.
      destruct (split_at (N.pred n) t) as [[p' r']|] eqn:E; [|done].
      intros [= <- <-]. destruct (IH _ _ E) as [-> Hl]. split; [done|].
      simpl length. lia.
Qed.

Lemma with_bytes_app (n : N) (b more : bytes) (k : bytes → bytes → head) :
  (∀ p r, k p r ≠ HNeedMore → k p (r ++ more) = head_app (k p r) more) →
  with_bytes n b k ≠ HNeedMore →
  with_bytes n (b ++ more) k = head_app (with_bytes n b k) more.
Proof.
  intros Hk. unfold with_bytes.
  destruct (split_at n b) as [[p r]|] eqn:E; [|done].
  rewrite (split_at_app _ _ _ _ more E). apply Hk.
Qed.

Lemma with_uint_app (w : N) (b more : bytes) (k : N → bytes → head) :
  (∀ u r, k u r ≠ HNeedMore → k u (r ++ more) = head_app (k u r) more) →
  with_uint w b k ≠ HNeedMore →
  with_uint w (b ++ more) k = head_app (with_uint w b k) more.
Proof.
  intros Hk. unfold with_uint, with_bytes.
  destruct (split_at w b) as [[p r]|] eqn:E; [|done].
  rewrite (split_at_app _ _ _ _ more E). apply Hk.
Qed.

Lemma read_raw_app (n : N) (b more : bytes) :
  read_raw n b ≠ HNeedMore → read_raw n (b ++ more) = head_app (read_raw n b) more.
Proof. apply with_bytes_app. by intros p r _. Qed.

Lemma read_ext_app (n : N) (b more : bytes) :
  read_ext n b ≠ HNeedMore → read_ext n (b ++ more) = head_app (read_ext n b) more.
Proof.
  apply with_bytes_app. intros c r. apply with_bytes_app.
  intros p r' _. by destruct (be_uint c <? 128).
Qed.

Lemma read_body_app (f : format) (b more : bytes) :
  read_body f b ≠ HNeedMore → read_body f (b ++ more) = head_app (read_body f b) more.
Proof.
  destruct f; simpl; try done;
    first [ apply read_raw_app | apply read_ext_app
          | apply with_uint_app; intros u r; first [apply read_raw_app | apply read_ext_app | done] ].
Qed.

Lemma read_head_app (b more : bytes) :
  read_head b ≠ HNeedMore → read_head (b ++ more) = head_app (read_head b) more.
Proof. destruct b as [|x t]; [done|]. apply read_body_app. Qed.

Lemma unpack_array_0 (f : nat) (acc : list pyobj) (b : bytes) :
  unpack_array f 0 acc b = Done (PyList (rev acc)) b.
Proof. by destruct f. Qed.

Lemma unpack_map_0 (f : nat) (acc : list (pyobj * pyobj)) (b : bytes) :
  unpack_map f 0 acc b = Done (PyDict acc) b.
Proof. by destruct f. Qed.

Lemma unpack_array_S (f : nat) (n : N) (acc : list pyobj) (b : bytes) :
  n ≠ 0 →
  unpack_array (S f) n acc b =
    match unpack_fuel f b with
    | Done v r => unpack_array f (N.pred n) (v :: acc) r
    | NeedMore => NeedMore
    | Failed e => Failed e
    end.
Proof. intros Hn. simpl. by destruct (N.eqb_spec n 0). Qed.

Lemma unpack_map_S (f : nat) (n : N) (acc : list (pyobj * pyobj)) (b : bytes) :
  n ≠ 0 →
  unpack_map (S f) n acc b =
    match unpack_fuel f b with
    | Done k r =>
        match unpack_fuel f r with
        | Done v r' =>
            if hashable k then unpack_map f (N.pred n) (dict_setitem acc k v) r'
            else Failed (TypeError ("unhashable type: '" +:+ type_name k +:+ "'"))
        | NeedMore => NeedMore
        | Failed e => Failed e
        end
    | NeedMore => NeedMore
    | Failed e => Failed e
    end.
Proof. intros Hn. simpl. by destruct (N.eqb_spec n 0). Qed.

Lemma unpack_fuel_S (f : nat) (b : bytes) :
  unpack_fuel (S f) b =
    match read_head b with
    | HValue v r => Done v r
    | HArray n r => unpack_array f n [] r
    | HMap n r => unpack_map f n [] r
    | HNeedMore => NeedMore
    | HFail e => Failed e
    end.
Proof. done. Qed.

(** More fuel and more bytes behind change nothing once an object is
    complete or found to be invalid. *)
Lemma unpack_fuel_app_all (f : nat) :
  (∀ b more f', (f ≤ f')%nat → unpack_fuel f b ≠ NeedMore →
     unpack_fuel f' (b ++ more) = unpacked_app (unpack_fuel f b) more)
  ∧ (∀ n acc b more f', (f ≤ f')%nat → unpack_array f n acc b ≠ NeedMore →
     unpack_array f' n acc (b ++ more) = unpacked_app (unpack_array f n acc b) more)
  ∧ (∀ n acc b more f', (f ≤ f')%nat → unpack_map f n acc b ≠ NeedMore →
     unpack_map f' n acc (b ++ more) = unpacked_app (unpack_map f n acc b) more).
Proof.
  induction f as [|f (IHv & IHa & IHm)].
  - split; [done|]. split; intros n acc b more f' _.
    + destruct (N.eqb_spec n 0) as [->|Hn]; [by rewrite !unpack_array_0|].
      simpl. by destruct (N.eqb_spec n 0).
    + destruct (N.eqb_spec n 0) as [->|Hn]; [by rewrite !unpack_map_0|].
      simpl. by destruct (N.eqb_spec n 0).
  - split; [|split].
    + intros b more [|f'] Hle; [lia|]. rewrite !unpack_fuel_S.
      destruct (read_head b) as [v r|n r|n r| |e] eqn:E; try done;
        intros Hne; rewrite read_head_app, E by (by rewrite E); simpl.
      * done.
      * apply IHa; [lia|done].
      * apply IHm; [lia|done].
      * done.
    + intros n acc b more f' Hle.
      destruct (N.eqb_spec n 0) as [->|Hn]; [by rewrite !unpack_array_0|].
      destruct f' as [|f']; [lia|]. rewrite !unpack_array_S by done.
      destruct (unpack_fuel f b) as [v r| |e] eqn:E; try done; intros Hne;
        rewrite IHv, E by (try lia; by rewrite E); simpl; [|done].
      apply IHa; [lia|done].
    + intros n acc b more f' Hle.
      destruct (N.eqb_spec n 0) as [->|Hn]; [by rewrite !unpack_map_0|].
      destruct f' as [|f']; [lia|]. rewrite !unpack_map_S by done.
      destruct (unpack_fuel f b) as [k r| |e] eqn:E; try done; intros Hne;
        rewrite IHv, E by (try lia; by rewrite E); simpl; [|done].
      destruct (unpack_fuel f r) as [v r'| |e] eqn:E'; try done;
        rewrite IHv, E' by (try lia; by rewrite E'); simpl; [|done].
      destruct (hashable k); [|done]. apply IHm; [lia|done].
Qed.

(** A head takes at least one byte off the buffer. *)
Lemma with_bytes_suffix (n : N) (b r : bytes) (k : bytes → bytes → head) :
  (∀ p r0 r, head_rest (k p r0) = Some r → r `suffix_of` r0) →
  head_rest (with_bytes n b k) = Some r → r `suffix_of` b.
Proof.
  intros Hk. unfold with_bytes.
  destruct (split_at n b) as [[p r0]|] eqn:E; [|done].
  apply split_at_spec in E as [-> _]. intros Hr.
  apply suffix_app_r. by eapply Hk.
Qed.

Lemma read_raw_suffix (n : N) (b r : bytes) :
  head_rest (read_raw n b) = Some r → r `suffix_of` b.
Proof. apply with_bytes_suffix. by intros p r0 r' [= ->]. Qed.

Lemma read_ext_suffix (n : N) (b r : bytes) :
  head_rest (read_ext n b) = Some r → r `suffix_of` b.
Proof.
  apply with_bytes_suffix. intros c r0 r'. apply with_bytes_suffix.
  intros p r1 r2. destruct (be_uint c <? 128); [|done]. by intros [= ->].
Qed.

Lemma read_body_suffix (f : format) (b r : bytes) :
  head_rest (read_body f b) = Some r → r `suffix_of` b.
Proof.
  destruct f; simpl; try (by intros [= ->]); try done;
    first [ apply read_raw_suffix | apply read_ext_suffix
          | apply with_bytes_suffix; intros p r0 r';
            first [ apply read_raw_suffix | apply read_ext_suffix | by intros [= ->] ] ].
Qed.

Lemma read_head_shorter (b r : bytes) :
  head_rest (read_head b) = Some r → (length r < length b)%nat.
Proof.
  destruct b as [|x t]; [done|]. intros Hr%read_body_suffix%suffix_length.
  simpl. lia.
Qed.

(** An object takes at least one byte off the buffer. *)
Lemma unpack_fuel_shorter_all (f : nat) :
  (∀ b v r, unpack_fuel f b = Done v r → (length r < length b)%nat)
  ∧ (∀ n acc b v r, unpack_array f n acc b = Done v r → (length r ≤ length b)%nat)
  ∧ (∀ n acc b v r, unpack_map f n acc b = Done v r → (length r ≤ length b)%nat).
Proof.
  induction f as [|f (IHv & IHa & IHm)].
  - split; [done|]. split; intros n acc b v r.
    + destruct (N.eqb_spec n 0) as [->|Hn]; [rewrite unpack_array_0; by intros [= _ ->]|].
      simpl. by destruct (N.eqb_spec n 0).
    + destruct (N.eqb_spec n 0) as [->|Hn]; [rewrite unpack_map_0; by intros [= _ ->]|].
      simpl. by destruct (N.eqb_spec n 0).
  - split; [|split].
    + intros b v r. rewrite unpack_fuel_S.
      pose proof (read_head_shorter b) as Hh.
      destruct (read_head b) as [v0 r0|n r0|n r0| |e]; simpl in Hh; try done.
      * intros [= _ <-]. by apply Hh.
      * intros Ha%IHa. specialize (Hh _ eq_refl). lia.
      * intros Hm%IHm. specialize (Hh _ eq_refl). lia.
    + intros n acc b v r.
      destruct (N.eqb_spec n 0) as [->|Hn]; [rewrite unpack_array_0; by intros [= _ ->]|].
      rewrite unpack_array_S by done.
      destruct (unpack_fuel f b) as [v0 r0| |e] eqn:E; try done.
      apply IHv in E. intros Ha%IHa. lia.
    + intros n acc b v r.
      destruct (N.eqb_spec n 0) as [->|Hn]; [rewrite unpack_map_0; by intros [= _ ->]|].
      rewrite unpack_map_S by done.
      destruct (unpack_fuel f b) as [k0 r0| |e] eqn:E; try done.
      destruct (unpack_fuel f r0) as [v0 r1| |e] eqn:E'; try done.
      apply IHv in E. apply IHv in E'.
      destruct (hashable k0); [|done]. intros Hm%IHm. lia.
Qed.

(** Fuel beyond what [unpack] gives is never used. *)
Lemma unpack_fuel_enough_all (f : nat) :
  (∀ b g, unpack_fuel f b ≠ NeedMore → (2 * length b + 1 ≤ g)%nat →
     unpack_fuel g b = unpack_fuel f b)
  ∧ (∀ n acc b g, unpack_array f n acc b ≠ NeedMore → (2 * length b + 2 ≤ g)%nat →
     unpack_array g n acc b = unpack_array f n acc b)
  ∧ (∀ n acc b g, unpack_map f n acc b ≠ NeedMore → (2 * length b + 2 ≤ g)%nat →
     unpack_map g n acc b = unpack_map f n acc b).
Proof.
  induction f as [|f (IHv & IHa & IHm)].
  - split; [done|]. split; intros n acc b g.
    + destruct (N.eqb_spec n 0) as [->|Hn]; [by rewrite !unpack_array_0|].
      simpl. by destruct (N.eqb_spec n 0).
    + destruct (N.eqb_spec n 0) as [->|Hn]; [by rewrite !unpack_map_0|].
      simpl. by destruct (N.eqb_spec n 0).
  - split; [|split].
    + intros b [|g] Hne Hg; [lia|]. revert Hne. rewrite !unpack_fuel_S.
      pose proof (read_head_shorter b) as Hh.
      destruct (read_head b) as [v0 r0|n r0|n r0| |e]; simpl in Hh; try done.
      * intros Hne. specialize (Hh _ eq_refl). apply IHa; [done|lia].
      * intros Hne. specialize (Hh _ eq_refl). apply IHm; [done|lia].
    + intros n acc b g.
      destruct (N.eqb_spec n 0) as [->|Hn]; [by rewrite !unpack_array_0|].
      destruct g as [|g]; [lia|]. rewrite !unpack_array_S by done.
      destruct (unpack_fuel f b) as [v0 r0| |e] eqn:E; try done; intros Hne Hg;
        rewrite IHv, E by (try lia; by rewrite E); [|done].
      apply (proj1 (unpack_fuel_shorter_all f)) in E. apply IHa; [done|lia].
    + intros n acc b g.
      destruct (N.eqb_spec n 0) as [->|Hn]; [by rewrite !unpack_map_0|].
      destruct g as [|g]; [lia|]. rewrite !unpack_map_S by done.
      destruct (unpack_fuel f b) as [k0 r0| |e] eqn:E; try done; intros Hne Hg;
        rewrite IHv, E by (try lia; by rewrite E); [|done].
      apply (proj1 (unpack_fuel_shorter_all f)) in E.
      destruct (unpack_fuel f r0) as [v0 r1| |e] eqn:E'; try done;
        rewrite IHv, E' by (try lia; by rewrite E'); [|done].
      apply (proj1 (unpack_fuel_shorter_all f)) in E'.
      destruct (hashable k0); [|done]. apply IHm; [done|lia].
Qed.

Lemma unpack_fuel_enough (f : nat) (b : bytes) :
  (2 * length b + 1 ≤ f)%nat → unpack_fuel f b = unpack b.
Proof.
  intros Hf. unfold unpack.
  destruct (unpack_fuel (2 * length b + 1) b) as [v r| |e] eqn:E.
  - rewrite <- E. apply (proj1 (unpack_fuel_enough_all _)); [by rewrite E|done].
  - destruct (unpack_fuel f b) as [v r| |e] eqn:E'; [|done|].
    + rewrite <- E, <- E'. symmetry.
      apply (proj1 (unpack_fuel_enough_all _)); [by rewrite E'|done].
    + rewrite <- E, <- E'. symmetry.
      apply (proj1 (unpack_fuel_enough_all _)); [by rewrite E'|done].
  - rewrite <- E. apply (proj1 (unpack_fuel_enough_all _)); [by rewrite E|done].
Qed.

Lemma unpack_shorter (b : bytes) (v : pyobj) (r : bytes) :
  unpack b = Done v r → (length r < length b)%nat.
Proof. apply (proj1 (unpack_fuel_shorter_all _)). Qed.

Lemma unpack_app (b more : bytes) :
  unpack b ≠ NeedMore → unpack (b ++ more) = unpacked_app (unpack b) more.
Proof.
  intros Hne. apply (proj1 (unpack_fuel_app_all _)); [|done].
  rewrite length_app. lia.
Qed.

Lemma unpack_nil : unpack [] = NeedMore.
Proof. done. Qed.

(** ** The unpacker's loop *)

Lemma for_each_fuel_irrelevant {St : Type} (body : pyobj → St → outcome St) (f g : nat)
    (b : bytes) (s : St) :
  (length b ≤ f)%nat → (length b ≤ g)%nat →
  for_each_fuel body f b s = for_each_fuel body g b s.
Proof.
  revert g b s. induction f as [|f IH]; intros g b s Hf Hg.
  - destruct b; [|simpl in Hf; lia]. by destruct g.
  - destruct g as [|g].
    + destruct b; [|simpl in Hg; lia]. done.
    + simpl. destruct (unpack b) as [msg rest| |e] eqn:E; try done.
      destruct (body msg s) as [s'|e]; [|done].
      apply unpack_shorter in E. apply IH; lia.
Qed.

Lemma for_each_fuel_enough {St : Type} (body : pyobj → St → outcome St) (f : nat) (b : bytes) (s : St) :
  (length b ≤ f)%nat → for_each_fuel body f b s = for_each body b s.
Proof. intros Hf. by apply for_each_fuel_irrelevant. Qed.

Lemma for_each_eq {St : Type} (body : pyobj → St → outcome St) (b : bytes) (s : St) :
  for_each body b s =
    match unpack b with
    | NeedMore => (b, s, None)
    | Failed e => (b, s, Some e)
    | Done msg rest =>
        match body msg s with
        | Raise e => (rest, s, Some e)
        | Return s' => for_each body rest s'
        end
    end.
Proof.
  destruct b as [|x t]; [done|].
  unfold for_each at 1. change (length (x :: t)) with (S (length t)).
  cbn [for_each_fuel]. destruct (unpack (x :: t)) as [msg rest| |e] eqn:E; try done.
  destruct (body msg s) as [s'|e]; [|done].
  apply unpack_shorter in E. apply for_each_fuel_enough. simpl in E. lia.
Qed.

(** The loop ends without an exception only when the buffer holds no
    complete object. *)
Lemma for_each_quiescent {St : Type} (body : pyobj → St → outcome St) (b b' : bytes) (s s' : St) :
  for_each body b s = (b', s', None) → unpack b' = NeedMore.
Proof.
  remember (length b) as n eqn:Hn. revert b s Hn.
  induction (lt_wf n) as [n _ IH]; intros b s ->.
  rewrite for_each_eq. destruct (unpack b) as [msg rest| |e] eqn:E; try done.
  - destruct (body msg s) as [s1|e]; [|done].
    apply unpack_shorter in E. by apply (IH _ E).
  - by intros [= <- <-].
Qed.

(** Bytes that come later do not change what the loop does with the
    bytes it has: it goes on from where it stopped, and an exception
    comes at the same object. *)
Lemma for_each_app {St : Type} (body : pyobj → St → outcome St) (b more b' : bytes) (s s' : St) :
  for_each body b s = (b', s', None) →
  for_each body (b ++ more) s = for_each body (b' ++ more) s'.
Proof.
  remember (length b) as n eqn:Hn. revert b s Hn.
  induction (lt_wf n) as [n _ IH]; intros b s ->.
  rewrite for_each_eq. destruct (unpack b) as [msg rest| |e] eqn:E; try done.
  - destruct (body msg s) as [s1|e] eqn:Eb; [|done].
    intros Hrest. rewrite (for_each_eq _ (b ++ more)), unpack_app, E by (by rewrite E).
    simpl. rewrite Eb. apply unpack_shorter in E. by apply (IH _ E).
  - by intros [= <- <-].
Qed.

Lemma for_each_app_raise {St : Type} (body : pyobj → St → outcome St) (b more b' : bytes)
    (s s' : St) (e : exc) :
  for_each body b s = (b', s', Some e) →
  for_each body (b ++ more) s = (b' ++ more, s', Some e).
Proof.
  remember (length b) as n eqn:Hn. revert b s Hn.
  induction (lt_wf n) as [n _ IH]; intros b s ->.
  rewrite for_each_eq, (for_each_eq _ (b ++ more)).
  destruct (unpack b) as [msg rest| |e0] eqn:E; try done.
  - rewrite unpack_app, E by (by rewrite E). simpl.
    destruct (body msg s) as [s1|e0] eqn:Eb; [|by intros [= <- <- <-]].
    apply unpack_shorter in E. by apply (IH _ E).
  - rewrite unpack_app, E by (by rewrite E). simpl. by intros [= <- <- <-].
Qed.

(** A run of complete objects followed by an incomplete one. *)
Lemma for_each_collect_valid (ms : list bytes) (vs : list pyobj) (tail : bytes) (acc : list pyobj) :
  Forall2 (λ m v, unpack m = Done v []) ms vs →
  unpack tail = NeedMore →
  for_each collect (concat ms ++ tail) acc = (tail, acc ++ vs, None).
Proof.
  intros Hms Htail. revert acc. induction Hms as [|m v ms vs Hm _ IH]; intros acc.
  - simpl. rewrite for_each_eq, Htail, app_nil_r. done.
  - simpl. rewrite <- app_assoc, for_each_eq, unpack_app, Hm by (by rewrite Hm).
    simpl. rewrite IH, <- app_assoc. done.
Qed.

Lemma feed_chunks_whole (chunks : list bytes) (buffer : bytes) (acc : list pyobj)
    (buffer' : bytes) (acc' : list pyobj) :
  unpack buffer = NeedMore →
  for_each collect (buffer ++ concat chunks) acc = (buffer', acc', None) →
  feed_chunks chunks buffer acc = (buffer', acc', None).
Proof.
  revert buffer acc. induction chunks as [|c cs IH]; intros buffer acc Hq.
  - simpl. rewrite app_nil_r, for_each_eq, Hq. done.
  - simpl. unfold feed. rewrite app_assoc.
    destruct (for_each collect (buffer ++ c) acc) as [[b1 acc1] [e|]] eqn:E.
    + rewrite (for_each_app_raise _ _ _ _ _ _ _ E). done.
    + rewrite (for_each_app _ _ _ _ _ _ E). apply IH.
      by eapply for_each_quiescent.
Qed.

(** ** What the unpacker delivers, the packer refuses for its depth only *)

Lemma format_of_ok (x : byte) : format_ok (format_of (Byte.to_N x)) = true.
Proof. by destruct x. Qed.

Lemma be_uint_lt (p : bytes) : be_uint p < 256 ^ N.of_nat (length p).
Proof.
  unfold be_uint.
  assert (∀ a, fold_left (λ acc x, acc * 256 + Byte.to_N x) p a
               < (a + 1) * 256 ^ N.of_nat (length p)) as H.
  { induction p as [|x t IH]; intros a.
    - simpl. lia.
    - simpl fold_left. eapply N.lt_le_trans; [apply IH|].
      pose proof (Byte.to_N_bounded x).
      replace (N.of_nat (length (x :: t))) with (N.succ (N.of_nat (length t)))
        by (simpl length; lia).
      rewrite N.pow_succ_r'. nia. }
  specialize (H 0). lia.
Qed.

Lemma pow256_le (w k : N) : w <= k → 256 ^ w <= 256 ^ k.
Proof. intros. apply N.pow_le_mono_r; lia. Qed.

Section Packable.
Context `{PyText}.

Lemma pack_int_ok (n : Z) : (- 2 ^ 63 <= n < 2 ^ 64)%Z → ∃ data, pack_int n = Return data.
Proof.
  intros Hn. unfold pack_int.
  case_ifs; eauto.
  - apply N.ltb_ge in Heqb4. apply Z.leb_le in Heqb. lia.
  - apply Z.leb_gt in Heqb4. lia.
Qed.

Lemma pack_raw_ok (data : bytes) :
  N.of_nat (length data) < 2 ^ 32 → ∃ out, pack_raw data = Return out.
Proof.
  intros Hn. unfold pack_raw.
  case_ifs; eauto.
  apply N.ltb_ge in Heqb1. lia.
Qed.

Lemma pack_ext_ok (code : Z) (data : bytes) :
  (0 <= code < 128)%Z → N.of_nat (length data) < 2 ^ 32 →
  ∃ out, pack_ext code data = Return out.
Proof.
  intros Hc Hn. unfold pack_ext.
  destruct (0 <=? code)%Z eqn:E1; [|apply Z.leb_gt in E1; lia].
  destruct (code <? 128)%Z eqn:E2; [|apply Z.ltb_ge in E2; lia]. simpl.
  destruct (N.of_nat (length data) <? 2 ^ 8) eqn:E3;
    [|destruct (N.of_nat (length data) <? 2 ^ 16) eqn:E4;
      [|destruct (N.of_nat (length data) <? 2 ^ 32) eqn:E5; [|apply N.ltb_ge in E5; lia]]];
    repeat case_match; eauto.
Qed.

Lemma pack_array_header_ok (n : N) : n < 2 ^ 32 → ∃ hdr, pack_array_header n = Return hdr.
Proof.
  intros Hn. unfold pack_array_header.
  case_ifs; eauto.
  apply N.ltb_ge in Heqb1. lia.
Qed.

Lemma pack_map_header_ok (n : N) : n < 2 ^ 32 → ∃ hdr, pack_map_header n = Return hdr.
Proof.
  intros Hn. unfold pack_map_header.
  case_ifs; eauto.
  apply N.ltb_ge in Heqb1. lia.
Qed.

Lemma pack_items_ok (pack : pyobj → outcome bytes) (l : list pyobj) :
  Forall (λ o, ∃ data, pack o = Return data) l ↔ ∃ body, pack_items pack l = Return body.
Proof.
  split.
  - induction 1 as [|x t [bx Hx] _ [bt IH]]; [by eexists|].
    simpl. rewrite Hx. simpl. rewrite IH. by eexists.
  - induction l as [|x t IH]; intros [body Hb]; [done|].
    simpl in Hb. destruct (pack x) as [bx|] eqn:Ex; [|done]. simpl in Hb.
    destruct (pack_items pack t) as [bt|] eqn:Et; [|done].
    constructor; [by eexists|]. apply IH. by eexists.
Qed.

Lemma pack_pairs_ok (pack : pyobj → outcome bytes) (d : list (pyobj * pyobj)) :
  Forall (λ kv, (∃ data, pack kv.1 = Return data) ∧ (∃ data, pack kv.2 = Return data)) d →
  ∃ body, pack_pairs pack d = Return body.
Proof.
  induction 1 as [|[k v] t [[bk Hk] [bv Hv]] _ [bt IH]]; [by eexists|].
  simpl in *. rewrite Hk. simpl. rewrite Hv. simpl. rewrite IH. by eexists.
Qed.

(** [_pack] on a list and on a dict, past the test of the limit. *)
Lemma _pack_list (l : list pyobj) (limit : Z) :
  (0 ≤ limit)%Z →
  _pack (PyList l) limit =
    hdr ← pack_array_header (N.of_nat (length l));
    body ← pack_items (λ x, _pack x (limit - 1)%Z) l;
    Return (hdr ++ body).
Proof. intros Hl. cbn [_pack]. by destruct (Z.ltb_spec limit 0); [lia|]. Qed.

Lemma _pack_tuple (l : list pyobj) (limit : Z) : _pack (PyTuple l) limit = _pack (PyList l) limit.
Proof. done. Qed.

Lemma _pack_dict (d : list (pyobj * pyobj)) (limit : Z) :
  (0 ≤ limit)%Z →
  _pack (PyDict d) limit =
    hdr ← pack_map_header (N.of_nat (length d));
    body ← pack_pairs (λ x, _pack x (limit - 1)%Z) d;
    Return (hdr ++ body).
Proof. intros Hl. cbn [_pack]. by destruct (Z.ltb_spec limit 0); [lia|]. Qed.

Lemma packable_in_nonneg (limit : Z) (o : pyobj) : packable_in limit o → (0 ≤ limit)%Z.
Proof.
  intros [data Hd]. destruct (Z.ltb_spec limit 0) as [Hl|]; [|done].
  apply Z.ltb_lt in Hl. by destruct o; cbn [_pack] in Hd; rewrite Hl in Hd.
Qed.

Lemma packable_in_list (limit : Z) (l : list pyobj) :
  (0 ≤ limit)%Z → N.of_nat (length l) < 2 ^ 32 →
  Forall (packable_in (limit - 1)) l → packable_in limit (PyList l).
Proof.
  intros Hl [hdr Hh]%pack_array_header_ok [body Hb]%pack_items_ok.
  unfold packable_in. rewrite _pack_list, Hh by done. bind_return. rewrite Hb. by eexists.
Qed.

Lemma packable_in_list_inv (limit : Z) (l : list pyobj) :
  packable_in limit (PyList l) → Forall (packable_in (limit - 1)) l.
Proof.
  intros Hp. pose proof (packable_in_nonneg _ _ Hp) as Hl. destruct Hp as [data Hd].
  rewrite _pack_list in Hd by done. apply pack_items_ok.
  destruct (pack_array_header (N.of_nat (length l))) as [hdr|]; [|done]. bind_return.
  destruct (pack_items (λ x, _pack x (limit - 1)%Z) l) as [body|]; [by eexists|done].
Qed.

Lemma packable_in_dict (limit : Z) (d : list (pyobj * pyobj)) :
  (0 ≤ limit)%Z → N.of_nat (length d) < 2 ^ 32 →
  Forall (λ kv, packable_in (limit - 1) kv.1 ∧ packable_in (limit - 1) kv.2) d →
  packable_in limit (PyDict d).
Proof.
  intros Hl [hdr Hh]%pack_map_header_ok Hall.
  destruct (pack_pairs_ok (λ x, _pack x (limit - 1)%Z) d Hall) as [body Hb].
  unfold packable_in. rewrite _pack_dict, Hh by done. bind_return. rewrite Hb. by eexists.
Qed.

(** The nesting of a container bounds that of what it holds. *)
Lemma nesting_list (l : list pyobj) (limit : Z) :
  (nesting (PyList l) ≤ limit)%Z ↔
    (0 ≤ limit)%Z ∧ Forall (λ x, (nesting x ≤ limit - 1)%Z) l.
Proof.
  cbn [nesting]. induction l as [|x l IH]; cbn [fold_right].
  - split; [by split|by intros [? _]].
  - split.
    + intros Hm.
      destruct (proj1 IH) as [H0 Hl]; [lia|]. split; [done|]. constructor; [lia|done].
    + intros [H0 Hl]. inversion Hl as [|? ? Hx Hl']; subst.
      pose proof (proj2 IH (conj H0 Hl')). lia.
Qed.

Lemma nesting_dict (d : list (pyobj * pyobj)) (limit : Z) :
  (nesting (PyDict d) ≤ limit)%Z ↔
    (0 ≤ limit)%Z
    ∧ Forall (λ kv, (nesting kv.1 ≤ limit - 1)%Z ∧ (nesting kv.2 ≤ limit - 1)%Z) d.
Proof.
  cbn [nesting]. induction d as [|[k v] d IH]; cbn [fold_right].
  - split; [by split|by intros [? _]].
  - split.
    + intros Hm.
      destruct (proj1 IH) as [H0 Hd]; [lia|]. split; [done|].
      constructor; [simpl; lia|done].
    + intros [H0 Hd]. inversion Hd as [|? ? [Hk Hv] Hd']; subst. simpl in Hk, Hv.
      pose proof (proj2 IH (conj H0 Hd')). lia.
Qed.

Lemma packs_list (l : list pyobj) :
  N.of_nat (length l) < 2 ^ 32 → Forall packs l → packs (PyList l).
Proof.
  intros Hlen Hl limit [H0 Hn]%nesting_list. apply packable_in_list; [done..|].
  apply Forall_forall. intros x Hx.
  apply (proj1 (Forall_forall _ _) Hl x Hx), (proj1 (Forall_forall _ _) Hn x Hx).
Qed.

Lemma packs_dict (d : list (pyobj * pyobj)) :
  N.of_nat (length d) < 2 ^ 32 →
  Forall (λ kv, packs kv.1 ∧ packs kv.2) d → packs (PyDict d).
Proof.
  intros Hlen Hd limit [H0 Hn]%nesting_dict. apply packable_in_dict; [done..|].
  apply Forall_forall. intros kv Hkv.
  destruct (proj1 (Forall_forall _ _) Hd kv Hkv) as [Hk Hv].
  destruct (proj1 (Forall_forall _ _) Hn kv Hkv) as [Hnk Hnv].
  split; [by apply Hk|by apply Hv].
Qed.

(** An object that is no container is packed at any limit that is not
    negative. *)
Lemma packable_in_int (limit : Z) (n : Z) :
  (0 ≤ limit)%Z → (- 2 ^ 63 <= n < 2 ^ 64)%Z → packable_in limit (PyInt n).
Proof.
  intros Hl Hn. unfold packable_in. cbn [_pack].
  destruct (Z.ltb_spec limit 0); [lia|]. by apply pack_int_ok.
Qed.

Lemma packable_in_bytes (limit : Z) (data : bytes) :
  (0 ≤ limit)%Z → N.of_nat (length data) < 2 ^ 32 → packable_in limit (PyBytes data).
Proof.
  intros Hl Hn. unfold packable_in. cbn [_pack].
  destruct (Z.ltb_spec limit 0); [lia|]. by apply pack_raw_ok.
Qed.

Lemma packable_in_ext (limit : Z) (code : Z) (data : bytes) :
  (0 ≤ limit)%Z → (0 <= code < 128)%Z → N.of_nat (length data) < 2 ^ 32 →
  packable_in limit (PyExt code data).
Proof.
  intros Hl Hc Hn. unfold packable_in. cbn [_pack].
  destruct (Z.ltb_spec limit 0); [lia|]. by apply pack_ext_ok.
Qed.

Lemma packable_in_None (limit : Z) : (0 ≤ limit)%Z → packable_in limit PyNone.
Proof.
  intros Hl. unfold packable_in. cbn [_pack].
  destruct (Z.ltb_spec limit 0); [lia|]. by eexists.
Qed.

Lemma packable_in_bool (limit : Z) (b : bool) : (0 ≤ limit)%Z → packable_in limit (PyBool b).
Proof.
  intros Hl. unfold packable_in. cbn [_pack].
  destruct (Z.ltb_spec limit 0); [lia|]. by eexists.
Qed.

Lemma packable_in_float (limit : Z) (bits : N) :
  (0 ≤ limit)%Z → packable_in limit (PyFloat bits).
Proof.
  intros Hl. unfold packable_in. cbn [_pack].
  destruct (Z.ltb_spec limit 0); [lia|]. by eexists.
Qed.

Lemma dict_setitem_length (d : list (pyobj * pyobj)) (k v : pyobj) :
  (length (dict_setitem d k v) ≤ S (length d))%nat.
Proof.
  induction d as [|[k' v'] d IH]; simpl; [lia|].
  destruct (key_eq k' k); simpl; lia.
Qed.

Lemma dict_setitem_packable (d : list (pyobj * pyobj)) (k v : pyobj) :
  Forall (λ kv, packs kv.1 ∧ packs kv.2) d → packs k → packs v →
  Forall (λ kv, packs kv.1 ∧ packs kv.2) (dict_setitem d k v).
Proof.
  intros Hd Hk Hv. induction Hd as [|[k' v'] d [Hk' Hv'] Hd IH]; simpl.
  - by repeat constructor.
  - destruct (key_eq k' k); constructor; done.
Qed.

Lemma with_bytes_elim (P : head → Prop) (n : N) (b : bytes) (k : bytes → bytes → head) :
  P HNeedMore →
  (∀ p r, b = p ++ r → N.of_nat (length p) = n → P (k p r)) →
  P (with_bytes n b k).
Proof.
  intros Hn Hk. unfold with_bytes.
  destruct (split_at n b) as [[p r]|] eqn:E; [|done].
  apply split_at_spec in E as [-> <-]. by apply Hk.
Qed.

Lemma with_uint_elim (P : head → Prop) (w : N) (b : bytes) (k : N → bytes → head) :
  P HNeedMore →
  (∀ u r, u < 256 ^ w → P (k u r)) →
  P (with_uint w b k).
Proof.
  intros Hn Hk. unfold with_uint. apply (with_bytes_elim P); [done|].
  intros p r _ <-. apply Hk, be_uint_lt.
Qed.

Lemma read_raw_packable (n : N) (b : bytes) :
  n < 2 ^ 32 →
  head_packable (read_raw n b).
Proof.
  intros Hn. apply (with_bytes_elim head_packable); [done|]. intros p r _ Hp.
  intros limit Hl. apply packable_in_bytes; [done|lia].
Qed.

Lemma read_ext_packable (n : N) (b : bytes) :
  n < 2 ^ 32 →
  head_packable (read_ext n b).
Proof.
  intros Hn. apply (with_bytes_elim head_packable); [done|]. intros c r _ _.
  apply (with_bytes_elim head_packable); [done|]. intros p r' _ Hp.
  destruct (N.ltb_spec (be_uint c) 128); [|done].
  intros limit Hl. apply packable_in_ext; [done|lia..].
Qed.

Lemma to_signed_range (w u : N) :
  0 < w → w <= 8 → u < 256 ^ w → (- 2 ^ 63 <= to_signed w u < 2 ^ 64)%Z.
Proof.
  intros H0 H8 Hu. unfold to_signed.
  assert (w = 1 ∨ w = 2 ∨ w = 3 ∨ w = 4 ∨ w = 5 ∨ w = 6 ∨ w = 7 ∨ w = 8) as Hw by lia.
  destruct Hw as [->|[->|[->|[->|[->|[->|[->| ->]]]]]]];
    match goal with
    | |- context [N.ltb u ?c] =>
        let c' := eval vm_compute in c in change c with c'
    end;
    match goal with
    | |- context [Z.pow 2 (Z.of_N ?c)] =>
        let c' := eval vm_compute in (Z.pow 2 (Z.of_N c)) in
        change (Z.pow 2 (Z.of_N c)) with c'
    end;
    match type of Hu with
    | _ < ?c => let c' := eval vm_compute in c in change c with c' in Hu
    end;
    match goal with
    | |- context [N.ltb u ?c] => destruct (N.ltb_spec u c); lia
    end.
Qed.

Lemma read_head_packable (b : bytes) :
  head_packable (read_head b).
Proof.
  destruct b as [|x t]; [done|]. unfold read_head.
  pose proof (format_of_ok x) as Hok.
  assert (∀ w, w <= 4 → 256 ^ w <= 2 ^ 32) as H4.
  { intros w Hw. change (2 ^ 32) with (256 ^ 4). by apply pow256_le. }
  destruct (format_of (Byte.to_N x)) as [n|n|n|n|n| | |v|w|w| | |w|w|n|w|w|w];
    simpl in Hok; simpl read_body; unfold head_packable.
  - apply N.ltb_lt in Hok. intros limit Hl. apply packable_in_int; [done|lia].
  - apply andb_true_iff in Hok as [?%N.leb_le ?%N.ltb_lt].
    intros limit Hl. apply packable_in_int; [done|lia].
  - apply N.ltb_lt in Hok. lia.
  - apply N.ltb_lt in Hok. lia.
  - apply N.ltb_lt in Hok. apply read_raw_packable. lia.
  - intros limit Hl. by apply packable_in_None.
  - done.
  - intros limit Hl. by apply packable_in_bool.
  - apply N.leb_le in Hok. apply (with_uint_elim head_packable); [done|]. intros u r Hu.
    apply read_raw_packable. specialize (H4 _ Hok). lia.
  - apply N.leb_le in Hok. apply (with_uint_elim head_packable); [done|]. intros u r Hu.
    apply read_ext_packable. specialize (H4 _ Hok). lia.
  - apply (with_uint_elim head_packable); [done|]. intros u r _ limit Hl.
    by apply packable_in_float.
  - apply (with_uint_elim head_packable); [done|]. intros u r _ limit Hl.
    by apply packable_in_float.
  - apply andb_true_iff in Hok as [?%N.ltb_lt ?%N.leb_le].
    apply (with_uint_elim head_packable); [done|]. intros u r Hu limit Hl.
    apply packable_in_int; [done|].
    assert (256 ^ w <= 256 ^ 8) as Hp by (by apply pow256_le).
    change (256 ^ 8) with 18446744073709551616 in Hp. lia.
  - apply andb_true_iff in Hok as [?%N.ltb_lt ?%N.leb_le].
    apply (with_uint_elim head_packable); [done|]. intros u r Hu limit Hl.
    apply packable_in_int; [done|]. by apply to_signed_range.
  - apply N.leb_le in Hok. apply read_ext_packable. lia.
  - apply N.leb_le in Hok. apply (with_uint_elim head_packable); [done|]. intros u r Hu.
    apply read_raw_packable. specialize (H4 _ Hok). lia.
  - apply N.leb_le in Hok. apply (with_uint_elim head_packable); [done|]. intros u r Hu.
    specialize (H4 _ Hok). unfold head_packable. lia.
  - apply N.leb_le in Hok. apply (with_uint_elim head_packable); [done|]. intros u r Hu.
    specialize (H4 _ Hok). unfold head_packable. lia.
Qed.

(** Every object the unpacker delivers can be packed again, at a limit
    that is not below its nesting. *)
Lemma unpack_fuel_packable_all (f : nat) :
  (∀ b v r, unpack_fuel f b = Done v r → packs v)
  ∧ (∀ n acc b v r,
       N.of_nat (length acc) + n < 2 ^ 32 → Forall packs acc →
       unpack_array f n acc b = Done v r → packs v)
  ∧ (∀ n acc b v r,
       N.of_nat (length acc) + n < 2 ^ 32 →
       Forall (λ kv, packs kv.1 ∧ packs kv.2) acc →
       unpack_map f n acc b = Done v r → packs v).
Proof.
  induction f as [|f (IHv & IHa & IHm)].
  - split; [done|]. split; intros n acc b v r Hn Hacc.
    + destruct (N.eqb_spec n 0) as [->|Hn0].
      * rewrite unpack_array_0. intros [= <- _].
        apply packs_list; [rewrite length_rev; lia|by apply Forall_rev].
      * simpl. by destruct (N.eqb_spec n 0).
    + destruct (N.eqb_spec n 0) as [->|Hn0].
      * rewrite unpack_map_0. intros [= <- _]. apply packs_dict; [lia|done].
      * simpl. by destruct (N.eqb_spec n 0).
  - split; [|split].
    + intros b v r. rewrite unpack_fuel_S.
      pose proof (read_head_packable b) as Hh. unfold head_packable in Hh.
      destruct (read_head b) as [v0 r0|n r0|n r0| |e]; try done.
      * by intros [= <- _].
      * apply IHa; [simpl; lia|done].
      * apply IHm; [simpl; lia|done].
    + intros n acc b v r Hn Hacc.
      destruct (N.eqb_spec n 0) as [->|Hn0].
      * rewrite unpack_array_0. intros [= <- _].
        apply packs_list; [rewrite length_rev; lia|by apply Forall_rev].
      * rewrite unpack_array_S by done.
        destruct (unpack_fuel f b) as [v0 r0| |e] eqn:E; try done.
        apply IHa; [simpl length; lia|]. constructor; [by eapply IHv|done].
    + intros n acc b v r Hn Hacc.
      destruct (N.eqb_spec n 0) as [->|Hn0].
      * rewrite unpack_map_0. intros [= <- _]. apply packs_dict; [lia|done].
      * rewrite unpack_map_S by done.
        destruct (unpack_fuel f b) as [k0 r0| |e] eqn:E; try done.
        destruct (unpack_fuel f r0) as [v0 r1| |e] eqn:E'; try done.
        destruct (hashable k0); [|done].
        apply IHm.
        -- pose proof (dict_setitem_length acc k0 v0). lia.
        -- apply dict_setitem_packable; [done|by eapply IHv|by eapply IHv].
Qed.

Lemma unpack_packable (b : bytes) (v : pyobj) (r : bytes) :
  unpack b = Done v r → packs v.
Proof. apply (proj1 (unpack_fuel_packable_all _)). Qed.

(** Induction on objects, through the lists and the dicts. *)
Lemma pyobj_nested_ind (P : pyobj → Prop) :
  P PyNone → (∀ b, P (PyBool b)) → (∀ n, P (PyInt n)) → (∀ bits, P (PyFloat bits)) →
  (∀ b, P (PyBytes b)) → (∀ s, P (PyStr s)) →
  (∀ l, Forall P l → P (PyList l)) →
  (∀ l, Forall P l → P (PyTuple l)) →
  (∀ d, Forall (λ kv, P kv.1 ∧ P kv.2) d → P (PyDict d)) →
  (∀ code data, P (PyExt code data)) →
  (∀ v, P v → P (PyCoroReturn v)) → (∀ e, P (PyCoroRaise e)) → (∀ repr, P (PyObject repr)) →
  ∀ o, P o.
Proof.
  intros HNone HBool HInt HFloat HBytes HStr HList HTuple HDict HExt HCoro HRaise HObject.
  fix IH 1. intros [| | | | | |l|l|d| |v| |].
  - apply HNone.
  - apply HBool.
  - apply HInt.
  - apply HFloat.
  - apply HBytes.
  - apply HStr.
  - apply HList. induction l as [|x l IHl]; constructor; [apply IH|apply IHl].
  - apply HTuple. induction l as [|x l IHl]; constructor; [apply IH|apply IHl].
  - apply HDict. induction d as [|[k v] d IHd]; constructor; [|apply IHd].
    split; apply IH.
  - apply HExt.
  - apply HCoro, IH.
  - apply HRaise.
  - apply HObject.
Qed.

Lemma pack_items_raise (pack : pyobj → outcome bytes) (l : list pyobj) :
  Exists (λ x, ∃ e, pack x = Raise e) l → ∃ e, pack_items pack l = Raise e.
Proof.
  induction 1 as [x l [e He]|x l _ [e IH]]; cbn [pack_items].
  - rewrite He. by eexists.
  - destruct (pack x) as [bx|e']; [|by eexists]. bind_return. rewrite IH. by eexists.
Qed.

Lemma pack_pairs_raise (pack : pyobj → outcome bytes) (d : list (pyobj * pyobj)) :
  Exists (λ kv, (∃ e, pack kv.1 = Raise e) ∨ (∃ e, pack kv.2 = Raise e)) d →
  ∃ e, pack_pairs pack d = Raise e.
Proof.
  induction 1 as [[k v] d [[e He]|[e He]]|[k v] d _ [e IH]]; cbn [pack_pairs]; simpl in *.
  - rewrite He. by eexists.
  - destruct (pack k) as [bk|e']; [|by eexists]. bind_return. rewrite He. by eexists.
  - destruct (pack k) as [bk|e']; [|by eexists]. bind_return.
    destruct (pack v) as [bv|e']; [|by eexists]. bind_return. rewrite IH. by eexists.
Qed.

(** [_pack] does not get through an object that is nested deeper than
    the limit. *)
Lemma _pack_too_deep (o : pyobj) :
  ∀ limit, (limit < nesting o)%Z → ∃ e, _pack o limit = Raise e.
Proof.
  assert (∀ o limit, (limit < 0)%Z → ∃ e, _pack o limit = Raise e) as Hneg.
  { intros o' limit Hl%Z.ltb_lt. destruct o'; cbn [_pack]; rewrite Hl; by eexists. }
  induction o as [|b|n|bits|b|s|l IH|l IH|d IH|code bytes|v _|e|repr]
    using pyobj_nested_ind; intros limit Hn;
    try (apply Hneg; cbn [nesting] in Hn; lia).
  - destruct (Z.ltb_spec limit 0) as [|H0]; [by apply Hneg|].
    rewrite _pack_list by done.
    destruct (pack_array_header (N.of_nat (length l))) as [hdr|]; [|by eexists].
    bind_return.
    destruct (pack_items_raise (λ x, _pack x (limit - 1)%Z) l) as [e He];
      [|rewrite He; by eexists].
    apply Exists_exists.
    destruct (decide (Forall (λ x, (nesting x ≤ limit - 1)%Z) l)) as [Hall|Hex].
    + pose proof (proj2 (nesting_list l limit) (conj H0 Hall)). lia.
    + apply not_Forall_Exists in Hex; [|intros x; apply _]. apply Exists_exists in Hex.
      destruct Hex as (x & Hx & Hdeep). simpl in Hdeep. exists x. split; [done|].
      apply (proj1 (Forall_forall _ _) IH x Hx). lia.
  - destruct (Z.ltb_spec limit 0) as [|H0]; [by apply Hneg|].
    rewrite _pack_tuple, _pack_list by done.
    destruct (pack_array_header (N.of_nat (length l))) as [hdr|]; [|by eexists].
    bind_return.
    destruct (pack_items_raise (λ x, _pack x (limit - 1)%Z) l) as [e He];
      [|rewrite He; by eexists].
    apply Exists_exists.
    destruct (decide (Forall (λ x, (nesting x ≤ limit - 1)%Z) l)) as [Hall|Hex].
    + pose proof (proj2 (nesting_list l limit) (conj H0 Hall)).
      change (nesting (PyTuple l)) with (nesting (PyList l)) in Hn. lia.
    + apply not_Forall_Exists in Hex; [|intros x; apply _]. apply Exists_exists in Hex.
      destruct Hex as (x & Hx & Hdeep). simpl in Hdeep. exists x. split; [done|].
      apply (proj1 (Forall_forall _ _) IH x Hx). lia.
  - destruct (Z.ltb_spec limit 0) as [|H0]; [by apply Hneg|].
    rewrite _pack_dict by done.
    destruct (pack_map_header (N.of_nat (length d))) as [hdr|]; [|by eexists].
    bind_return.
    destruct (pack_pairs_raise (λ x, _pack x (limit - 1)%Z) d) as [e He];
      [|rewrite He; by eexists].
    apply Exists_exists.
    destruct (decide (Forall (λ kv : pyobj * pyobj,
                (nesting kv.1 ≤ limit - 1)%Z ∧ (nesting kv.2 ≤ limit - 1)%Z) d))
      as [Hall|Hex].
    + pose proof (proj2 (nesting_dict d limit) (conj H0 Hall)). lia.
    + apply not_Forall_Exists in Hex; [|intros x; apply _]. apply Exists_exists in Hex.
      destruct Hex as (kv & Hkv & Hdeep). simpl in Hdeep. exists kv. split; [done|].
      destruct (proj1 (Forall_forall _ _) IH kv Hkv) as [IHk IHv].
      destruct (decide (nesting kv.1 ≤ limit - 1)%Z) as [Hk|Hk].
      * right. apply IHv. lia.
      * left. apply IHk. lia.
Qed.

(** What [_pack] writes at one limit it writes at every higher one. *)
Lemma pack_items_impl (pack pack' : pyobj → outcome bytes) (l : list pyobj) (body : bytes) :
  Forall (λ x, ∀ data, pack x = Return data → pack' x = Return data) l →
  pack_items pack l = Return body → pack_items pack' l = Return body.
Proof.
  intros Hl. revert body. induction Hl as [|x l Hx _ IH]; intros body; [done|].
  cbn [pack_items]. destruct (pack x) as [bx|] eqn:Ex; [|done]. bind_return.
  rewrite (Hx bx eq_refl). bind_return.
  destruct (pack_items pack l) as [bt|]; [|done]. by rewrite (IH bt eq_refl).
Qed.

Lemma pack_pairs_impl (pack pack' : pyobj → outcome bytes) (d : list (pyobj * pyobj))
    (body : bytes) :
  Forall (λ kv, (∀ data, pack kv.1 = Return data → pack' kv.1 = Return data)
                ∧ (∀ data, pack kv.2 = Return data → pack' kv.2 = Return data)) d →
  pack_pairs pack d = Return body → pack_pairs pack' d = Return body.
Proof.
  intros Hd. revert body. induction Hd as [|[k v] d [Hk Hv] _ IH]; intros body; [done|].
  cbn [pack_pairs]. simpl in Hk, Hv.
  destruct (pack k) as [bk|] eqn:Ek; [|done]. bind_return. rewrite (Hk bk eq_refl). bind_return.
  destruct (pack v) as [bv|] eqn:Ev; [|done]. bind_return. rewrite (Hv bv eq_refl). bind_return.
  destruct (pack_pairs pack d) as [bt|]; [|done]. by rewrite (IH bt eq_refl).
Qed.

Lemma _pack_limit_change (o : pyobj) :
  ∀ limit limit' data, (nesting o ≤ limit')%Z →
    _pack o limit = Return data → _pack o limit' = Return data.
Proof.
  induction o as [|b|n|bits|b|s|l IH|l IH|d IH|code bytes|v _|e|repr]
    using pyobj_nested_ind; intros limit limit' data Hn Hp;
    pose proof (packable_in_nonneg limit _ (ex_intro _ data Hp)) as H0;
    try (cbn [_pack nesting] in *;
         destruct (Z.ltb_spec limit 0); [lia|]; destruct (Z.ltb_spec limit' 0); [lia|]; done).
  - apply nesting_list in Hn as [H0' Hn].
    rewrite _pack_list in Hp by lia. rewrite _pack_list by lia.
    destruct (pack_array_header (N.of_nat (length l))) as [hdr|]; [|done].
    destruct (pack_items (λ x, _pack x (limit - 1)%Z) l) as [body|] eqn:Eb; [|done].
    assert (pack_items (λ x, _pack x (limit' - 1)%Z) l = Return body) as ->; [|done].
    eapply pack_items_impl; [|exact Eb].
    apply Forall_forall. intros x Hx dx.
    apply (proj1 (Forall_forall _ _) IH x Hx), (proj1 (Forall_forall _ _) Hn x Hx).
  - change (nesting (PyTuple l)) with (nesting (PyList l)) in Hn.
    apply nesting_list in Hn as [H0' Hn].
    rewrite _pack_tuple, _pack_list in Hp by lia. rewrite _pack_tuple, _pack_list by lia.
    destruct (pack_array_header (N.of_nat (length l))) as [hdr|]; [|done].
    destruct (pack_items (λ x, _pack x (limit - 1)%Z) l) as [body|] eqn:Eb; [|done].
    assert (pack_items (λ x, _pack x (limit' - 1)%Z) l = Return body) as ->; [|done].
    eapply pack_items_impl; [|exact Eb].
    apply Forall_forall. intros x Hx dx.
    apply (proj1 (Forall_forall _ _) IH x Hx), (proj1 (Forall_forall _ _) Hn x Hx).
  - apply nesting_dict in Hn as [H0' Hn].
    rewrite _pack_dict in Hp by lia. rewrite _pack_dict by lia.
    destruct (pack_map_header (N.of_nat (length d))) as [hdr|]; [|done].
    destruct (pack_pairs (λ x, _pack x (limit - 1)%Z) d) as [body|] eqn:Eb; [|done].
    assert (pack_pairs (λ x, _pack x (limit' - 1)%Z) d = Return body) as ->; [|done].
    eapply pack_pairs_impl; [|exact Eb].
    apply Forall_forall. intros kv Hkv.
    destruct (proj1 (Forall_forall _ _) IH kv Hkv) as [IHk IHv].
    destruct (proj1 (Forall_forall _ _) Hn kv Hkv) as [Hnk Hnv].
    split; intros dx; [by apply IHk|by apply IHv].
Qed.

(** [_pack] gets through an object exactly when the limit is not below
    its nesting, unless something else stops it. *)
Lemma packable_in_nesting (limit : Z) (o : pyobj) :
  packable_in limit o → (nesting o ≤ limit)%Z.
Proof.
  intros [data Hd]. destruct (Z.le_gt_cases (nesting o) limit) as [|Hdeep]; [done|].
  destruct (_pack_too_deep o limit Hdeep) as [e He]. congruence.
Qed.

Lemma packable_in_packs (limit : Z) (o : pyobj) : packable_in limit o → packs o.
Proof. intros [data Hd] limit' Hn. exists data. by eapply _pack_limit_change. Qed.

Lemma packs_list_inv (l : list pyobj) : packs (PyList l) → Forall packs l.
Proof.
  intros Hl. specialize (Hl (nesting (PyList l)) ltac:(lia)).
  apply packable_in_list_inv in Hl.
  eapply Forall_impl; [exact Hl|]. intros x. apply packable_in_packs.
Qed.

End Packable.

(** C8.  Streaming: take complete encoded objects [ms] (each decodes
    to one object with nothing left) followed by an incomplete [tail],
    and cut their concatenation into chunks in any way.  Feeding the
    chunks one after the other delivers the same objects, in the same
    order, as feeding the concatenation at once, namely the objects of
    [ms], and in both cases [tail] stays in the buffer for the next feed. *)
Theorem chunked_feed_same_messages (ms : list bytes) (vs : list pyobj) (tail : bytes)
    (chunks : list bytes) :
  Forall2 (λ m v, unpack m = Done v []) ms vs →
  unpack tail = NeedMore →
  concat chunks = concat ms ++ tail →
  feed_chunks chunks [] [] = (tail, vs, None)
  ∧ feed_chunks [concat chunks] [] [] = feed_chunks chunks [] [].
Proof.
  intros Hms Htail Hcat.
  pose proof (for_each_collect_valid ms vs tail [] Hms Htail) as Hwhole.
  assert (feed_chunks chunks [] [] = (tail, vs, None)) as Hc.
  { apply feed_chunks_whole; [done|]. simpl. by rewrite Hcat. }
  split; [done|]. rewrite Hc.
  apply feed_chunks_whole; [done|]. simpl. by rewrite app_nil_r, Hcat.
Qed.

Lemma chunked_feed_same_messages_witness :
  feed_chunks [ [x94; x00]; [x07; xa3; "a"; "d"]; [];
                ["d"; x92; x01; x02; x93; x02; xa3; "a"; "d"; "d"; x92; x01; x02; x94] ]%byte
              [] []
  = ([x94],
     [ PyList [PyInt 0; PyInt 7; Demo.b "add"; PyList [PyInt 1; PyInt 2]];
       PyList [PyInt 2; Demo.b "add"; PyList [PyInt 1; PyInt 2]] ],
     None).
Proof.
  apply (chunked_feed_same_messages [Demo.request_bytes; Demo.notification_bytes]).
  - repeat constructor.
  - reflexivity.
  - reflexivity.
Defined.

(** ** The read loop *)

Section ReadLoop.
Context `{PyText} `{Tags}.

Lemma eq_int_inj (o : pyobj) (a b : Z) : eq_int o a = true → eq_int o b = true → a = b.
Proof.
  unfold eq_int. destruct (as_number o) as [[z| |]|]; simpl; try done.
  intros ->%Z.eqb_eq ->%Z.eqb_eq. done.
Qed.

Lemma message_of_tagged (msg : pyobj) (m : msgobj) :
  message_of msg = Return m → tag_matches m = true.
Proof.
  unfold message_of. destruct (as_sequence msg) as [[|tag items]|]; try done.
  destruct (eq_int tag TYPE_REQUEST) eqn:Er.
  - destruct items as [|? [|? [|? [|]]]]; try done. by intros [= <-].
  - destruct (eq_int tag TYPE_NOTIFICATION) eqn:En; [|done].
    destruct items as [|? [|? [|]]]; try done. by intros [= <-].
Qed.

Lemma for_each_invariant {St : Type} (P : St → Prop) (body : pyobj → St → outcome St)
    (b : bytes) (s : St) :
  (∀ msg s s', P s → body msg s = Return s' → P s') →
  P s → P (for_each body b s).1.2.
Proof.
  intros Hbody. remember (length b) as n eqn:Hn. revert b s Hn.
  induction (lt_wf n) as [n _ IH]; intros b s -> Hs.
  rewrite for_each_eq. destruct (unpack b) as [msg rest| |e] eqn:E; try done.
  destruct (body msg s) as [s1|e] eqn:Eb; [|done].
  apply unpack_shorter in E. eapply (IH _ E); [done|]. by eapply Hbody.
Qed.

Lemma for_each_dispatch_valid (good : list bytes) (objs : list msgobj) (rest : bytes)
    (spawned : list msgobj) :
  Forall2 encodes good objs →
  for_each dispatch (concat good ++ rest) spawned = for_each dispatch rest (spawned ++ objs).
Proof.
  intros Hgood. revert spawned.
  induction Hgood as [|m o good objs (msg & Hm & Ho) _ IH]; intros spawned.
  - by rewrite app_nil_r.
  - simpl. rewrite <- app_assoc, for_each_eq, unpack_app, Hm by (by rewrite Hm).
    simpl. unfold dispatch at 1. rewrite Ho. simpl. rewrite IH, <- app_assoc. done.
Qed.

Lemma read_loop_chunk (buf : bytes) (reads : list read_result) (buffer : bytes)
    (spawned : list msgobj) :
  buf ≠ [] →
  read_loop (Chunk buf :: reads) buffer spawned =
    match for_each dispatch (buffer ++ buf) spawned with
    | (buffer', spawned', None) => read_loop reads buffer' spawned'
    | (buffer', spawned', Some e) => (buffer', spawned', Caught e false)
    end.
Proof. by destruct buf. Qed.

(** Chunks that bring no exception leave the loop where one feed of
    their concatenation leaves it. *)
Lemma read_loop_chunks (chunks : list bytes) (later : list read_result) (buffer : bytes)
    (spawned : list msgobj) (buffer' : bytes) (spawned' : list msgobj) :
  Forall (λ c, c ≠ []) chunks →
  unpack buffer = NeedMore →
  for_each dispatch (buffer ++ concat chunks) spawned = (buffer', spawned', None) →
  read_loop (map Chunk chunks ++ later) buffer spawned = read_loop later buffer' spawned'.
Proof.
  intros Hne. revert buffer spawned.
  induction Hne as [|c cs Hc _ IH]; intros buffer spawned Hq.
  - simpl. rewrite app_nil_r, for_each_eq, Hq. by intros [= <- <-].
  - simpl concat. rewrite app_assoc. simpl map. rewrite <- app_comm_cons, read_loop_chunk by done.
    destruct (for_each dispatch (buffer ++ c) spawned) as [[b1 s1] [e|]] eqn:E.
    + by rewrite (for_each_app_raise _ _ _ _ _ _ _ E).
    + rewrite (for_each_app _ _ _ _ _ _ E). apply IH. by eapply for_each_quiescent.
Qed.

(** An exception comes with the chunk that completes the object it is
    about, whatever the chunks are, and the loop reads no further. *)
Lemma read_loop_chunks_raise (chunks : list bytes) (later : list read_result) (buffer : bytes)
    (spawned : list msgobj) (buffer' : bytes) (spawned' : list msgobj) (e : exc) :
  Forall (λ c, c ≠ []) chunks →
  unpack buffer = NeedMore →
  for_each dispatch (buffer ++ concat chunks) spawned = (buffer', spawned', Some e) →
  ∃ unread,
    read_loop (map Chunk chunks ++ later) buffer spawned = (unread, spawned', Caught e false).
Proof.
  intros Hne. revert buffer spawned.
  induction Hne as [|c cs Hc _ IH]; intros buffer spawned Hq.
  - simpl. by rewrite app_nil_r, for_each_eq, Hq.
  - simpl concat. rewrite app_assoc. simpl map. rewrite <- app_comm_cons, read_loop_chunk by done.
    destruct (for_each dispatch (buffer ++ c) spawned) as [[b1 s1] [e1|]] eqn:E.
    + rewrite (for_each_app_raise _ _ _ _ _ _ _ E). intros [= <- <- <-]. by eexists.
    + rewrite (for_each_app _ _ _ _ _ _ E). apply IH. by eapply for_each_quiescent.
Qed.

(** Messages, then an object that [message_of] refuses, then anything:
    [handler] starts the dispatch units of the messages before it, logs
    the exception, and closes the connection. *)
Lemma handler_aborts (good : list bytes) (objs : list msgobj) (bad : bytes) (msg : pyobj)
    (e : exc) (more : bytes) (chunks : list bytes) (later : list read_result)
    (writer : StreamWriter) :
  Forall2 encodes good objs →
  unpack bad = Done msg [] →
  message_of msg = Raise e →
  Forall (λ c, c ≠ []) chunks →
  concat chunks = concat good ++ bad ++ more →
  ∃ unread,
    handler (Return ()) (map Chunk chunks ++ later) writer =
      {| tasks := objs; logged := Some e; unread := unread; eof_fed := true;
         writer_after := close writer |}.
Proof.
  intros Hgood Hbad Hmsg Hne Hcat.
  assert (for_each dispatch ([] ++ concat chunks) [] = (more, objs, Some e)) as Hwhole.
  { simpl. rewrite Hcat, (for_each_dispatch_valid _ _ _ _ Hgood), for_each_eq.
    rewrite unpack_app, Hbad by (by rewrite Hbad). simpl.
    unfold dispatch. by rewrite Hmsg. }
  destruct (read_loop_chunks_raise _ later _ _ _ _ _ Hne unpack_nil Hwhole) as [unread Hr].
  exists unread. unfold handler. by rewrite Hr.
Qed.

(** Messages followed by an incomplete object, then the peer closes:
    [handler] starts one dispatch unit for each message, in the order of
    arrival, however the bytes are cut into reads. *)
Lemma handler_dispatches_in_order (good : list bytes) (objs : list msgobj) (tail : bytes)
    (chunks : list bytes) (writer : StreamWriter) :
  Forall2 encodes good objs →
  unpack tail = NeedMore →
  Forall (λ c, c ≠ []) chunks →
  concat chunks = concat good ++ tail →
  handler (Return ()) (map Chunk chunks) writer =
    {| tasks := objs; logged := None; unread := tail; eof_fed := true;
       writer_after := close writer |}.
Proof.
  intros Hgood Htail Hne Hcat.
  assert (for_each dispatch ([] ++ concat chunks) [] = (tail, objs, None)) as Hwhole.
  { simpl. rewrite Hcat, (for_each_dispatch_valid _ _ _ _ Hgood), for_each_eq, Htail. done. }
  pose proof (read_loop_chunks _ [] _ _ _ _ Hne unpack_nil Hwhole) as Hr.
  rewrite app_nil_r in Hr. unfold handler. by rewrite Hr.
Qed.

Lemma read_loop_tagged (reads : list read_result) (buffer : bytes) (spawned : list msgobj) :
  Forall (λ m, tag_matches m = true) spawned →
  Forall (λ m, tag_matches m = true) (read_loop reads buffer spawned).1.2.
Proof.
  revert buffer spawned. induction reads as [|[buf|e c] reads IH]; intros buffer spawned Hs;
    [done| |done].
  destruct buf as [|x buf]; [done|]. rewrite read_loop_chunk by done.
  pose proof (for_each_invariant (Forall (λ m, tag_matches m = true)) dispatch
                (buffer ++ x :: buf) spawned) as Hinv.
  destruct (for_each dispatch (buffer ++ x :: buf) spawned) as [[b1 s1] [e1|]];
    simpl in Hinv; [apply Hinv|apply IH, Hinv]; try done;
    intros msg s s' Hs0; unfold dispatch;
    (destruct (message_of msg) as [m|] eqn:Em; [|done]); intros [= <-];
    (apply Forall_app; split; [done|]); repeat constructor; by eapply message_of_tagged.
Qed.

End ReadLoop.

(** C7.  An object that is complete on the wire but whose tag is
    unknown, or whose length is wrong for its tag, is fatal to the
    connection, however the bytes are cut into reads: the dispatch units
    of the messages before it were started, the exception is logged,
    nothing that comes after it is read or dispatched, and [handler]
    ends by closing the connection.  [handler] itself returns, so
    nothing reaches the event loop or the other connections. *)
Theorem malformed_message_is_fatal `{PyText} `{Tags}
    (good : list bytes) (objs : list msgobj) (bad : bytes) (msg tag : pyobj)
    (items : list pyobj) (more : bytes) (chunks : list bytes) (later : list read_result)
    (writer : StreamWriter) :
  Forall2 encodes good objs →
  unpack bad = Done msg [] →
  as_sequence msg = Some (tag :: items) →
  (eq_int tag TYPE_REQUEST = true ∧ length items ≠ 3%nat)
  ∨ (eq_int tag TYPE_NOTIFICATION = true ∧ length items ≠ 2%nat)
  ∨ (eq_int tag TYPE_REQUEST = false ∧ eq_int tag TYPE_NOTIFICATION = false) →
  Forall (λ c, c ≠ []) chunks →
  concat chunks = concat good ++ bad ++ more →
  let h := handler (Return ()) (map Chunk chunks ++ later) writer in
  tasks h = objs
  ∧ (logged h = Some (AssertionError "malformed request message")
     ∨ logged h = Some (AssertionError "malformed notification message")
     ∨ logged h = Some (RuntimeError ("invalid message type " +:+ format_obj tag)))
  ∧ eof_fed h = true
  ∧ closed (writer_after h) = true
  ∧ written (writer_after h) = written writer.
Proof.
  intros Hgood Hbad Hseq Hcase Hne Hcat.
  assert (∃ e, message_of msg = Raise e
               ∧ (e = AssertionError "malformed request message"
                  ∨ e = AssertionError "malformed notification message"
                  ∨ e = RuntimeError ("invalid message type " +:+ format_obj tag)))
    as (e & He & Hkind).
  { unfold message_of. rewrite Hseq.
    destruct Hcase as [[Hr Hl]|[[Hn Hl]|[Hr Hn]]].
    - rewrite Hr. destruct items as [|? [|? [|? [|]]]]; try done; eauto.
    - destruct (eq_int tag TYPE_REQUEST) eqn:Hr.
      + pose proof (eq_int_inj _ _ _ Hr Hn). pose proof tags_distinct. tauto.
      + rewrite Hn. destruct items as [|? [|? [|]]]; try done; eauto.
    - rewrite Hr, Hn. eauto. }
  destruct (handler_aborts _ _ _ _ _ _ _ later writer Hgood Hbad He Hne Hcat) as [u ->].
  simpl. repeat split; [|done..].
  destruct Hkind as [->|[->| ->]]; auto.
Qed.

(** A request of three elements, cut in the middle, after a good one. *)
Lemma malformed_message_is_fatal_witness :
  let h := handler (Return ())
             (map Chunk [ Demo.request_bytes ++ [x93; x00]%byte;
                          [x07; xa3; "a"; "d"; "d"; x00]%byte ]
              ++ [Chunk Demo.request_bytes])
             Demo.writer in
  tasks h = [Demo.add_request]
  ∧ (logged h = Some (AssertionError "malformed request message")
     ∨ logged h = Some (AssertionError "malformed notification message")
     ∨ logged h = Some (RuntimeError ("invalid message type " +:+ format_obj (PyInt 0))))
  ∧ eof_fed h = true
  ∧ closed (writer_after h) = true
  ∧ written (writer_after h) = written Demo.writer.
Proof.
  apply (malformed_message_is_fatal [Demo.request_bytes] [Demo.add_request]
           [x93; x00; x07; xa3; "a"; "d"; "d"]%byte
           (PyList [PyInt 0; PyInt 7; Demo.b "add"]) (PyInt 0) [PyInt 7; Demo.b "add"]
           [x00]).
  - constructor; [|constructor]. eexists. split; reflexivity.
  - reflexivity.
  - reflexivity.
  - left. split; [reflexivity|]. simpl. lia.
  - repeat constructor; discriminate.
  - reflexivity.
Defined.

(** C10.  [handler] starts a dispatch unit only for an object whose tag
    is that of a request or of a notification.  An object with any other
    tag, the tag of a response among them, is an invalid message type:
    no dispatch unit is started for it, [RuntimeError] is logged and the
    connection is closed; the server has no path that takes a response
    in. *)
Theorem only_requests_and_notifications_dispatched `{PyText} `{Tags}
    (good : list bytes) (objs : list msgobj) (bad : bytes) (msg tag : pyobj)
    (items : list pyobj) (more : bytes) (chunks : list bytes) (later : list read_result)
    (writer : StreamWriter) :
  Forall2 encodes good objs →
  unpack bad = Done msg [] →
  as_sequence msg = Some (tag :: items) →
  tag = PyInt TYPE_RESPONSE
  ∨ (eq_int tag TYPE_REQUEST = false ∧ eq_int tag TYPE_NOTIFICATION = false) →
  Forall (λ c, c ≠ []) chunks →
  concat chunks = concat good ++ bad ++ more →
  (∀ nodelay reads w, Forall (λ m, tag_matches m = true) (tasks (handler nodelay reads w)))
  ∧ ∃ unread,
      handler (Return ()) (map Chunk chunks ++ later) writer =
        {| tasks := objs;
           logged := Some (RuntimeError ("invalid message type " +:+ format_obj tag));
           unread := unread;
           eof_fed := true;
           writer_after := close writer |}.
Proof.
  intros Hgood Hbad Hseq Htag Hne Hcat. split.
  - intros nodelay reads w. unfold handler. destruct nodelay as [[]|e]; [|done].
    pose proof (read_loop_tagged reads [] [] (Forall_nil_2 _)) as Ht.
    by destruct (read_loop reads [] []) as [[? ?] ?].
  - assert (eq_int tag TYPE_REQUEST = false ∧ eq_int tag TYPE_NOTIFICATION = false)
      as [Hr Hn].
    { destruct Htag as [->|?]; [|done]. pose proof tags_distinct as (? & ? & ?).
      unfold eq_int. simpl. split; apply Z.eqb_neq; congruence. }
    eapply handler_aborts; try done.
    unfold message_of. by rewrite Hseq, Hr, Hn.
Qed.

(** A response between two requests. *)
Lemma only_requests_and_notifications_dispatched_witness :
  ∃ unread,
    handler (Return ())
      (map Chunk [Demo.request_bytes ++ Demo.response_bytes ++ Demo.request_bytes] ++ [])
      Demo.writer =
      {| tasks := [Demo.add_request];
         logged := Some (RuntimeError ("invalid message type " +:+ format_obj (PyInt 1)));
         unread := unread;
         eof_fed := true;
         writer_after := close Demo.writer |}.
Proof.
  apply (only_requests_and_notifications_dispatched
           [Demo.request_bytes] [Demo.add_request] Demo.response_bytes
           (PyList [PyInt 1; PyInt 7; PyNone; PyInt 3]) (PyInt 1) [PyInt 7; PyNone; PyInt 3]
           Demo.request_bytes).
  - constructor; [|constructor]. eexists. split; reflexivity.
  - reflexivity.
  - reflexivity.
  - left. reflexivity.
  - repeat constructor; discriminate.
  - reflexivity.
Defined.

(** ** Dispatch units *)

Section Process.
Context `{PyText} `{Tags}.

Lemma length_list_byte_of_string (s : string) :
  length (list_byte_of_string s) = String.length s.
Proof.
  unfold list_byte_of_string. rewrite length_map.
  induction s as [|c s IH]; simpl; [done|by rewrite IH].
Qed.

Lemma packable_str (limit : Z) (s : string) :
  (0 ≤ limit)%Z → N.of_nat (String.length s) < 2 ^ 32 → packable_in limit (PyStr s).
Proof.
  intros Hl Hs. unfold packable_in. cbn [_pack]. destruct (Z.ltb_spec limit 0); [lia|].
  apply pack_raw_ok. unfold str_encode. by rewrite length_list_byte_of_string.
Qed.

Lemma packable_exc_info (limit : Z) (e : exc) :
  (1 ≤ limit)%Z → short_text e → packable_in limit (exc_info e).
Proof.
  intros Hl [Ht Hv]. apply packable_in_list; [lia|simpl; lia|].
  repeat constructor; apply packable_str; (lia || done).
Qed.

Lemma packable_tag (limit : Z) : (0 ≤ limit)%Z → packable_in limit (PyInt TYPE_RESPONSE).
Proof. intros Hl. apply packable_in_int; [done|]. pose proof tags_small. lia. Qed.

(** Nothing but its nesting can keep the id of a request that came off
    the wire from being packed. *)
Lemma received_mid_packable (type mid method params : pyobj) :
  received (Request type mid method params) → packs mid.
Proof.
  intros (buffer & msg & rest & Hu & Hm). apply unpack_packable in Hu.
  unfold message_of in Hm.
  assert (∀ l, packs (PyList l) → as_sequence msg = Some l → packs mid) as Hl.
  { intros l Hl%packs_list_inv Hs. rewrite Hs in Hm.
    destruct l as [|tag items]; [done|].
    destruct (eq_int tag TYPE_REQUEST).
    - destruct items as [|? [|? [|? [|]]]]; try done. injection Hm as -> -> -> ->.
      by inversion Hl as [|? ? ? Hl']; inversion Hl'.
    - destruct (eq_int tag TYPE_NOTIFICATION); [|done].
      by destruct items as [|? [|? [|]]]. }
  destruct msg; try done.
  - by eapply Hl.
  - by eapply (Hl l).
  - simpl in Hm. destruct (eq_int (PyInt code) TYPE_REQUEST); [done|].
    by destruct (eq_int (PyInt code) TYPE_NOTIFICATION).
Qed.

(** The reply is a list: its elements are packed one level down. *)
Lemma packable_reply (mid error result : pyobj) :
  packable_in (DEFAULT_RECURSE_LIMIT - 1) mid →
  packable_in (DEFAULT_RECURSE_LIMIT - 1) error →
  packable_in (DEFAULT_RECURSE_LIMIT - 1) result →
  packable (reply_of mid error result).
Proof.
  intros Hm He Hr. apply packable_in_list; [done|simpl; lia|].
  repeat constructor; try done. by apply packable_tag.
Qed.

(** A reply that holds a coroutine object cannot be packed. *)
Lemma reply_with_coroutine (mid error : pyobj) (e : exc) :
  ∃ e', packb (reply_of mid error (PyCoroRaise e)) = Raise e'.
Proof.
  unfold packb, reply_of. rewrite _pack_list by done.
  destruct (pack_array_header _) as [hdr|]; [|by eexists]. bind_return.
  cbn [pack_items].
  destruct (_pack (PyInt TYPE_RESPONSE) _) as [?|]; [|by eexists]. bind_return.
  destruct (_pack mid _) as [?|]; [|by eexists]. bind_return.
  destruct (_pack error _) as [?|]; [|by eexists]. bind_return.
  cbn [_pack]. destruct (_ <? _)%Z; by eexists.
Qed.

(** The packer stops at the first element it refuses. *)
Lemma reply_with_refused_result (mid error result : pyobj) :
  ¬ packable_in (DEFAULT_RECURSE_LIMIT - 1) result →
  ∃ e', packb (reply_of mid error result) = Raise e'.
Proof.
  intros Hr. destruct (packb (reply_of mid error result)) as [data|e'] eqn:Hp; [|by eexists].
  destruct Hr. assert (packable_in DEFAULT_RECURSE_LIMIT (PyList [PyInt TYPE_RESPONSE; mid; error; result]))
    as Hl%packable_in_list_inv by (by exists data).
  inversion Hl as [|? ? _ Hl1]. inversion Hl1 as [|? ? _ Hl2].
  inversion Hl2 as [|? ? _ Hl3]. by inversion Hl3.
Qed.

Lemma reply_with_refused_result_exact (mid error result : pyobj) (e : exc) :
  packable_in (DEFAULT_RECURSE_LIMIT - 1) mid →
  packable_in (DEFAULT_RECURSE_LIMIT - 1) error →
  _pack result (DEFAULT_RECURSE_LIMIT - 1) = Raise e →
  packb (reply_of mid error result) = Raise e.
Proof.
  intros [bm Hm] [be He] Hr. destruct (packable_tag (DEFAULT_RECURSE_LIMIT - 1)) as [bt Ht]; [done|].
  unfold packb, reply_of. rewrite _pack_list by done.
  destruct (pack_array_header_ok (N.of_nat (length [PyInt TYPE_RESPONSE; mid; error; result])))
    as [hdr ->]; [done|].
  bind_return. cbn [pack_items].
  rewrite Ht. bind_return. rewrite Hm. bind_return. rewrite He. bind_return.
  by rewrite Hr.
Qed.


(** An exception raised before the function returns (resolution,
    binding, the call itself) is answered: the reply carries the id, the
    two texts of the exception, and no result.  The id is nested less
    deep than the packer goes. *)
Lemma process_raise (self : Server) (type mid method params : pyobj) (writer : StreamWriter)
    (drain : outcome unit) (e : exc) :
  received (Request type mid method params) →
  (nesting mid < DEFAULT_RECURSE_LIMIT)%Z →
  _execute_quest self (Request type mid method params) writer = Raise e →
  short_text e →
  ∃ reply,
    packb (reply_of mid (exc_info e) PyNone) = Return reply
    ∧ process self (Request type mid method params) writer drain
      = (write writer reply, escaped drain).
Proof.
  intros Hrecv Hmid Hraise Hshort.
  destruct (packable_reply mid (exc_info e) PyNone) as [reply Hreply].
  - apply (received_mid_packable _ _ _ _ Hrecv). lia.
  - by apply packable_exc_info.
  - by apply packable_in_None.
  - change (packb (reply_of mid (exc_info e) PyNone) = Return reply) in Hreply.
    exists reply. split; [done|]. unfold process, run_handler. by rewrite Hraise, Hreply.
Qed.

(** A result that is not a coroutine is answered when it can be
    packed as an element of the reply. *)
Lemma process_return (self : Server) (type mid method params : pyobj) (writer : StreamWriter)
    (drain : outcome unit) (result : pyobj) :
  received (Request type mid method params) →
  (nesting mid < DEFAULT_RECURSE_LIMIT)%Z →
  _execute_quest self (Request type mid method params) writer = Return result →
  iscoroutine result = false →
  packable_in (DEFAULT_RECURSE_LIMIT - 1) result →
  ∃ reply,
    packb (reply_of mid PyNone result) = Return reply
    ∧ process self (Request type mid method params) writer drain
      = (write writer reply, escaped drain).
Proof.
  intros Hrecv Hmid Hret Hco Hres.
  destruct (packable_reply mid PyNone result) as [reply Hreply].
  - apply (received_mid_packable _ _ _ _ Hrecv). lia.
  - by apply packable_in_None.
  - done.
  - change (packb (reply_of mid PyNone result) = Return reply) in Hreply.
    exists reply. split; [done|]. unfold process, run_handler. by rewrite Hret, Hco, Hreply.
Qed.

(** So is the result of a coroutine that completes. *)
Lemma process_await (self : Server) (type mid method params : pyobj) (writer : StreamWriter)
    (drain : outcome unit) (result : pyobj) :
  received (Request type mid method params) →
  (nesting mid < DEFAULT_RECURSE_LIMIT)%Z →
  _execute_quest self (Request type mid method params) writer = Return (PyCoroReturn result) →
  packable_in (DEFAULT_RECURSE_LIMIT - 1) result →
  ∃ reply,
    packb (reply_of mid PyNone result) = Return reply
    ∧ process self (Request type mid method params) writer drain
      = (write writer reply, escaped drain).
Proof.
  intros Hrecv Hmid Hret Hres.
  destruct (packable_reply mid PyNone result) as [reply Hreply].
  - apply (received_mid_packable _ _ _ _ Hrecv). lia.
  - by apply packable_in_None.
  - done.
  - change (packb (reply_of mid PyNone result) = Return reply) in Hreply.
    exists reply. split; [done|]. unfold process, run_handler. rewrite Hret.
    cbn [iscoroutine await]. by rewrite Hreply.
Qed.

(** [process] reads the writer only through [get_extra_info]: what a
    dispatch unit writes does not depend on what was written before. *)
Lemma process_frame (self : Server) (msg : msgobj) (w1 w2 : StreamWriter)
    (drain : outcome unit) :
  get_extra_info w1 = get_extra_info w2 →
  ∃ out e,
    process self msg w1 drain =
      ({| get_extra_info := get_extra_info w1; written := written w1 ++ out;
          closed := closed w1 |}, e)
    ∧ process self msg w2 drain =
      ({| get_extra_info := get_extra_info w2; written := written w2 ++ out;
          closed := closed w2 |}, e).
Proof.
  intros Hg.
  assert (_execute_quest self msg w1 = _execute_quest self msg w2) as Hq.
  { unfold _execute_quest. by rewrite Hg. }
  unfold process, run_handler. rewrite Hq.
  destruct (run_handler self msg w2) as [result error] eqn:Hr.
  unfold run_handler in Hr. rewrite Hr.
  destruct msg as [type mid method params|type method params].
  - destruct (packb (reply_of mid error result)) as [reply|e].
    + exists [reply], (escaped drain). done.
    + exists [], (Some e). rewrite !app_nil_r. by destruct w1, w2.
  - exists [], None. rewrite !app_nil_r. by destruct w1, w2.
Qed.

End Process.

(** C4.  A notification is never answered: whatever the method does
    (return, raise, or not resolve at all), [process] writes nothing and
    leaves the writer as it found it. *)
Theorem notification_writes_nothing `{PyText} `{Tags}
    (self : Server) (type method params : pyobj) (writer : StreamWriter)
    (drain : outcome unit) :
  process self (Notification type method params) writer drain = (writer, None).
Proof.
  unfold process.
  by destruct (run_handler self (Notification type method params) writer).
Qed.

(** C1, at an input where it fails.  A request for a coroutine method
    that raises when awaited: [error] gets the two texts, but [result]
    still holds the coroutine object, [msgpack.packb] refuses the reply
    with [TypeError], and no response is written for the request. *)
Theorem raising_coroutine_request_unanswered :
  _execute_quest Demo.server (Request (PyInt 0) (PyInt 7) (Demo.b "fail") (PyList []))
    Demo.writer = Return (PyCoroRaise (ValueError "no"))
  ∧ ∀ drain,
      process Demo.server (Request (PyInt 0) (PyInt 7) (Demo.b "fail") (PyList []))
        Demo.writer drain
      = (Demo.writer, Some (TypeError "can't serialize <generator object>")).
Proof. split; [reflexivity|]. intros drain. reflexivity. Qed.

(** C2, where it fails.  When the function returns a coroutine and
    awaiting it raises, the exception is caught, but the reply cannot be
    packed: [process] ends with an exception of its own and writes
    nothing.  (Exceptions raised before the function returns are
    answered: [process_raise].) *)
Theorem awaited_error_gets_no_response `{PyText} `{Tags}
    (self : Server) (type mid method params : pyobj) (writer : StreamWriter)
    (drain : outcome unit) (e : exc) :
  _execute_quest self (Request type mid method params) writer = Return (PyCoroRaise e) →
  ∃ e', process self (Request type mid method params) writer drain = (writer, Some e').
Proof.
  intros Hq. unfold process, run_handler. rewrite Hq. cbn [iscoroutine await].
  destruct (reply_with_coroutine mid (exc_info e) e) as [e' ->]. by exists e'.
Qed.

Lemma awaited_error_gets_no_response_witness :
  ∃ e', process Demo.server (Request (PyInt 0) (PyInt 7) (Demo.b "fail") (PyList []))
          Demo.writer (Return ()) = (Demo.writer, Some e').
Proof.
  apply (awaited_error_gets_no_response Demo.server (PyInt 0) (PyInt 7) (Demo.b "fail")
           (PyList []) Demo.writer (Return ()) (ValueError "no")).
  reflexivity.
Defined.

(** C9, at an input where it fails.  Two requests arrive on one
    connection, in one read: [fail()] with id 1, a coroutine method that
    raises when awaited, and [add(1, 2)] with id 2.  [handler] starts a
    dispatch unit for each, in the order of arrival.  Whichever of the
    two units gets to its end first, the connection carries one chunk
    only, the response [[1, 2, None, 3]] to the second request: the
    request with id 1 is never answered, and its unit ends with the
    [TypeError] of [msgpack.packb]. *)
Theorem concurrent_requests_not_all_answered :
  let fail_request := Request (PyInt 0) (PyInt 1) (Demo.b "fail") (PyList []) in
  let add_request := Request (PyInt 0) (PyInt 2) (Demo.b "add") (PyList [PyInt 1; PyInt 2]) in
  let answer := [x94; x01; x02; xc0; x03]%byte in
  handler (Return ())
    [Chunk [x94; x00; x01; xa4; "f"; "a"; "i"; "l"; x90;
            x94; x00; x02; xa3; "a"; "d"; "d"; x92; x01; x02]%byte]
    Demo.writer
  = {| tasks := [fail_request; add_request]; logged := None; unread := [];
       eof_fed := true; writer_after := close Demo.writer |}
  ∧ unpack answer = Done (PyList [PyInt TYPE_RESPONSE; PyInt 2; PyNone; PyInt 3]) []
  ∧ run_tasks Demo.server [fail_request; add_request] Demo.writer (Return ())
    = ({| get_extra_info := get_extra_info Demo.writer; written := [answer];
          closed := false |},
       [Some (TypeError "can't serialize <generator object>"); None])
  ∧ run_tasks Demo.server [add_request; fail_request] Demo.writer (Return ())
    = ({| get_extra_info := get_extra_info Demo.writer; written := [answer];
          closed := false |},
       [None; Some (TypeError "can't serialize <generator object>")]).
Proof. repeat split; reflexivity. Qed.

(** ** The scenarios of the specification, run on the small application *)

(** [[0, 7, b'add', [1, 2]]] is answered with [[1, 7, None, 3]]. *)
Example call_is_answered :
  tasks (handler (Return ()) [Chunk Demo.request_bytes] Demo.writer) = [Demo.add_request]
  ∧ process Demo.server Demo.add_request Demo.writer (Return ())
    = (write Demo.writer Demo.response_bytes, None)
  ∧ unpack Demo.response_bytes = Done (PyList [PyInt 1; PyInt 7; PyNone; PyInt 3]) [].
Proof. repeat split; reflexivity. Qed.

(** A coroutine method that completes: [echo('hi')] gives [['hi']]. *)
Example coroutine_call_is_answered :
  ∃ reply,
    process Demo.server (Request (PyInt 0) (PyInt 8) (Demo.b "echo") (PyList [Demo.b "hi"]))
      Demo.writer (Return ()) = (write Demo.writer reply, None)
    ∧ unpack reply = Done (PyList [PyInt 1; PyInt 8; PyNone; PyList [Demo.b "hi"]]) [].
Proof. eexists. split; reflexivity. Qed.

(** An unregistered method is answered with the two texts of the
    [KeyError] and no result. *)
Example unknown_method_is_answered :
  ∃ reply,
    process Demo.server (Request (PyInt 0) (PyInt 9) (Demo.b "nope") (PyList []))
      Demo.writer (Return ()) = (write Demo.writer reply, None)
    ∧ unpack reply
      = Done (PyList [PyInt 1; PyInt 9;
                      PyList [Demo.b "<class 'KeyError'>"; Demo.b "'nope'"]; PyNone]) [].
Proof. eexists. split; reflexivity. Qed.

(** A notification is dispatched and not answered. *)
Example notification_is_silent :
  tasks (handler (Return ()) [Chunk Demo.notification_bytes] Demo.writer)
    = [Demo.add_notification]
  ∧ process Demo.server Demo.add_notification Demo.writer (Return ()) = (Demo.writer, None).
Proof. split; reflexivity. Qed.

Section Resolution.
Context `{PyText} `{Tags}.

Lemma bytes_startswith_nul (b : bytes) :
  bytes_startswith b [x00] = true → ∃ b', b = x00 :: b'.
Proof.
  destruct b as [|x b']; [done|]. simpl.
  destruct (bool_decide_reflect (x = x00)) as [->|]; [by eexists|done].
Qed.

(** Well-formed UTF-8 does not start with a continuation byte. *)
Lemma drop_continuation_valid (b : bytes) :
  utf8_valid (length b) b = true →
  drop_continuation (string_of_list_byte b) = string_of_list_byte b.
Proof.
  destruct b as [|x t]; [done|]. simpl length.
  destruct x; cbn; try done.
Qed.

(** A method name that is neither the reflection command nor the name of
    a registered function does not resolve. *)
Lemma unknown_method_raises (self : Server) (msg : msgobj) :
  method msg ≠ PyBytes (x00 :: list_byte_of_string "reflection") →
  (∀ name, is_Some (_app_funcs self !! name) → method msg ≠ PyBytes (str_encode name)) →
  ∃ e, _get_exec_func self msg = Raise e.
Proof.
  intros Hctl Happ. unfold _get_exec_func.
  destruct (method msg) as [| | | |b| | | | | | | |] eqn:Em; try (by eexists).
  unfold startswith. bind_return.
  destruct (bytes_startswith b [x00]) eqn:Es.
  - apply bytes_startswith_nul in Es as [b' ->].
    unfold _get_control_command, decode, bytes_decode.
    destruct (utf8_valid (length (x00 :: b')) (x00 :: b')) eqn:Ev; [|by eexists].
    change (utf8_valid (length (x00 :: b')) (x00 :: b')) with (utf8_valid (length b') b') in Ev.
    bind_return.
    change (str_tail (string_of_list_byte (x00 :: b')))
      with (drop_continuation (string_of_list_byte b')).
    rewrite drop_continuation_valid by done.
    destruct (bool_decide_reflect (string_of_list_byte b' = "reflection")) as [Hr|]; [|by eexists].
    apply (f_equal list_byte_of_string) in Hr.
    rewrite list_byte_of_string_of_list_byte in Hr. by subst b'.
  - unfold decode, bytes_decode.
    destruct (utf8_valid (length b) b); [|by eexists].
    bind_return.
    destruct (_app_funcs self !! string_of_list_byte b) as [fd|] eqn:El; [|by eexists].
    exfalso. apply (Happ (string_of_list_byte b)); [by eexists|].
    unfold str_encode. by rewrite list_byte_of_string_of_list_byte.
Qed.

End Resolution.

(** C3.  A request, off the wire, whose method name is neither that of
    a registered function nor the reflection command: resolution raises,
    and [process] writes one response, with the id of the request, a
    non-null error and a null result.  The id is nested less deep than
    the packer goes (an integer id is not nested at all), and the texts
    of the exception are of a length that the wire format holds.  The
    connection stays open, the task ends as [drain] does, and what any
    other dispatch unit writes is the same as without this one: the
    request fails in the resolution, before any function of the
    application is called. *)
Theorem unknown_method_error_response `{PyText} `{Tags}
    (self : Server) (type mid method params : pyobj) (writer : StreamWriter)
    (drain : outcome unit) :
  let request := Request type mid method params in
  received request →
  (nesting mid < DEFAULT_RECURSE_LIMIT)%Z →
  method ≠ PyBytes (x00 :: list_byte_of_string "reflection") →
  (∀ name, is_Some (_app_funcs self !! name) → method ≠ PyBytes (str_encode name)) →
  ∃ e,
    _get_exec_func self request = Raise e
    ∧ (short_text e →
       ∃ reply,
         packb (PyList [PyInt TYPE_RESPONSE; mid; exc_info e; PyNone]) = Return reply
         ∧ exc_info e ≠ PyNone
         ∧ process self request writer drain
           = ({| get_extra_info := get_extra_info writer;
                 written := written writer ++ [reply];
                 closed := closed writer |}, escaped drain)
         ∧ ∀ sibling drain', ∃ out e',
             process self sibling writer drain'
             = ({| get_extra_info := get_extra_info writer;
                   written := written writer ++ out;
                   closed := closed writer |}, e')
             ∧ process self sibling (process self request writer drain).1 drain'
               = ({| get_extra_info := get_extra_info writer;
                     written := written writer ++ [reply] ++ out;
                     closed := closed writer |}, e')).
Proof.
  intros request Hrecv Hmid Hctl Happ.
  destruct (unknown_method_raises self request Hctl Happ) as [e He].
  exists e. split; [done|]. intros Hshort.
  assert (_execute_quest self request writer = Raise e) as Hq.
  { unfold _execute_quest. by rewrite He. }
  destruct (process_raise self type mid method params writer drain e Hrecv Hmid Hq Hshort)
    as (reply & Hreply & Hproc).
  exists reply. fold request in Hproc. rewrite Hproc. cbn [fst].
  repeat split; try done.
  intros sibling drain'.
  destruct (process_frame self sibling writer (write writer reply) drain' eq_refl)
    as (out & e' & Ha & Hb).
  rewrite Ha, Hb. exists out, e'. cbn [write get_extra_info written closed].
  by rewrite <- app_assoc.
Qed.

(** [[0, 7, b'nope', []]]: the reply, unpacked again, is
    [[1, 7, [b"<class 'KeyError'>", b"'nope'"], None]]. *)
Lemma unknown_method_error_response_witness :
  ∃ reply,
    process Demo.server (Request (PyInt 0) (PyInt 7) (Demo.b "nope") (PyList []))
      Demo.writer (Return ())
    = ({| get_extra_info := get_extra_info Demo.writer;
          written := written Demo.writer ++ [reply];
          closed := closed Demo.writer |}, None)
    ∧ unpack reply
      = Done (PyList [PyInt 1; PyInt 7;
                      PyList [Demo.b "<class 'KeyError'>"; Demo.b "'nope'"]; PyNone]) [].
Proof.
  destruct (unknown_method_error_response Demo.server (PyInt 0) (PyInt 7) (Demo.b "nope")
              (PyList []) Demo.writer (Return ())) as (e & He & Hreply).
  - exists [x94; x00; x07; xa4; "n"; "o"; "p"; "e"; x90]%byte,
      (PyList [PyInt 0; PyInt 7; Demo.b "nope"; PyList []]), [].
    split; reflexivity.
  - reflexivity.
  - discriminate.
  - intros name [fd Hfd] [= Hname%(f_equal string_of_list_byte)].
    unfold str_encode in Hname. rewrite !string_of_list_byte_of_string in Hname.
    subst name. vm_compute in Hfd. discriminate.
  - vm_compute in He. injection He as <-.
    destruct Hreply as (reply & Hpack & _ & Hproc & _).
    + split; vm_compute; reflexivity.
    + exists reply. split; [exact Hproc|].
      vm_compute in Hpack. injection Hpack as <-. reflexivity.
Defined.

(** ** The registry and the reflection command *)

Section Registry.
Context `{PyText} `{Tags}.

Lemma _get_app_funcs_lookup (app : application) (name : string) (fd : FuncDef) :
  _get_app_funcs app !! name = Some fd →
  ∃ f parameters,
    (name, Callable f parameters) ∈ app
    ∧ str_startswith name "_" = false
    ∧ fd = {| func := f; params := Some parameters;
              with_context := first_is_context parameters |}.
Proof.
  unfold _get_app_funcs.
  assert (∀ acc : gmap string FuncDef,
            foldl (λ funcs '(method, attr),
                     if str_startswith method "_" then funcs
                     else match attr with
                          | Callable f parameters =>
                              <[method := {| func := f; params := Some parameters;
                                             with_context := first_is_context parameters |}]>
                                funcs
                          | NotCallable => funcs
                          end) acc app !! name = Some fd →
            acc !! name = Some fd
            ∨ ∃ f parameters,
                (name, Callable f parameters) ∈ app
                ∧ str_startswith name "_" = false
                ∧ fd = {| func := f; params := Some parameters;
                          with_context := first_is_context parameters |}) as Hgen.
  { induction app as [|[method attr] app IH]; intros acc; [by left|].
    simpl. intros Hl. apply IH in Hl as [Hl|(f & ps & Hin & Hpub & ->)].
    - destruct (str_startswith method "_") eqn:Hpub; [by left|].
      destruct attr as [f ps|]; [|by left].
      destruct (decide (method = name)) as [->|Hne].
      + rewrite lookup_insert_eq in Hl. injection Hl as <-.
        right. exists f, ps. split; [apply list_elem_of_here|done].
      + rewrite lookup_insert_ne in Hl by done. by left.
    - right. exists f, ps. split; [by apply list_elem_of_further|done]. }
  intros Hl. apply Hgen in Hl as [Hl|Hl]; [by rewrite lookup_empty in Hl|done].
Qed.

Lemma method_entries_lookup (items : list (string * FuncDef)) (entries : list (pyobj * pyobj))
    (name : string) :
  method_entries items = Return entries →
  dict_get entries (PyStr name) =
    match (list_to_map items : gmap string FuncDef) !! name with
    | Some fd =>
        match params fd with
        | Some parameters => Some (PyList (map descriptor parameters))
        | None => None
        end
    | None => None
    end.
Proof.
  revert entries. induction items as [|[k fd] items IH]; intros entries.
  - intros [= <-]. simpl. by rewrite lookup_empty.
  - simpl. unfold method_entry at 1. simpl.
    destruct (params fd) as [ps|] eqn:Ep; [|done].
    bind_return.
    destruct (method_entries items) as [entries'|] eqn:Ee; [|done].
    intros [= <-]. cbn [dict_get].
    change (key_eq (PyStr k) (PyStr name)) with (bool_decide (k = name)).
    destruct (bool_decide_reflect (k = name)) as [->|Hne].
    + by rewrite lookup_insert_eq, Ep.
    + rewrite lookup_insert_ne by done. by apply IH.
Qed.

Lemma method_entries_ok (items : list (string * FuncDef)) :
  Forall (λ item, is_Some (params item.2)) items →
  ∃ entries, method_entries items = Return entries.
Proof.
  induction 1 as [|[k fd] items [ps Hp] _ [entries IH]]; [by eexists|].
  simpl in *. unfold method_entry. simpl. rewrite Hp.
  bind_return. rewrite IH. by eexists.
Qed.

Lemma reflection_resolves (self : Server) (type mid params : pyobj) :
  _get_exec_func self
    (Request type mid (PyBytes (x00 :: list_byte_of_string "reflection")) params)
  = Return (_ctrl_cmd_reflection self).
Proof. reflexivity. Qed.

End Registry.

(** C5, as the code has it.  The reflection command answers
    [{'methods': m}] where [m] has exactly the registered names as keys
    and gives for each the descriptors of the parameters of its
    signature, in order, the bare name where there is no default and
    [{'name': .., 'default': ..}] where there is one.  The list is that of
    all the declared parameters: the context parameter of a function
    that takes the context is listed like the others. *)
Theorem reflection_lists_declared_parameters `{PyText} `{Tags}
    (app : application) (type mid : pyobj) (writer : StreamWriter) :
  ∃ methods,
    _execute_quest (init app)
      (Request type mid (PyBytes (x00 :: list_byte_of_string "reflection")) (PyList []))
      writer
    = Return (PyDict [(PyStr "methods", PyDict methods)])
    ∧ (∀ name, _app_funcs (init app) !! name = None → dict_get methods (PyStr name) = None)
    ∧ (∀ name fd, _app_funcs (init app) !! name = Some fd →
         ∃ f parameters,
           (name, Callable f parameters) ∈ app
           ∧ with_context fd = first_is_context parameters
           ∧ dict_get methods (PyStr name) = Some (PyList (map descriptor parameters)))
    ∧ (∀ pdef,
         descriptor pdef =
           match default_value pdef with
           | None => PyStr (name pdef)
           | Some d => PyDict [(PyStr "name", PyStr (name pdef)); (PyStr "default", d)]
           end).
Proof.
  destruct (method_entries_ok (map_to_list (_app_funcs (init app)))) as [methods Hm].
  { apply Forall_forall. intros [k fd] Hin%elem_of_map_to_list.
    apply _get_app_funcs_lookup in Hin as (f & ps & _ & _ & ->). by eexists. }
  exists methods. split; [|split; [|split]].
  - unfold _execute_quest. rewrite reflection_resolves.
    bind_return. simpl.
    unfold wrap. cbn [ctx args kwargs]. rewrite bool_decide_eq_true_2 by done.
    rewrite Hm. done.
  - intros name Hn. rewrite (method_entries_lookup _ _ name Hm).
    by rewrite list_to_map_to_list, Hn.
  - intros name fd Hfd. rewrite (method_entries_lookup _ _ name Hm).
    rewrite list_to_map_to_list, Hfd.
    apply _get_app_funcs_lookup in Hfd as (f & ps & Hin & _ & ->).
    by exists f, ps.
  - done.
Qed.

(** C5 as stated fails on a function that takes the context: its
    context parameter is in the list. *)
Lemma reflection_lists_context_parameter :
  ∃ fd methods,
    _app_funcs Demo.server !! "whoami" = Some fd
    ∧ with_context fd = true
    ∧ params fd = Some Demo.whoami_parameters
    ∧ _execute_quest Demo.server
        (Request (PyInt 0) (PyInt 7) Demo.reflection (PyList [])) Demo.writer
      = Return (PyDict [(PyStr "methods", PyDict methods)])
    ∧ dict_get methods (PyStr "whoami")
      = Some (PyList [ PyStr "ctx";
                       PyDict [ (PyStr "name", PyStr "greeting");
                                (PyStr "default", PyStr "hello") ] ])
    ∧ dict_get methods (PyStr "whoami")
      ≠ Some (PyList (map descriptor (tail Demo.whoami_parameters))).
Proof.
  eexists. eexists. split; [vm_compute; reflexivity|].
  split; [reflexivity|]. split; [reflexivity|].
  split; [vm_compute; reflexivity|]. split; [reflexivity|]. discriminate.
Qed.

(** ** Binding a keyed mapping *)

Section Binding.
Context `{PyText} `{Tags}.

Lemma is_ctx_key_bytes (b : bytes) : is_ctx_key (PyBytes b) = Return (wrapped b).
Proof. unfold is_ctx_key, wrapped. simpl. by destruct (bytes_startswith b dunder). Qed.

Lemma is_param_key_bytes (b : bytes) : is_param_key (PyBytes b) = Return (negb (wrapped b)).
Proof.
  unfold is_param_key, wrapped. simpl.
  by destruct (bytes_startswith b dunder), (bytes_endswith b dunder).
Qed.

Lemma string_of_list_byte_inj (a b : bytes) :
  string_of_list_byte a = string_of_list_byte b → a = b.
Proof.
  intros E%(f_equal list_byte_of_string).
  by rewrite !list_byte_of_string_of_list_byte in E.
Qed.

(** The comprehension over a dict whose keys are names: it keeps the
    items whose key passes the test, under the decoded key. *)
Lemma decode_keys_spec (test : bytes → bool) (cond : pyobj → outcome bool)
    (items : list (pyobj * pyobj)) (acc : gmap string pyobj) :
  (∀ b, cond (PyBytes b) = Return (test b)) →
  Forall (λ kv, is_name kv.1) items →
  NoDup items.*1 →
  ∃ m,
    decode_keys cond items acc = Return m
    ∧ ∀ s v,
        m !! s = Some v ↔
          (∃ b, (PyBytes b, v) ∈ items ∧ test b = true ∧ string_of_list_byte b = s)
          ∨ (acc !! s = Some v
             ∧ ∀ b v', (PyBytes b, v') ∈ items → test b = true → string_of_list_byte b ≠ s).
Proof.
  intros Hcond Hnames. revert acc.
  induction Hnames as [|[k v0] items (b0 & Hk & Hvalid) _ IH]; intros acc Hdup.
  - exists acc. split; [done|]. intros s v. split.
    + intros Hs. right. split; [done|]. by intros b v' ?%elem_of_nil.
    + by intros [(b & ?%elem_of_nil & _)|[Hs _]].
  - simpl in Hk. subst k. apply NoDup_cons in Hdup as [Hfresh Hdup]. simpl in Hfresh.
    simpl. rewrite Hcond. bind_return.
    destruct (test b0) eqn:Et.
    + unfold bytes_decode. rewrite Hvalid. bind_return.
      destruct (IH (<[string_of_list_byte b0 := v0]> acc) Hdup) as (m & -> & Hm).
      exists m. split; [done|]. intros s v. rewrite Hm. split.
      * intros [(b & Hin & Hb & Hs)|[Hs Hno]].
        -- left. exists b. split; [by apply list_elem_of_further|done].
        -- destruct (decide (string_of_list_byte b0 = s)) as [<-|Hne].
           ++ rewrite lookup_insert_eq in Hs. injection Hs as <-.
              left. exists b0. split; [apply list_elem_of_here|done].
           ++ rewrite lookup_insert_ne in Hs by done. right. split; [done|].
              intros b v' [[= -> ->]|Hin]%elem_of_cons; [done|]. by eapply Hno.
      * intros [(b & [[= -> ->]|Hin]%elem_of_cons & Hb & Hs)|[Hs Hno]].
        -- right. subst s. rewrite lookup_insert_eq. split; [done|].
           intros b v' Hin _ ->%string_of_list_byte_inj.
           apply Hfresh. apply list_elem_of_fmap. by exists (PyBytes b0, v').
        -- left. by exists b.
        -- right. assert (string_of_list_byte b0 ≠ s) as Hne.
           { eapply Hno; [apply list_elem_of_here|done]. }
           rewrite lookup_insert_ne by done. split; [done|].
           intros b v' Hin. apply (Hno b v'). by apply list_elem_of_further.
    + destruct (IH acc Hdup) as (m & -> & Hm).
      exists m. split; [done|]. intros s v. rewrite Hm. split.
      * intros [(b & Hin & Hb & Hs)|[Hs Hno]].
        -- left. exists b. split; [by apply list_elem_of_further|done].
        -- right. split; [done|].
           intros b v' [[= -> ->]|Hin]%elem_of_cons; [by rewrite Et|]. by eapply Hno.
      * intros [(b & [[= -> ->]|Hin]%elem_of_cons & Hb & Hs)|[Hs Hno]].
        -- by rewrite Et in Hb.
        -- left. by exists b.
        -- right. split; [done|].
           intros b v' Hin. apply (Hno b v'). by apply list_elem_of_further.
Qed.

End Binding.

(** C6, as the code has it.  For a function that takes the context and
    a keyed mapping whose keys are names (byte strings of UTF-8 text, as
    a peer packs the keys of keyword arguments): the function is called
    with the context accessor as its one positional argument and with
    the items whose key is not wrapped in double underscores as keyword
    arguments.  The accessor gives the value of a wrapped key that was
    supplied, and for any other key what [writer.get_extra_info] gives. *)
Theorem keyed_params_split_context `{PyText} `{Tags}
    (self : Server) (msg : msgobj) (fdef : FuncDef) (writer : StreamWriter)
    (items : list (pyobj * pyobj)) :
  _get_exec_func self msg = Return fdef →
  with_context fdef = true →
  Message.params msg = PyDict items →
  Forall (λ kv, is_name kv.1) items →
  NoDup items.*1 →
  ∃ ctx_getter keywords,
    _execute_quest self msg writer =
      func fdef {| ctx := Some ctx_getter; args := []; kwargs := keywords |}
    ∧ (∀ s v, keywords !! s = Some v ↔
         ∃ b, (PyBytes b, v) ∈ items ∧ wrapped b = false ∧ string_of_list_byte b = s)
    ∧ (∀ b v, (PyBytes b, v) ∈ items → wrapped b = true →
         ctx_getter (string_of_list_byte b) = v)
    ∧ (∀ s, (∀ b v, (PyBytes b, v) ∈ items → wrapped b = true → string_of_list_byte b ≠ s) →
         ctx_getter s = get_extra_info writer s).
Proof.
  intros Hres Hctx Hparams Hnames Hdup.
  destruct (decode_keys_spec wrapped is_ctx_key items ∅ is_ctx_key_bytes Hnames Hdup)
    as (cm & Hcm & Hcs).
  destruct (decode_keys_spec (λ b, negb (wrapped b)) is_param_key items ∅
              is_param_key_bytes Hnames Hdup) as (km & Hkm & Hks).
  exists (λ k, match cm !! k with Some v => v | None => get_extra_info writer k end), km.
  split; [|split; [|split]].
  - unfold _execute_quest. rewrite Hres. bind_return.
    rewrite Hctx, Hparams. cbn [as_sequence]. rewrite Hcm.
    bind_return. rewrite Hkm. done.
  - intros s v. rewrite Hks. split.
    + intros [(b & Hin & Hb%negb_true_iff & Hs)|[Hs _]]; [by exists b|].
      by rewrite lookup_empty in Hs.
    + intros (b & Hin & Hb & Hs). left. exists b. by rewrite Hb.
  - intros b v Hin Hb.
    assert (cm !! string_of_list_byte b = Some v) as ->; [|done].
    apply Hcs. left. by exists b.
  - intros s Hno. destruct (cm !! s) as [v|] eqn:Es; [|done].
    apply Hcs in Es as [(b & Hin & Hb & Hs)|[Hs _]].
    + by destruct (Hno b v Hin Hb).
    + by rewrite lookup_empty in Hs.
Qed.

(** [whoami(__user__=b'ann', greeting=b'hi')] *)
Lemma keyed_params_split_context_witness :
  ∃ ctx_getter keywords,
    _execute_quest Demo.server
      (Request (PyInt 0) (PyInt 7) (Demo.b "whoami")
         (PyDict [(Demo.b "__user__", Demo.b "ann"); (Demo.b "greeting", Demo.b "hi")]))
      Demo.writer
    = Demo.whoami {| ctx := Some ctx_getter; args := []; kwargs := keywords |}
    ∧ (∀ s v, keywords !! s = Some v ↔
         ∃ b, (PyBytes b, v) ∈ [(Demo.b "__user__", Demo.b "ann");
                                 (Demo.b "greeting", Demo.b "hi")]
              ∧ wrapped b = false ∧ string_of_list_byte b = s)
    ∧ (∀ b v, (PyBytes b, v) ∈ [(Demo.b "__user__", Demo.b "ann");
                                 (Demo.b "greeting", Demo.b "hi")] →
         wrapped b = true → ctx_getter (string_of_list_byte b) = v)
    ∧ (∀ s, (∀ b v, (PyBytes b, v) ∈ [(Demo.b "__user__", Demo.b "ann");
                                       (Demo.b "greeting", Demo.b "hi")] →
               wrapped b = true → string_of_list_byte b ≠ s) →
         ctx_getter s = get_extra_info Demo.writer s).
Proof.
  apply (keyed_params_split_context Demo.server
           (Request (PyInt 0) (PyInt 7) (Demo.b "whoami")
              (PyDict [(Demo.b "__user__", Demo.b "ann"); (Demo.b "greeting", Demo.b "hi")]))
           {| func := Demo.whoami; params := Some Demo.whoami_parameters;
              with_context := true |}).
  - vm_compute. reflexivity.
  - reflexivity.
  - reflexivity.
  - repeat constructor; eexists; split; reflexivity.
  - apply NoDup_cons_2; [|apply NoDup_singleton].
    intros Hin. apply list_elem_of_singleton in Hin. discriminate Hin.
Defined.

(** C6 as stated fails on a mapping with a key that is not a byte
    string: the test on the key raises, the function is not called, and
    the key is neither in the context nor a keyword argument. *)
Lemma keyed_params_need_names :
  _execute_quest Demo.server
    (Request (PyInt 0) (PyInt 7) (Demo.b "whoami") (PyDict [(PyInt 1, Demo.b "hi")]))
    Demo.writer
  = Raise (AttributeError "int" "startswith")
  ∧ ∀ ctx_getter keywords,
      _execute_quest Demo.server
        (Request (PyInt 0) (PyInt 7) (Demo.b "whoami") (PyDict [(PyInt 1, Demo.b "hi")]))
        Demo.writer
      ≠ Demo.whoami {| ctx := Some ctx_getter; args := []; kwargs := keywords |}.
Proof.
  assert (_execute_quest Demo.server
            (Request (PyInt 0) (PyInt 7) (Demo.b "whoami") (PyDict [(PyInt 1, Demo.b "hi")]))
            Demo.writer
          = Raise (AttributeError "int" "startswith")) as E by (vm_compute; reflexivity).
  split; [done|]. intros g kw. rewrite E. discriminate.
Qed.

(** * Further properties of the server *)

(** ** The registry of [_get_app_funcs] *)

Section RegistryMore.

(** The registry of [dir(app)] with one more attribute at the end. *)
Lemma _get_app_funcs_snoc (app : application) (method : string) (attr : attribute) :
  _get_app_funcs (app ++ [(method, attr)]) =
    if str_startswith method "_" then _get_app_funcs app
    else
      match attr with
      | Callable f parameters =>
          <[method := {| func := f; params := Some parameters;
                         with_context := first_is_context parameters |}]>
            (_get_app_funcs app)
      | NotCallable => _get_app_funcs app
      end.
Proof. unfold _get_app_funcs. by rewrite foldl_app. Qed.

Lemma _get_app_funcs_present (app : application) (name : string)
    (f : call → outcome pyobj) (parameters : list Param) :
  NoDup app.*1 →
  (name, Callable f parameters) ∈ app →
  str_startswith name "_" = false →
  _get_app_funcs app !! name =
    Some {| func := f; params := Some parameters;
            with_context := first_is_context parameters |}.
Proof.
  induction app as [|[method attr] app IH] using rev_ind; [by intros _ ?%elem_of_nil|].
  rewrite fmap_app, _get_app_funcs_snoc. simpl.
  intros [Hdup [Hdisj _]]%NoDup_app Hin Hpub.
  apply elem_of_app in Hin as [Hin|Hin].
  - assert (method ≠ name) as Hne.
    { intros ->. apply (Hdisj name); [|apply list_elem_of_here].
      apply list_elem_of_fmap. by exists (name, Callable f parameters). }
    destruct (str_startswith method "_"); [by apply IH|].
    destruct attr; [|by apply IH].
    rewrite lookup_insert_ne by done. by apply IH.
  - apply list_elem_of_singleton in Hin. injection Hin as <- <-.
    by rewrite Hpub, lookup_insert_eq.
Qed.

End RegistryMore.

(** X1.  [_get_app_funcs] registers exactly the public callables of the
    application ([dir] lists every name once): a name is registered if
    and only if it does not start with an underscore and names a
    callable attribute, and it is then registered with that callable, its
    whole signature, and the context flag set when the first parameter of
    the signature is called [ctx] or [context]. *)
Theorem registered_iff_public_callable (app : application) (name : string) (fd : FuncDef) :
  NoDup app.*1 →
  _get_app_funcs app !! name = Some fd ↔
    str_startswith name "_" = false
    ∧ ∃ f parameters,
        (name, Callable f parameters) ∈ app
        ∧ fd = {| func := f; params := Some parameters;
                  with_context := first_is_context parameters |}.
Proof.
  intros Hdup. split.
  - intros Hl. apply _get_app_funcs_lookup in Hl as (f & ps & Hin & Hpub & ->).
    split; [done|]. by exists f, ps.
  - intros (Hpub & f & ps & Hin & ->). by apply _get_app_funcs_present.
Qed.

Lemma registered_iff_public_callable_witness :
  _get_app_funcs Demo.app !! "whoami" =
    Some {| func := Demo.whoami; params := Some Demo.whoami_parameters; with_context := true |}
  ↔ str_startswith "whoami" "_" = false
    ∧ ∃ f parameters,
        ("whoami", Callable f parameters) ∈ Demo.app
        ∧ {| func := Demo.whoami; params := Some Demo.whoami_parameters; with_context := true |}
          = {| func := f; params := Some parameters;
               with_context := first_is_context parameters |}.
Proof.
  apply (registered_iff_public_callable Demo.app "whoami").
  vm_compute.
  repeat (apply NoDup_cons_2;
          [intros Hin; repeat (apply elem_of_cons in Hin as [Hin|Hin]; [discriminate Hin|]);
           by apply elem_of_nil in Hin|]).
  apply NoDup_nil_2.
Defined.

(** ** Resolution of the method name: [_get_exec_func] *)

Section ResolutionMore.
Context `{PyText} `{Tags}.

Lemma str_startswith_cons (name p : string) (c : ascii) :
  str_startswith name (String c p) = true → ∃ r, name = String c r.
Proof.
  unfold str_startswith. destruct name as [|a r]; [done|]. simpl.
  destruct (ascii_dec c a) as [->|]; [by eexists|done].
Qed.

(** The name of a method as the peer sends it, when it is text. *)
Lemma decode_str_encode (name : string) :
  utf8_valid (length (str_encode name)) (str_encode name) = true →
  decode (PyBytes (str_encode name)) = Return name.
Proof.
  intros Hv. unfold decode, bytes_decode. rewrite Hv. unfold str_encode.
  by rewrite string_of_list_byte_of_string.
Qed.

Lemma lookup_by_name (self : Server) (msg : msgobj) (name : string) :
  method msg = PyBytes (str_encode name) →
  bytes_startswith (str_encode name) [x00] = false →
  _get_exec_func self msg =
    if utf8_valid (length (str_encode name)) (str_encode name) then
      match _app_funcs self !! name with
      | Some funcdef => Return funcdef
      | None => Raise (KeyError name)
      end
    else Raise (UnicodeDecodeError (str_encode name)).
Proof.
  intros Hm Hnul. unfold _get_exec_func. rewrite Hm. unfold startswith.
  bind_return. rewrite Hnul.
  destruct (utf8_valid (length (str_encode name)) (str_encode name)) eqn:Hv.
  - by rewrite decode_str_encode.
  - unfold decode, bytes_decode. by rewrite Hv.
Qed.

End ResolutionMore.

(** X2.  A request for a public callable of the application resolves to
    the descriptor [_get_app_funcs] made for it at construction: the
    callable itself, its signature and its context flag.  The name is
    text and does not start with a NUL byte (which selects the control
    commands). *)
Theorem registered_name_resolves `{PyText} `{Tags}
    (app : application) (name : string) (f : call → outcome pyobj) (parameters : list Param)
    (msg : msgobj) :
  NoDup app.*1 →
  (name, Callable f parameters) ∈ app →
  str_startswith name "_" = false →
  utf8_valid (length (str_encode name)) (str_encode name) = true →
  bytes_startswith (str_encode name) [x00] = false →
  method msg = PyBytes (str_encode name) →
  _get_exec_func (init app) msg =
    Return {| func := f; params := Some parameters;
              with_context := first_is_context parameters |}.
Proof.
  intros Hdup Hin Hpub Hv Hnul Hm.
  rewrite (lookup_by_name _ _ name Hm Hnul), Hv.
  change (_app_funcs (init app)) with (_get_app_funcs app).
  by rewrite (_get_app_funcs_present _ _ _ _ Hdup Hin Hpub).
Qed.

Lemma registered_name_resolves_witness :
  _get_exec_func (init Demo.app) Demo.add_notification =
    Return {| func := Demo.add;
              params := Some [ {| name := "x"; default_value := None |};
                               {| name := "y"; default_value := None |} ];
              with_context := false |}.
Proof.
  apply (registered_name_resolves Demo.app "add" Demo.add
           [ {| name := "x"; default_value := None |};
             {| name := "y"; default_value := None |} ] Demo.add_notification).
  - vm_compute.
    repeat (apply NoDup_cons_2;
            [intros Hin; repeat (apply elem_of_cons in Hin as [Hin|Hin]; [discriminate Hin|]);
             by apply elem_of_nil in Hin|]).
    apply NoDup_nil_2.
  - do 2 apply list_elem_of_further. apply list_elem_of_here.
  - reflexivity.
  - reflexivity.
  - reflexivity.
  - reflexivity.
Defined.

(** X3.  A method whose name starts with an underscore cannot be called
    from the wire, whatever the application defines under that name
    (the hooks of [AgentMixin] among them): resolution raises
    [KeyError] with the name, or [UnicodeDecodeError] when the name is
    not text, and no function is called. *)
Theorem private_method_unreachable `{PyText} `{Tags}
    (app : application) (name : string) (msg : msgobj) (writer : StreamWriter) :
  str_startswith name "_" = true →
  method msg = PyBytes (str_encode name) →
  _execute_quest (init app) msg writer =
    Raise (if utf8_valid (length (str_encode name)) (str_encode name)
           then KeyError name else UnicodeDecodeError (str_encode name)).
Proof.
  intros Hpriv Hm. unfold _execute_quest.
  rewrite (lookup_by_name _ _ name Hm).
  - destruct (utf8_valid (length (str_encode name)) (str_encode name)); [|done].
    change (_app_funcs (init app)) with (_get_app_funcs app).
    destruct (_get_app_funcs app !! name) as [fd|] eqn:El; [|done].
    apply _get_app_funcs_lookup in El as (f & ps & _ & Hpub & _). congruence.
  - apply str_startswith_cons in Hpriv as [r ->]. reflexivity.
Qed.

Lemma private_method_unreachable_witness :
  _execute_quest (init Demo.app)
    (Request (PyInt 0) (PyInt 7) (Demo.b "_get_client") (PyList [Demo.b "peer"])) Demo.writer
  = Raise (KeyError "_get_client").
Proof.
  apply (private_method_unreachable Demo.app "_get_client"
           (Request (PyInt 0) (PyInt 7) (Demo.b "_get_client") (PyList [Demo.b "peer"]))
           Demo.writer); reflexivity.
Defined.

(** X4.  A method name that starts with a NUL byte is a control
    command and nothing else: it resolves when the rest of the name is
    [reflection], and raises otherwise ([AttributeError] for a command
    the server does not have, [UnicodeDecodeError] for a name that is not
    text).  The functions of the application are never looked up under
    such a name. *)
Theorem control_name_resolves_to_reflection_only `{PyText} `{Tags}
    (self : Server) (msg : msgobj) (command : bytes) :
  method msg = PyBytes (x00 :: command) →
  _get_exec_func self msg =
    if utf8_valid (length command) command then
      if bool_decide (command = list_byte_of_string "reflection")
      then Return (_ctrl_cmd_reflection self)
      else Raise (AttributeError "Server" ("_ctrl_cmd_" +:+ string_of_list_byte command))
    else Raise (UnicodeDecodeError (x00 :: command)).
Proof.
  intros Hm. unfold _get_exec_func. rewrite Hm.
  unfold startswith. bind_return.
  assert (bytes_startswith (x00 :: command) [x00] = true) as -> by (by destruct command).
  unfold _get_control_command, decode, bytes_decode.
  change (utf8_valid (length (x00 :: command)) (x00 :: command))
    with (utf8_valid (length command) command).
  destruct (utf8_valid (length command) command) eqn:Hv; [|done].
  bind_return.
  change (str_tail (string_of_list_byte (x00 :: command)))
    with (drop_continuation (string_of_list_byte command)).
  rewrite drop_continuation_valid by done.
  destruct (bool_decide_reflect (command = list_byte_of_string "reflection")) as [->|Hne].
  - done.
  - rewrite bool_decide_eq_false_2; [done|].
    intros Hr. apply Hne. apply string_of_list_byte_inj.
    by rewrite Hr, string_of_list_byte_of_string.
Qed.

Lemma control_name_resolves_to_reflection_only_witness :
  _get_exec_func Demo.server
    (Request (PyInt 0) (PyInt 7) (PyBytes (x00 :: list_byte_of_string "add")) PyNone)
  = Raise (AttributeError "Server" "_ctrl_cmd_add").
Proof.
  apply (control_name_resolves_to_reflection_only Demo.server
           (Request (PyInt 0) (PyInt 7) (PyBytes (x00 :: list_byte_of_string "add")) PyNone)
           (list_byte_of_string "add")).
  reflexivity.
Defined.

(** ** Binding the parameters: [_execute_quest] *)

Section BindingMore.
Context `{PyText} `{Tags}.

(** Only a byte string passes the tests on a key. *)
Lemma is_ctx_key_returns (k : pyobj) (keep : bool) :
  is_ctx_key k = Return keep → ∃ b, k = PyBytes b ∧ keep = wrapped b.
Proof.
  destruct k; try done. rewrite is_ctx_key_bytes. intros [= <-]. by eexists.
Qed.

Lemma is_param_key_returns (k : pyobj) (keep : bool) :
  is_param_key k = Return keep → ∃ b, k = PyBytes b ∧ keep = negb (wrapped b).
Proof.
  destruct k; try done. rewrite is_param_key_bytes. intros [= <-]. by eexists.
Qed.

Lemma decode_returns (k : pyobj) (s : string) : decode k = Return s → is_name k.
Proof.
  destruct k as [| | | |b| | | | | | | |]; try done. unfold decode, bytes_decode.
  destruct (utf8_valid (length b) b) eqn:Hv; [|done]. intros _. by exists b.
Qed.

(** A comprehension that completes has tested every key and decoded
    every key it kept. *)
Lemma decode_keys_returns (cond : pyobj → outcome bool) (items : list (pyobj * pyobj))
    (acc m : gmap string pyobj) :
  decode_keys cond items acc = Return m →
  Forall (λ kv, ∃ keep, cond kv.1 = Return keep ∧ (keep = true → is_name kv.1)) items.
Proof.
  revert acc. induction items as [|[k v] items IH]; intros acc; [done|].
  simpl. destruct (cond k) as [keep|] eqn:Ec; [|done]. bind_return.
  destruct keep.
  - destruct (decode k) as [s|] eqn:Ed; [|done]. bind_return. intros Hrest.
    constructor; [|by eapply IH]. exists true. split; [done|]. intros _. by eapply decode_returns.
  - intros Hrest. constructor; [|by eapply IH]. by exists false.
Qed.

Lemma decode_keys_non_empty (cond : pyobj → outcome bool) (items : list (pyobj * pyobj))
    (acc m : gmap string pyobj) :
  decode_keys cond items acc = Return m → acc ≠ ∅ → m ≠ ∅.
Proof.
  revert acc. induction items as [|[k v] items IH]; intros acc; [by intros [= <-]|].
  simpl. destruct (cond k) as [keep|]; [|done]. bind_return.
  destruct keep; [|apply IH].
  destruct (decode k) as [s|]; [|done]. bind_return.
  intros Hrest _. apply (IH _ Hrest), insert_non_empty.
Qed.

End BindingMore.

(** X5.  Parameters that are not a mapping are passed by position: the
    elements of a list or of a tuple one by one (the code and the data of
    an [ExtType], which is a tuple), nothing for [None], and any other
    value as the one argument.  A function that takes the context gets
    [writer.get_extra_info] itself in front of them. *)
Theorem unkeyed_params_are_positional `{PyText} `{Tags}
    (self : Server) (msg : msgobj) (fdef : FuncDef) (writer : StreamWriter) :
  _get_exec_func self msg = Return fdef →
  (∀ items, Message.params msg ≠ PyDict items) →
  _execute_quest self msg writer =
    func fdef
      {| ctx := if with_context fdef then Some (get_extra_info writer) else None;
         args := match as_sequence (Message.params msg) with
                 | Some l => l
                 | None => if eq_None (Message.params msg) then [] else [Message.params msg]
                 end;
         kwargs := ∅ |}.
Proof.
  intros Hres Hnot. unfold _execute_quest. rewrite Hres. bind_return.
  destruct (with_context fdef);
    (destruct (Message.params msg) as [| | | | | | | |items| | | |]; try done;
     by destruct (Hnot items)).
Qed.

Lemma unkeyed_params_are_positional_witness :
  _execute_quest Demo.server
    (Request (PyInt 0) (PyInt 7) (Demo.b "whoami") (PyExt 5 [x01])) Demo.writer
  = Demo.whoami {| ctx := Some (get_extra_info Demo.writer);
                   args := [PyInt 5; PyBytes [x01]]; kwargs := ∅ |}.
Proof.
  apply (unkeyed_params_are_positional Demo.server
           (Request (PyInt 0) (PyInt 7) (Demo.b "whoami") (PyExt 5 [x01]))
           {| func := Demo.whoami; params := Some Demo.whoami_parameters;
              with_context := true |} Demo.writer).
  - vm_compute. reflexivity.
  - intros items. discriminate.
Defined.

(** X6.  For a function that does not take the context, a keyed
    mapping whose keys are names is passed whole as keyword arguments:
    the keys wrapped in double underscores are keyword arguments like the
    others, and the function gets no context accessor and no positional
    argument. *)
Theorem keyed_params_without_context `{PyText} `{Tags}
    (self : Server) (msg : msgobj) (fdef : FuncDef) (writer : StreamWriter)
    (items : list (pyobj * pyobj)) :
  _get_exec_func self msg = Return fdef →
  with_context fdef = false →
  Message.params msg = PyDict items →
  Forall (λ kv, is_name kv.1) items →
  NoDup items.*1 →
  ∃ keywords,
    _execute_quest self msg writer =
      func fdef {| ctx := None; args := []; kwargs := keywords |}
    ∧ ∀ s v, keywords !! s = Some v ↔
        ∃ b, (PyBytes b, v) ∈ items ∧ string_of_list_byte b = s.
Proof.
  intros Hres Hctx Hparams Hnames Hdup.
  destruct (decode_keys_spec (λ _, true) (λ _, Return true) items ∅
              (λ _, eq_refl) Hnames Hdup) as (km & Hkm & Hks).
  exists km. split.
  - unfold _execute_quest. rewrite Hres. bind_return.
    rewrite Hctx, Hparams. cbn [as_sequence]. by rewrite Hkm.
  - intros s v. rewrite Hks. split.
    + intros [(b & Hin & _ & Hs)|[Hs _]]; [by exists b|]. by rewrite lookup_empty in Hs.
    + intros (b & Hin & Hs). left. by exists b.
Qed.

Lemma keyed_params_without_context_witness :
  ∃ keywords,
    _execute_quest Demo.server
      (Request (PyInt 0) (PyInt 7) (Demo.b "add")
         (PyDict [(Demo.b "__x__", PyInt 1); (Demo.b "y", PyInt 2)]))
      Demo.writer
    = Demo.add {| ctx := None; args := []; kwargs := keywords |}
    ∧ ∀ s v, keywords !! s = Some v ↔
        ∃ b, (PyBytes b, v) ∈ [(Demo.b "__x__", PyInt 1); (Demo.b "y", PyInt 2)]
             ∧ string_of_list_byte b = s.
Proof.
  apply (keyed_params_without_context Demo.server
           (Request (PyInt 0) (PyInt 7) (Demo.b "add")
              (PyDict [(Demo.b "__x__", PyInt 1); (Demo.b "y", PyInt 2)]))
           {| func := Demo.add;
              params := Some [ {| name := "x"; default_value := None |};
                               {| name := "y"; default_value := None |} ];
              with_context := false |}).
  - reflexivity.
  - reflexivity.
  - reflexivity.
  - repeat constructor; eexists; split; reflexivity.
  - apply NoDup_cons_2; [|apply NoDup_singleton].
    intros Hin. apply list_elem_of_singleton in Hin. discriminate Hin.
Defined.

(** X7.  A keyed mapping with a key that is not a name (not a byte
    string, or bytes that are not UTF-8) is refused before the function
    is called, whether the function takes the context or not: the
    exception depends on the mapping only, not on the function. *)
Theorem mapping_key_must_be_name `{PyText} `{Tags}
    (items : list (pyobj * pyobj)) (context : bool) :
  ¬ Forall (λ kv, is_name kv.1) items →
  ∃ e, ∀ (self : Server) (msg : msgobj) (fdef : FuncDef) (writer : StreamWriter),
    _get_exec_func self msg = Return fdef →
    with_context fdef = context →
    Message.params msg = PyDict items →
    _execute_quest self msg writer = Raise e.
Proof.
  intros Hbad. destruct context.
  - destruct (decode_keys is_ctx_key items ∅) as [cm|e] eqn:Ec.
    + destruct (decode_keys is_param_key items ∅) as [km|e] eqn:Ek.
      * destruct Hbad. apply decode_keys_returns in Ec, Ek.
        apply Forall_forall. intros kv Hin.
        destruct (proj1 (Forall_forall _ _) Ec kv Hin) as (keep1 & Hc1 & Hn1).
        destruct (proj1 (Forall_forall _ _) Ek kv Hin) as (keep2 & Hc2 & Hn2).
        apply is_ctx_key_returns in Hc1 as (b1 & Hb1 & ->).
        apply is_param_key_returns in Hc2 as (b2 & Hb2 & ->).
        rewrite Hb1 in Hb2. injection Hb2 as <-.
        destruct (wrapped b1); [by apply Hn1|by apply Hn2].
      * exists e. intros self msg fdef writer Hres Hctx Hparams.
        unfold _execute_quest. rewrite Hres. bind_return.
        rewrite Hctx, Hparams. cbn [as_sequence]. rewrite Ec. bind_return. by rewrite Ek.
    + exists e. intros self msg fdef writer Hres Hctx Hparams.
      unfold _execute_quest. rewrite Hres. bind_return.
      rewrite Hctx, Hparams. cbn [as_sequence]. by rewrite Ec.
  - destruct (decode_keys (λ _, Return true) items ∅) as [km|e] eqn:Ek.
    + destruct Hbad. apply decode_keys_returns in Ek.
      eapply Forall_impl; [exact Ek|]. intros kv (keep & [= <-] & Hn). by apply Hn.
    + exists e. intros self msg fdef writer Hres Hctx Hparams.
      unfold _execute_quest. rewrite Hres. bind_return.
      rewrite Hctx, Hparams. cbn [as_sequence]. by rewrite Ek.
Qed.

Lemma mapping_key_must_be_name_witness :
  ∃ e, ∀ (self : Server) (msg : msgobj) (fdef : FuncDef) (writer : StreamWriter),
    _get_exec_func self msg = Return fdef →
    with_context fdef = false →
    Message.params msg = PyDict [(Demo.b "x", PyInt 1); (PyStr "y", PyInt 2)] →
    _execute_quest self msg writer = Raise e.
Proof.
  apply (mapping_key_must_be_name [(Demo.b "x", PyInt 1); (PyStr "y", PyInt 2)] false).
  intros Hall. inversion Hall as [|kv l _ Hrest]. inversion Hrest as [|kv' l' Hy _].
  destruct Hy as (b & Hb & _). discriminate Hb.
Defined.

(** X8.  The reflection command takes no argument: it runs for
    parameters that are [None], an empty list or tuple, or an empty
    mapping, and any other parameters make the call raise. *)
Theorem reflection_takes_no_arguments `{PyText} `{Tags}
    (self : Server) (msg : msgobj) (writer : StreamWriter) :
  method msg = PyBytes (x00 :: list_byte_of_string "reflection") →
  (Message.params msg = PyNone ∨ as_sequence (Message.params msg) = Some []
   ∨ Message.params msg = PyDict [] →
   _execute_quest self msg writer = wrap self {| ctx := None; args := []; kwargs := ∅ |})
  ∧ (¬ (Message.params msg = PyNone ∨ as_sequence (Message.params msg) = Some []
        ∨ Message.params msg = PyDict []) →
     ∃ e, _execute_quest self msg writer = Raise e).
Proof.
  intros Hm.
  assert (_get_exec_func self msg = Return (_ctrl_cmd_reflection self)) as Hres.
  { unfold _get_exec_func. by rewrite Hm. }
  unfold _execute_quest. rewrite Hres. bind_return. cbn [with_context _ctrl_cmd_reflection func].
  split.
  - intros [Hp|[Hp|Hp]]; [by rewrite Hp|by rewrite Hp|by rewrite Hp].
  - intros Hnot.
    destruct (as_sequence (Message.params msg)) as [[|x l]|] eqn:Es.
    + destruct Hnot. by right; left.
    + unfold wrap. cbn [ctx args]. by eexists.
    + destruct (Message.params msg) as [| | | | | | | |items| | | |] eqn:Ep;
        try done; try (unfold wrap; cbn [ctx args eq_None]; by eexists).
      * destruct Hnot. by left.
      * destruct items as [|[k v] items]; [destruct Hnot; by right; right|].
        destruct (decode_keys (λ _, Return true) ((k, v) :: items) ∅) as [km|e] eqn:Ek;
          [|by eexists].
        bind_return. unfold wrap. cbn [ctx args kwargs].
        rewrite bool_decide_eq_false_2; [by eexists|].
        simpl in Ek. destruct (decode k) as [s|]; [|done].
        eapply decode_keys_non_empty; [exact Ek|]. apply insert_non_empty.
Qed.

Lemma reflection_takes_no_arguments_witness :
  (PyList [PyInt 1] = PyNone ∨ as_sequence (PyList [PyInt 1]) = Some []
   ∨ PyList [PyInt 1] = PyDict [] →
   _execute_quest Demo.server (Request (PyInt 0) (PyInt 7) Demo.reflection (PyList [PyInt 1]))
     Demo.writer
   = wrap Demo.server {| ctx := None; args := []; kwargs := ∅ |})
  ∧ (¬ (PyList [PyInt 1] = PyNone ∨ as_sequence (PyList [PyInt 1]) = Some []
        ∨ PyList [PyInt 1] = PyDict []) →
     ∃ e, _execute_quest Demo.server
            (Request (PyInt 0) (PyInt 7) Demo.reflection (PyList [PyInt 1])) Demo.writer
          = Raise e).
Proof.
  apply (reflection_takes_no_arguments Demo.server
           (Request (PyInt 0) (PyInt 7) Demo.reflection (PyList [PyInt 1])) Demo.writer).
  reflexivity.
Defined.

(** ** Dispatch units: [process] *)

Section ProcessMore.
Context `{PyText} `{Tags}.

(** What the [try] statement leaves in [result] and [error] when the
    call, and the coroutine it may have returned, complete. *)
Lemma run_handler_completes (self : Server) (msg : msgobj) (writer : StreamWriter)
    (returned result : pyobj) :
  _execute_quest self msg writer = Return returned →
  (if iscoroutine returned then await returned else Return returned) = Return result →
  run_handler self msg writer = (result, PyNone).
Proof.
  intros Hq Hr. unfold run_handler. rewrite Hq.
  destruct (iscoroutine returned); [by rewrite Hr|by injection Hr as <-].
Qed.

(** What [packb] refuses, [_pack] refuses one level down. *)
Lemma packable_in_element (o : pyobj) :
  packable_in (DEFAULT_RECURSE_LIMIT - 1) o → packable o.
Proof.
  intros Hp. pose proof (packable_in_nesting _ _ Hp) as Hn. destruct Hp as [data Hd].
  exists data. eapply _pack_limit_change; [|exact Hd]. lia.
Qed.

End ProcessMore.


(** X10.  A request off the wire whose function completes, directly or
    as a coroutine that is awaited, with a result that can be packed as
    an element of the reply is answered with one chunk: the packed list
    of the response tag, the id of the request, a null error and the
    result.  The id is nested less deep than the packer goes, as every
    integer is.  The task then ends the way [drain] does. *)
Theorem completed_call_is_answered `{PyText} `{Tags}
    (self : Server) (type mid method params : pyobj) (writer : StreamWriter)
    (drain : outcome unit) (returned result : pyobj) :
  received (Request type mid method params) →
  (nesting mid < DEFAULT_RECURSE_LIMIT)%Z →
  _execute_quest self (Request type mid method params) writer = Return returned →
  (if iscoroutine returned then await returned else Return returned) = Return result →
  packable_in (DEFAULT_RECURSE_LIMIT - 1) result →
  ∃ reply,
    packb (reply_of mid PyNone result) = Return reply
    ∧ process self (Request type mid method params) writer drain
      = ({| get_extra_info := get_extra_info writer;
            written := written writer ++ [reply];
            closed := closed writer |}, escaped drain).
Proof.
  intros Hrecv Hmid Hq Hr Hres.
  destruct (packable_reply mid PyNone result) as [reply Hreply].
  - apply (received_mid_packable _ _ _ _ Hrecv). lia.
  - by apply packable_in_None.
  - done.
  - change (packb (reply_of mid PyNone result) = Return reply) in Hreply.
    exists reply. split; [done|].
    unfold process. by rewrite (run_handler_completes _ _ _ _ _ Hq Hr), Hreply.
Qed.

Lemma completed_call_is_answered_witness :
  ∃ reply,
    packb (reply_of (PyInt 8) PyNone (PyTuple [Demo.b "hi"])) = Return reply
    ∧ process Demo.server (Request (PyInt 0) (PyInt 8) (Demo.b "echo") (PyList [Demo.b "hi"]))
        Demo.writer (Raise (OSError "Connection lost"))
      = ({| get_extra_info := get_extra_info Demo.writer;
            written := written Demo.writer ++ [reply];
            closed := closed Demo.writer |},
         escaped (Raise (OSError "Connection lost") : outcome unit)).
Proof.
  apply (completed_call_is_answered Demo.server (PyInt 0) (PyInt 8) (Demo.b "echo")
           (PyList [Demo.b "hi"]) Demo.writer (Raise (OSError "Connection lost"))
           (PyCoroReturn (PyTuple [Demo.b "hi"]))).
  - exists [x94; x00; x08; xa4; "e"; "c"; "h"; "o"; x91; xa2; "h"; "i"]%byte,
      (PyList [PyInt 0; PyInt 8; Demo.b "echo"; PyList [Demo.b "hi"]]), [].
    split; reflexivity.
  - reflexivity.
  - reflexivity.
  - reflexivity.
  - eexists. reflexivity.
Defined.

(** X11.  A request whose function completes with a result that
    [packb] refuses (an integer outside 64 bits, an object of a class the
    format does not know) is not answered: [packb] raises after the
    [try] statement, the task ends with an exception and nothing is
    written.  The exception is the one the result is refused with as an
    element of the reply, when the id of the request is one that came off
    the wire and is nested less deep than the packer goes. *)
Theorem unpackable_result_is_unanswered `{PyText} `{Tags}
    (self : Server) (type mid method params : pyobj) (writer : StreamWriter)
    (drain : outcome unit) (returned result : pyobj) :
  _execute_quest self (Request type mid method params) writer = Return returned →
  (if iscoroutine returned then await returned else Return returned) = Return result →
  ¬ packable result →
  (∃ e', process self (Request type mid method params) writer drain = (writer, Some e'))
  ∧ ∀ e,
      received (Request type mid method params) →
      (nesting mid < DEFAULT_RECURSE_LIMIT)%Z →
      _pack result (DEFAULT_RECURSE_LIMIT - 1) = Raise e →
      process self (Request type mid method params) writer drain = (writer, Some e).
Proof.
  intros Hq Hr Hres.
  unfold process. rewrite (run_handler_completes _ _ _ _ _ Hq Hr). split.
  - destruct (reply_with_refused_result mid PyNone result) as [e' ->]; [|by exists e'].
    intros Hp. by apply Hres, packable_in_element.
  - intros e Hrecv Hmid He.
    rewrite (reply_with_refused_result_exact mid PyNone result e); [done| | |done].
    + apply (received_mid_packable _ _ _ _ Hrecv). lia.
    + by apply packable_in_None.
Qed.

(** [add(2 ** 63, 2 ** 63)] *)
Lemma unpackable_result_is_unanswered_witness :
  (∃ e', process Demo.server
           (Request (PyInt 0) (PyInt 7) (Demo.b "add")
              (PyList [PyInt 9223372036854775808; PyInt 9223372036854775808]))
           Demo.writer (Return ()) = (Demo.writer, Some e'))
  ∧ ∀ e,
      received (Request (PyInt 0) (PyInt 7) (Demo.b "add")
                  (PyList [PyInt 9223372036854775808; PyInt 9223372036854775808])) →
      (nesting (PyInt 7) < DEFAULT_RECURSE_LIMIT)%Z →
      _pack (PyInt 18446744073709551616) (DEFAULT_RECURSE_LIMIT - 1) = Raise e →
      process Demo.server
        (Request (PyInt 0) (PyInt 7) (Demo.b "add")
           (PyList [PyInt 9223372036854775808; PyInt 9223372036854775808]))
        Demo.writer (Return ()) = (Demo.writer, Some e).
Proof.
  apply (unpackable_result_is_unanswered Demo.server (PyInt 0) (PyInt 7) (Demo.b "add")
           (PyList [PyInt 9223372036854775808; PyInt 9223372036854775808]) Demo.writer
           (Return ()) (PyInt 18446744073709551616) (PyInt 18446744073709551616)).
  - reflexivity.
  - reflexivity.
  - intros [data Hd]. discriminate Hd.
Defined.

(** ** The connection: [handler] *)

Section HandlerMore.
Context `{PyText} `{Tags}.

(** The loop stops at an empty read. *)
Lemma read_loop_eof (reads later : list read_result) (buffer : bytes) (spawned : list msgobj) :
  read_loop (reads ++ Chunk [] :: later) buffer spawned = read_loop reads buffer spawned.
Proof.
  revert buffer spawned. induction reads as [|[buf|e c] reads IH]; intros buffer spawned;
    [done| |done].
  destruct buf as [|x buf]; [done|].
  rewrite <- app_comm_cons, !read_loop_chunk by done.
  by destruct (for_each dispatch (buffer ++ x :: buf) spawned) as [[b1 s1] [e1|]].
Qed.

(** It stops at a read that raises. *)
Lemma read_loop_raise (reads later : list read_result) (e : exc) (c : bool)
    (buffer : bytes) (spawned : list msgobj) :
  read_loop (reads ++ ReadRaises e c :: later) buffer spawned =
    read_loop (reads ++ [ReadRaises e c]) buffer spawned.
Proof.
  revert buffer spawned. induction reads as [|[buf|e' c'] reads IH]; intros buffer spawned;
    [done| |done].
  destruct buf as [|x buf]; [done|].
  rewrite <- !app_comm_cons, !read_loop_chunk by done.
  by destruct (for_each dispatch (buffer ++ x :: buf) spawned) as [[b1 s1] [e1|]].
Qed.

(** The loop is left with the event loop closed only by a read that
    was interrupted that way. *)
Lemma read_loop_closed (reads : list read_result) (buffer : bytes) (spawned : list msgobj) :
  is_closed (read_loop reads buffer spawned).2 = true →
  ∃ e, caught (read_loop reads buffer spawned).2 = Some e ∧ ReadRaises e true ∈ reads.
Proof.
  revert buffer spawned. induction reads as [|[buf|e c] reads IH]; intros buffer spawned.
  - done.
  - destruct buf as [|x buf]; [done|]. rewrite read_loop_chunk by done.
    destruct (for_each dispatch (buffer ++ x :: buf) spawned) as [[b1 s1] [e1|]]; [done|].
    intros (e & He & Hin)%IH. exists e. split; [done|]. by apply list_elem_of_further.
  - simpl. intros ->. exists e. split; [done|]. apply list_elem_of_here.
Qed.

(** The body of the loop over the unpacker sees only objects that were
    decoded off the buffer. *)
Lemma for_each_invariant_unpacked {St : Type} (P : St → Prop) (body : pyobj → St → outcome St)
    (b : bytes) (s : St) :
  (∀ buffer msg rest s s',
     unpack buffer = Done msg rest → P s → body msg s = Return s' → P s') →
  P s → P (for_each body b s).1.2.
Proof.
  intros Hbody. remember (length b) as n eqn:Hn. revert b s Hn.
  induction (lt_wf n) as [n _ IH]; intros b s -> Hs.
  rewrite for_each_eq. destruct (unpack b) as [msg rest| |e] eqn:E; try done.
  destruct (body msg s) as [s1|e] eqn:Eb; [|done].
  pose proof (unpack_shorter _ _ _ E) as Hlt.
  eapply (IH _ Hlt); [done|]. by eapply Hbody.
Qed.

Lemma read_loop_received (reads : list read_result) (buffer : bytes) (spawned : list msgobj) :
  Forall received spawned → Forall received (read_loop reads buffer spawned).1.2.
Proof.
  revert buffer spawned. induction reads as [|[buf|e c] reads IH]; intros buffer spawned Hs;
    [done| |done].
  destruct buf as [|x buf]; [done|]. rewrite read_loop_chunk by done.
  pose proof (for_each_invariant_unpacked (Forall received) dispatch
                (buffer ++ x :: buf) spawned) as Hinv.
  destruct (for_each dispatch (buffer ++ x :: buf) spawned) as [[b1 s1] [e1|]];
    simpl in Hinv; [apply Hinv|apply IH, Hinv]; try done;
    intros b0 msg rest s s' Hu Hs0; unfold dispatch;
    (destruct (message_of msg) as [m|] eqn:Em; [|done]); intros [= <-];
    (apply Forall_app; split; [done|]); repeat constructor; by exists b0, msg, rest.
Qed.

(** The fields of a message off the wire are objects that the packer
    refuses for their depth only. *)
Lemma received_fields_packable (m : msgobj) :
  received m → packs (method m) ∧ packs (Message.params m).
Proof.
  intros (buffer & msg & rest & Hu & Hm). apply unpack_packable in Hu.
  unfold message_of in Hm.
  assert (∀ l, packs (PyList l) → as_sequence msg = Some l →
               packs (method m) ∧ packs (Message.params m)) as Hl.
  { intros l Hl%packs_list_inv Hs. rewrite Hs in Hm.
    destruct l as [|tag items]; [done|].
    destruct (eq_int tag TYPE_REQUEST).
    - destruct items as [|? [|? [|? [|]]]]; try done. injection Hm as <-.
      inversion Hl as [|? ? _ Hl1]. inversion Hl1 as [|? ? _ Hl2].
      inversion Hl2 as [|? ? ? Hl3]. inversion Hl3. done.
    - destruct (eq_int tag TYPE_NOTIFICATION); [|done].
      destruct items as [|? [|? [|]]]; try done. injection Hm as <-.
      inversion Hl as [|? ? _ Hl1]. inversion Hl1 as [|? ? ? Hl2]. inversion Hl2. done. }
  destruct msg; try done.
  - by eapply Hl.
  - by eapply (Hl l).
  - simpl in Hm. destruct (eq_int (PyInt code) TYPE_REQUEST); [done|].
    by destruct (eq_int (PyInt code) TYPE_NOTIFICATION).
Qed.

End HandlerMore.

(** X12.  [handler] never writes to the connection and never touches
    the transport's metadata.  It feeds EOF to the reader and closes the
    writer together, as its last step, and it leaves that step out only
    when a read was interrupted with the event loop closed: the
    exception of that read is then the one it logged. *)
Theorem handler_closes_unless_loop_closed `{PyText} `{Tags}
    (nodelay : outcome unit) (reads : list read_result) (writer : StreamWriter) :
  let h := handler nodelay reads writer in
  written (writer_after h) = written writer
  ∧ get_extra_info (writer_after h) = get_extra_info writer
  ∧ closed (writer_after h) = eof_fed h || closed writer
  ∧ (eof_fed h = false → ∃ e, logged h = Some e ∧ ReadRaises e true ∈ reads).
Proof.
  unfold handler. destruct nodelay as [[]|e]; [|done].
  pose proof (read_loop_closed reads [] []) as Hc.
  destruct (read_loop reads [] []) as [[buffer spawned] ending]. simpl in *.
  destruct (is_closed ending); simpl; [|done].
  repeat split. intros _. by apply Hc.
Qed.

(** X13.  [handler] reads no further than the end of the stream: what
    would come after an empty read or after a read that raised is never
    asked for, and when the socket option cannot be set nothing is read
    at all and no dispatch unit is started. *)
Theorem handler_reads_no_further `{PyText} `{Tags}
    (nodelay : outcome unit) (reads later : list read_result) (writer : StreamWriter)
    (e : exc) (loop_closed : bool) :
  handler nodelay (reads ++ Chunk [] :: later) writer = handler nodelay reads writer
  ∧ handler nodelay (reads ++ ReadRaises e loop_closed :: later) writer
    = handler nodelay (reads ++ [ReadRaises e loop_closed]) writer
  ∧ handler (Raise e) reads writer
    = {| tasks := []; logged := Some e; unread := []; eof_fed := true;
         writer_after := close writer |}.
Proof.
  unfold handler. destruct nodelay as [[]|e0]; [|done].
  by rewrite read_loop_eof, read_loop_raise.
Qed.

(** X14.  What [handler] does with a stream of bytes does not depend
    on how the reads cut it: two sequences of non-empty reads with the
    same concatenation start the same dispatch units in the same order,
    log the same exception and end the connection the same way.  When no
    exception ends the loop the bytes left undecoded are the same too. *)
Theorem handler_independent_of_read_boundaries `{PyText} `{Tags}
    (chunks1 chunks2 : list bytes) (later : list read_result) (writer : StreamWriter) :
  Forall (λ c, c ≠ []) chunks1 →
  Forall (λ c, c ≠ []) chunks2 →
  concat chunks1 = concat chunks2 →
  let h1 := handler (Return ()) (map Chunk chunks1 ++ later) writer in
  let h2 := handler (Return ()) (map Chunk chunks2 ++ later) writer in
  tasks h1 = tasks h2
  ∧ logged h1 = logged h2
  ∧ eof_fed h1 = eof_fed h2
  ∧ writer_after h1 = writer_after h2
  ∧ (logged h1 = None → unread h1 = unread h2).
Proof.
  intros Hne1 Hne2 Hcat. unfold handler.
  destruct (for_each dispatch ([] ++ concat chunks1) []) as [[b' s'] [e|]] eqn:E.
  - destruct (read_loop_chunks_raise _ later _ _ _ _ _ Hne1 unpack_nil E) as [u1 ->].
    rewrite Hcat in E.
    destruct (read_loop_chunks_raise _ later _ _ _ _ _ Hne2 unpack_nil E) as [u2 ->].
    by simpl.
  - rewrite (read_loop_chunks _ later _ _ _ _ Hne1 unpack_nil E).
    rewrite Hcat in E.
    rewrite (read_loop_chunks _ later _ _ _ _ Hne2 unpack_nil E).
    by destruct (read_loop later b' s') as [[? ?] ?].
Qed.

(** One read against a read per byte. *)
Lemma handler_independent_of_read_boundaries_witness :
  let h1 := handler (Return ()) (map Chunk [Demo.request_bytes] ++ []) Demo.writer in
  let h2 := handler (Return ()) (map Chunk (map (λ x, [x]) Demo.request_bytes) ++ [])
              Demo.writer in
  tasks h1 = tasks h2
  ∧ logged h1 = logged h2
  ∧ eof_fed h1 = eof_fed h2
  ∧ writer_after h1 = writer_after h2
  ∧ (logged h1 = None → unread h1 = unread h2).
Proof.
  apply (handler_independent_of_read_boundaries [Demo.request_bytes]
           (map (λ x, [x]) Demo.request_bytes) [] Demo.writer).
  - repeat constructor; discriminate.
  - repeat constructor; discriminate.
  - reflexivity.
Defined.

(** X15.  Complete messages followed by the start of another one, then
    the end of the stream: [handler] starts one dispatch unit for each
    message, in the order of arrival, logs nothing, leaves the incomplete
    bytes undecoded and closes the connection. *)
Theorem messages_dispatched_in_arrival_order `{PyText} `{Tags}
    (good : list bytes) (objs : list msgobj) (tail : bytes)
    (chunks : list bytes) (later : list read_result) (writer : StreamWriter) :
  Forall2 encodes good objs →
  unpack tail = NeedMore →
  Forall (λ c, c ≠ []) chunks →
  concat chunks = concat good ++ tail →
  handler (Return ()) (map Chunk chunks ++ Chunk [] :: later) writer =
    {| tasks := objs; logged := None; unread := tail; eof_fed := true;
       writer_after := close writer |}.
Proof.
  intros Hgood Htail Hne Hcat.
  assert (for_each dispatch ([] ++ concat chunks) [] = (tail, objs, None)) as Hwhole.
  { simpl. rewrite Hcat, (for_each_dispatch_valid _ _ _ _ Hgood), for_each_eq, Htail. done. }
  unfold handler.
  by rewrite (read_loop_chunks _ (Chunk [] :: later) _ _ _ _ Hne unpack_nil Hwhole).
Qed.

(** A request and a notification in reads of four bytes, then the first
    byte of a third message. *)
Lemma messages_dispatched_in_arrival_order_witness :
  handler (Return ())
    (map Chunk [ [x94; x00; x07; xa3]%byte; ["a"; "d"; "d"; x92]%byte;
                 [x01; x02; x93; x02]%byte; [xa3; "a"; "d"; "d"]%byte;
                 [x92; x01; x02; x94]%byte ]
     ++ Chunk [] :: [Chunk Demo.request_bytes])
    Demo.writer =
    {| tasks := [Demo.add_request; Demo.add_notification]; logged := None;
       unread := [x94]; eof_fed := true; writer_after := close Demo.writer |}.
Proof.
  apply (messages_dispatched_in_arrival_order
           [Demo.request_bytes; Demo.notification_bytes]
           [Demo.add_request; Demo.add_notification] [x94]).
  - repeat constructor; eexists; split; reflexivity.
  - reflexivity.
  - repeat constructor; discriminate.
  - reflexivity.
Defined.

(** X16.  The loop of [handler] accepts exactly two shapes of object:
    a sequence of four elements whose first is equal to [TYPE_REQUEST],
    which becomes a [Request] of those four fields, and a sequence of
    three elements whose first is equal to [TYPE_NOTIFICATION], which
    becomes a [Notification] of those three. *)
Theorem message_of_accepts_exactly `{PyText} `{Tags} (msg : pyobj) (m : msgobj) :
  message_of msg = Return m ↔
    (∃ type mid method params,
       as_sequence msg = Some [type; mid; method; params]
       ∧ eq_int type TYPE_REQUEST = true
       ∧ m = Request type mid method params)
    ∨ (∃ type method params,
         as_sequence msg = Some [type; method; params]
         ∧ eq_int type TYPE_NOTIFICATION = true
         ∧ m = Notification type method params).
Proof.
  unfold message_of. split.
  - destruct (as_sequence msg) as [[|tag items]|]; try done.
    destruct (eq_int tag TYPE_REQUEST) eqn:Er.
    + destruct items as [|? [|? [|? [|]]]]; try done. intros [= <-].
      left. by eexists _, _, _, _.
    + destruct (eq_int tag TYPE_NOTIFICATION) eqn:En; [|done].
      destruct items as [|? [|? [|]]]; try done. intros [= <-].
      right. by eexists _, _, _.
  - intros [(type & mid & method & params & -> & Hr & ->)
           |(type & method & params & -> & Hn & ->)].
    + by rewrite Hr.
    + destruct (eq_int type TYPE_REQUEST) eqn:Hr; [|by rewrite Hn].
      pose proof (eq_int_inj _ _ _ Hr Hn). pose proof tags_distinct. tauto.
Qed.

(** X17.  Every dispatch unit [handler] starts is for a message that
    was decoded off the wire, so its method and its parameters are
    objects that the packer refuses for their depth only: each is
    packed at every limit on the nesting of containers that is not below
    its own nesting. *)
Theorem dispatched_messages_come_off_the_wire `{PyText} `{Tags}
    (nodelay : outcome unit) (reads : list read_result) (writer : StreamWriter) :
  Forall (λ m, received m ∧ packs (method m) ∧ packs (Message.params m))
    (tasks (handler nodelay reads writer)).
Proof.
  unfold handler. destruct nodelay as [[]|e]; [|by simpl].
  pose proof (read_loop_received reads [] [] (Forall_nil_2 _)) as Hr.
  destruct (read_loop reads [] []) as [[buffer spawned] ending]. simpl in *.
  eapply Forall_impl; [exact Hr|]. intros m Hm. split; [done|].
  by apply received_fields_packable.
Qed.

(** ** What the packer writes, the unpacker reads back *)

Import Wire.

Section RoundTrip.
Context `{PyText}.

Lemma Return_inj {A : Type} (a b : A) : Return a = Return b → a = b.
Proof. by intros [= ->]. Qed.

Lemma to_N_byte_of (n : N) : Byte.to_N (byte_of n) = n mod 256.
Proof.
  unfold byte_of. destruct (Byte.of_N (n mod 256)) as [x|] eqn:E.
  - by apply Byte.to_of_N.
  - apply Byte.of_N_None_iff in E. pose proof (N.mod_upper_bound n 256). lia.
Qed.

Lemma to_N_byte_of_small (n : N) : n < 256 → Byte.to_N (byte_of n) = n.
Proof. intros Hn. rewrite to_N_byte_of. by apply N.mod_small. Qed.

Lemma length_be_bytes (w : nat) (u : N) : length (be_bytes w u) = w.
Proof.
  unfold be_bytes. rewrite length_rev. revert u.
  induction w as [|w IH]; intros u; [done|]. simpl. by rewrite IH.
Qed.

(** The big-endian bytes of a number read back as the number. *)
Lemma be_uint_be_bytes (w : nat) (u : N) :
  be_uint (be_bytes w u) = u mod 256 ^ N.of_nat w.
Proof.
  unfold be_uint, be_bytes.
  rewrite <- (fold_left_rev_right (λ x acc, acc * 256 + Byte.to_N x)), rev_involutive.
  revert u.
  induction w as [|w IH]; intros u.
  - simpl. by rewrite N.mod_1_r.
  - cbn [le_bytes fold_right]. rewrite IH, to_N_byte_of.
    replace (N.of_nat (S w)) with (N.succ (N.of_nat w)) by lia.
    rewrite N.pow_succ_r', N.Div0.mod_mul_r. lia.
Qed.

Lemma split_at_length (p r : bytes) : split_at (N.of_nat (length p)) (p ++ r) = Some (p, r).
Proof.
  induction p as [|x p IH]; [apply split_at_0|].
  rewrite <- app_comm_cons, split_at_cons by (simpl; lia).
  replace (N.pred (N.of_nat (length (x :: p)))) with (N.of_nat (length p)) by (simpl; lia).
  by rewrite IH.
Qed.

Lemma with_bytes_length (n : N) (p r : bytes) (k : bytes → bytes → head) :
  n = N.of_nat (length p) → with_bytes n (p ++ r) k = k p r.
Proof. intros ->. unfold with_bytes. by rewrite split_at_length. Qed.

Lemma with_uint_be_bytes (n : N) (w : nat) (u : N) (r : bytes) (k : N → bytes → head) :
  n = N.of_nat w → u < 256 ^ n →
  with_uint n (be_bytes w u ++ r) k = k u r.
Proof.
  intros -> Hu. unfold with_uint.
  rewrite with_bytes_length by (by rewrite length_be_bytes).
  by rewrite be_uint_be_bytes, N.mod_small.
Qed.

Lemma read_raw_length (n : N) (data r : bytes) :
  n = N.of_nat (length data) → read_raw n (data ++ r) = HValue (PyBytes data) r.
Proof. intros Hn. unfold read_raw. by rewrite with_bytes_length. Qed.

(** The heads that [packb] writes. *)
Lemma pack_int_read (n : Z) (data r : bytes) :
  pack_int n = Return data → read_head (data ++ r) = HValue (PyInt n) r.
Proof.
  unfold pack_int.
  destruct (Z.leb_spec 0 n) as [Hn|Hn].
  - destruct (N.ltb_spec (Z.to_N n) (2 ^ 7)) as [H7|H7].
    { intros [= <-]. cbn [app read_head]. rewrite to_N_byte_of_small by lia.
      unfold format_of. destruct (N.ltb_spec (Z.to_N n) 128); [|lia].
      cbn [read_body]. by rewrite Z2N.id. }
    destruct (N.ltb_spec (Z.to_N n) (2 ^ 8)) as [H8|H8].
    { intros [= <-]. cbn [app read_head].
      change (read_body (format_of (Byte.to_N xcc)))
        with (λ b, with_uint 1 b (λ u r, HValue (PyInt (Z.of_N u)) r)). cbn beta.
      rewrite (with_uint_be_bytes 1 1) by done. by rewrite Z2N.id. }
    destruct (N.ltb_spec (Z.to_N n) (2 ^ 16)) as [H16|H16].
    { intros [= <-]. cbn [app read_head].
      change (read_body (format_of (Byte.to_N xcd)))
        with (λ b, with_uint 2 b (λ u r, HValue (PyInt (Z.of_N u)) r)). cbn beta.
      rewrite (with_uint_be_bytes 2 2) by done. by rewrite Z2N.id. }
    destruct (N.ltb_spec (Z.to_N n) (2 ^ 32)) as [H32|H32].
    { intros [= <-]. cbn [app read_head].
      change (read_body (format_of (Byte.to_N xce)))
        with (λ b, with_uint 4 b (λ u r, HValue (PyInt (Z.of_N u)) r)). cbn beta.
      rewrite (with_uint_be_bytes 4 4) by done. by rewrite Z2N.id. }
    destruct (N.ltb_spec (Z.to_N n) (2 ^ 64)) as [H64|H64]; [|done].
    intros [= <-]. cbn [app read_head].
    change (read_body (format_of (Byte.to_N xcf)))
      with (λ b, with_uint 8 b (λ u r, HValue (PyInt (Z.of_N u)) r)). cbn beta.
    rewrite (with_uint_be_bytes 8 8) by done. by rewrite Z2N.id.
  - destruct (Z.leb_spec (-32) n) as [H5|H5].
    { intros [= <-]. cbn [app read_head]. rewrite to_N_byte_of_small by lia.
      unfold format_of.
      destruct (N.ltb_spec (Z.to_N (n + 256)) 128); [lia|].
      destruct (N.ltb_spec (Z.to_N (n + 256)) 144); [lia|].
      destruct (N.ltb_spec (Z.to_N (n + 256)) 160); [lia|].
      destruct (N.ltb_spec (Z.to_N (n + 256)) 192); [lia|].
      destruct (N.leb_spec 224 (Z.to_N (n + 256))); [|lia].
      cbn [read_body]. f_equal. f_equal. lia. }
    destruct (Z.leb_spec (- 2 ^ 7) n) as [H7|H7].
    { intros [= <-]. cbn [app read_head].
      change (read_body (format_of (Byte.to_N xd0)))
        with (λ b, with_uint 1 b (λ u r, HValue (PyInt (to_signed 1 u)) r)). cbn beta.
      rewrite (with_uint_be_bytes 1 1) by (done || lia).
      unfold to_signed. change (2 ^ (8 * 1 - 1)) with 128. change (2 ^ Z.of_N (8 * 1))%Z with 256%Z.
      destruct (N.ltb_spec (Z.to_N (n + 2 ^ 8)) 128); [lia|]. f_equal. f_equal. lia. }
    destruct (Z.leb_spec (- 2 ^ 15) n) as [H15|H15].
    { intros [= <-]. cbn [app read_head].
      change (read_body (format_of (Byte.to_N xd1)))
        with (λ b, with_uint 2 b (λ u r, HValue (PyInt (to_signed 2 u)) r)). cbn beta.
      rewrite (with_uint_be_bytes 2 2) by (done || lia).
      unfold to_signed. change (2 ^ (8 * 2 - 1)) with 32768.
      change (2 ^ Z.of_N (8 * 2))%Z with 65536%Z.
      destruct (N.ltb_spec (Z.to_N (n + 2 ^ 16)) 32768); [lia|]. f_equal. f_equal. lia. }
    destruct (Z.leb_spec (- 2 ^ 31) n) as [H31|H31].
    { intros [= <-]. cbn [app read_head].
      change (read_body (format_of (Byte.to_N xd2)))
        with (λ b, with_uint 4 b (λ u r, HValue (PyInt (to_signed 4 u)) r)). cbn beta.
      rewrite (with_uint_be_bytes 4 4) by (done || lia).
      unfold to_signed. change (2 ^ (8 * 4 - 1)) with 2147483648.
      change (2 ^ Z.of_N (8 * 4))%Z with 4294967296%Z.
      destruct (N.ltb_spec (Z.to_N (n + 2 ^ 32)) 2147483648); [lia|]. f_equal. f_equal. lia. }
    destruct (Z.leb_spec (- 2 ^ 63) n) as [H63|H63]; [|done].
    intros [= <-]. cbn [app read_head].
    change (read_body (format_of (Byte.to_N xd3)))
      with (λ b, with_uint 8 b (λ u r, HValue (PyInt (to_signed 8 u)) r)). cbn beta.
    rewrite (with_uint_be_bytes 8 8) by (done || lia).
    unfold to_signed. change (2 ^ (8 * 8 - 1)) with 9223372036854775808.
    change (2 ^ Z.of_N (8 * 8))%Z with 18446744073709551616%Z.
    destruct (N.ltb_spec (Z.to_N (n + 2 ^ 64)) 9223372036854775808); [lia|].
    f_equal. f_equal. lia.
Qed.

End RoundTrip.

Section RoundTripHeads.
Context `{PyText}.
#[local] Arguments be_bytes : simpl never.

Lemma pack_raw_read (data out r : bytes) :
  pack_raw data = Return out → read_head (out ++ r) = HValue (PyBytes data) r.
Proof.
  unfold pack_raw.
  destruct (N.ltb_spec (N.of_nat (length data)) 32) as [H5|H5].
  { intros <-%Return_inj. cbn [app read_head]. rewrite to_N_byte_of_small by lia.
    unfold format_of.
    destruct (N.ltb_spec (160 + N.of_nat (length data)) 128); [lia|].
    destruct (N.ltb_spec (160 + N.of_nat (length data)) 144); [lia|].
    destruct (N.ltb_spec (160 + N.of_nat (length data)) 160); [lia|].
    destruct (N.ltb_spec (160 + N.of_nat (length data)) 192); [|lia].
    cbn [read_body]. apply read_raw_length. lia. }
  destruct (N.ltb_spec (N.of_nat (length data)) (2 ^ 16)) as [H16|H16].
  { intros <-%Return_inj. cbn [app read_head]. rewrite <- app_assoc.
    change (read_body (format_of (Byte.to_N xda))) with (λ b, with_uint 2 b read_raw).
    cbn beta. rewrite (with_uint_be_bytes 2 2) by done. by apply read_raw_length. }
  destruct (N.ltb_spec (N.of_nat (length data)) (2 ^ 32)) as [H32|H32]; [|done].
  intros <-%Return_inj. cbn [app read_head]. rewrite <- app_assoc.
  change (read_body (format_of (Byte.to_N xdb))) with (λ b, with_uint 4 b read_raw).
  cbn beta. rewrite (with_uint_be_bytes 4 4) by done. by apply read_raw_length.
Qed.

Lemma read_ext_length (n : N) (code : Z) (data r : bytes) :
  n = N.of_nat (length data) → (0 ≤ code < 128)%Z →
  read_ext n (byte_of (Z.to_N code) :: data ++ r) = HValue (PyExt code data) r.
Proof.
  intros Hn Hc. unfold read_ext.
  rewrite (with_bytes_length 1 [byte_of (Z.to_N code)] (data ++ r)) by done.
  rewrite with_bytes_length by done.
  assert (be_uint [byte_of (Z.to_N code)] = Z.to_N code) as ->.
  { unfold be_uint. cbn [fold_left]. rewrite to_N_byte_of_small by lia. lia. }
  destruct (N.ltb_spec (Z.to_N code) 128); [|lia]. by rewrite Z2N.id by lia.
Qed.

Lemma pack_ext_read (code : Z) (data out r : bytes) :
  pack_ext code data = Return out → read_head (out ++ r) = HValue (PyExt code data) r.
Proof.
  unfold pack_ext.
  destruct (Z.leb_spec 0 code) as [Hc0|Hc0]; [|done].
  destruct (Z.ltb_spec code 128) as [Hc1|Hc1]; [|done]. cbn [andb negb].
  assert (∀ w : N, w = N.of_nat (length data) →
            read_ext w (byte_of (Z.to_N code) :: data ++ r) = HValue (PyExt code data) r)
    as Hfix by (intros w Hw; by apply read_ext_length).
  assert ((if N.of_nat (length data) <? 2 ^ 8
           then Return (xc7 :: be_bytes 1 (N.of_nat (length data))
                          ++ byte_of (Z.to_N code) :: data)
           else if N.of_nat (length data) <? 2 ^ 16
           then Return (xc8 :: be_bytes 2 (N.of_nat (length data))
                          ++ byte_of (Z.to_N code) :: data)
           else if N.of_nat (length data) <? 2 ^ 32
           then Return (xc9 :: be_bytes 4 (N.of_nat (length data))
                          ++ byte_of (Z.to_N code) :: data)
           else Raise (ValueError "ext data is too large")) = Return out →
          read_head (out ++ r) = HValue (PyExt code data) r) as Hvar.
  { destruct (N.ltb_spec (N.of_nat (length data)) (2 ^ 8)) as [H8|H8].
    { intros <-%Return_inj. cbn [app read_head]. rewrite <- app_assoc, <- app_comm_cons.
      change (read_body (format_of (Byte.to_N xc7))) with (λ b, with_uint 1 b read_ext).
      cbn beta. rewrite (with_uint_be_bytes 1 1) by done. by apply Hfix. }
    destruct (N.ltb_spec (N.of_nat (length data)) (2 ^ 16)) as [H16|H16].
    { intros <-%Return_inj. cbn [app read_head]. rewrite <- app_assoc, <- app_comm_cons.
      change (read_body (format_of (Byte.to_N xc8))) with (λ b, with_uint 2 b read_ext).
      cbn beta. rewrite (with_uint_be_bytes 2 2) by done. by apply Hfix. }
    destruct (N.ltb_spec (N.of_nat (length data)) (2 ^ 32)) as [H32|H32]; [|done].
    intros <-%Return_inj. cbn [app read_head]. rewrite <- app_assoc, <- app_comm_cons.
    change (read_body (format_of (Byte.to_N xc9))) with (λ b, with_uint 4 b read_ext).
    cbn beta. rewrite (with_uint_be_bytes 4 4) by done. by apply Hfix. }
  repeat case_match; try exact Hvar; intros <-%Return_inj; cbn [app read_head];
    match goal with
    | |- read_body (format_of (Byte.to_N ?x)) _ = _ =>
        let f := eval vm_compute in (format_of (Byte.to_N x)) in
        change (format_of (Byte.to_N x)) with f
    end; cbn [read_body]; apply Hfix; congruence.
Qed.

Lemma pack_float_read (bits : N) (r : bytes) :
  bits < 2 ^ 64 → read_head ((xcb :: be_bytes 8 bits) ++ r) = HValue (PyFloat bits) r.
Proof.
  intros Hb. cbn [app read_head].
  change (read_body (format_of (Byte.to_N xcb)))
    with (λ b, with_uint 8 b (λ u r, HValue (PyFloat u) r)).
  cbn beta. by rewrite (with_uint_be_bytes 8 8).
Qed.

Lemma pack_array_header_read (n : N) (hdr r : bytes) :
  pack_array_header n = Return hdr → read_head (hdr ++ r) = HArray n r.
Proof.
  unfold pack_array_header.
  destruct (N.ltb_spec n 16) as [H4|H4].
  { intros <-%Return_inj. cbn [app read_head]. rewrite to_N_byte_of_small by lia.
    unfold format_of.
    destruct (N.ltb_spec (144 + n) 128); [lia|].
    destruct (N.ltb_spec (144 + n) 144); [lia|].
    destruct (N.ltb_spec (144 + n) 160); [|lia].
    cbn [read_body]. f_equal. lia. }
  destruct (N.ltb_spec n (2 ^ 16)) as [H16|H16].
  { intros <-%Return_inj. cbn [app read_head].
    change (read_body (format_of (Byte.to_N xdc))) with (λ b, with_uint 2 b HArray).
    cbn beta. by rewrite (with_uint_be_bytes 2 2). }
  destruct (N.ltb_spec n (2 ^ 32)) as [H32|H32]; [|done].
  intros <-%Return_inj. cbn [app read_head].
  change (read_body (format_of (Byte.to_N xdd))) with (λ b, with_uint 4 b HArray).
  cbn beta. by rewrite (with_uint_be_bytes 4 4).
Qed.

Lemma pack_map_header_read (n : N) (hdr r : bytes) :
  pack_map_header n = Return hdr → read_head (hdr ++ r) = HMap n r.
Proof.
  unfold pack_map_header.
  destruct (N.ltb_spec n 16) as [H4|H4].
  { intros <-%Return_inj. cbn [app read_head]. rewrite to_N_byte_of_small by lia.
    unfold format_of.
    destruct (N.ltb_spec (128 + n) 128); [lia|].
    destruct (N.ltb_spec (128 + n) 144); [|lia].
    cbn [read_body]. f_equal. lia. }
  destruct (N.ltb_spec n (2 ^ 16)) as [H16|H16].
  { intros <-%Return_inj. cbn [app read_head].
    change (read_body (format_of (Byte.to_N xde))) with (λ b, with_uint 2 b HMap).
    cbn beta. by rewrite (with_uint_be_bytes 2 2). }
  destruct (N.ltb_spec n (2 ^ 32)) as [H32|H32]; [|done].
  intros <-%Return_inj. cbn [app read_head].
  change (read_body (format_of (Byte.to_N xdf))) with (λ b, with_uint 4 b HMap).
  cbn beta. by rewrite (with_uint_be_bytes 4 4).
Qed.

End RoundTripHeads.

Section RoundTripObjects.
Context `{PyText}.

(** An object that is complete stays so with more fuel and with more
    bytes behind it. *)
Lemma unpack_fuel_more (f f' : nat) (b more : bytes) (v : pyobj) (r : bytes) :
  (f ≤ f')%nat → unpack_fuel f b = Done v r →
  unpack_fuel f' (b ++ more) = Done v (r ++ more).
Proof.
  intros Hle E. rewrite (proj1 (unpack_fuel_app_all f) b more f' Hle); by rewrite E.
Qed.

Lemma unpack_array_more (f f' : nat) (n : N) (acc : list pyobj) (b more : bytes)
    (v : pyobj) (r : bytes) :
  (f ≤ f')%nat → unpack_array f n acc b = Done v r →
  unpack_array f' n acc (b ++ more) = Done v (r ++ more).
Proof.
  intros Hle E.
  rewrite (proj1 (proj2 (unpack_fuel_app_all f)) n acc b more f' Hle); by rewrite E.
Qed.

Lemma unpack_map_more (f f' : nat) (n : N) (acc : list (pyobj * pyobj)) (b more : bytes)
    (v : pyobj) (r : bytes) :
  (f ≤ f')%nat → unpack_map f n acc b = Done v r →
  unpack_map f' n acc (b ++ more) = Done v (r ++ more).
Proof.
  intros Hle E.
  rewrite (proj2 (proj2 (unpack_fuel_app_all f)) n acc b more f' Hle); by rewrite E.
Qed.

Lemma unpack_fuel_of_head (data : bytes) (v : pyobj) :
  read_head (data ++ []) = HValue v [] → ∃ f, unpack_fuel f data = Done v [].
Proof. rewrite app_nil_r. intros E. exists 1%nat. by rewrite unpack_fuel_S, E. Qed.

(** A key that is equal to none of the keys of a dict goes to its end. *)
Lemma dict_setitem_fresh (d : list (pyobj * pyobj)) (k v : pyobj) :
  Forall (λ kv, key_eq kv.1 k = false) d → dict_setitem d k v = d ++ [(k, v)].
Proof.
  induction 1 as [|[k' v'] d Hk _ IH]; [done|]. simpl in *. by rewrite Hk, IH.
Qed.

Lemma pack_items_unpack (pack : pyobj → outcome bytes) (l : list pyobj) :
  Forall (λ o, ∀ data, pack o = Return data →
               ∃ f, unpack_fuel f data = Done (unpacked_form o) []) l →
  ∀ body acc, pack_items pack l = Return body →
    ∃ f, unpack_array f (N.of_nat (length l)) acc body
         = Done (PyList (rev acc ++ map unpacked_form l)) [].
Proof.
  induction 1 as [|x l Hx _ IH]; intros body acc.
  - intros <-%Return_inj. exists 0%nat. by rewrite unpack_array_0, app_nil_r.
  - cbn [pack_items]. destruct (pack x) as [bx|] eqn:Ex; [|done]. bind_return.
    destruct (pack_items pack l) as [bt|] eqn:Et; [|done]. bind_return.
    intros <-%Return_inj.
    destruct (Hx bx eq_refl) as [fx Hfx].
    destruct (IH bt (unpacked_form x :: acc) eq_refl) as [ft Hft].
    exists (S (fx `max` ft)).
    rewrite unpack_array_S by (simpl length; lia).
    rewrite (unpack_fuel_more fx _ bx bt _ _ (Nat.le_max_l _ _) Hfx).
    replace (N.pred (N.of_nat (length (x :: l)))) with (N.of_nat (length l))
      by (simpl length; lia).
    rewrite <- (app_nil_r bt) at 1. cbn [app].
    rewrite (unpack_array_more ft _ _ _ bt [] _ _ (Nat.le_max_r _ _) Hft).
    cbn [rev map app]. by rewrite <- app_assoc.
Qed.

Lemma pack_pairs_unpack (pack : pyobj → outcome bytes) (d : list (pyobj * pyobj)) :
  Forall (λ kv,
            (∀ data, pack kv.1 = Return data →
                     ∃ f, unpack_fuel f data = Done (unpacked_form kv.1) [])
            ∧ (∀ data, pack kv.2 = Return data →
                       ∃ f, unpack_fuel f data = Done (unpacked_form kv.2) [])
            ∧ hashable (unpacked_form kv.1) = true) d →
  ∀ body acc, pack_pairs pack d = Return body →
    keys_distinct (map (λ '(k, v), (unpacked_form k, unpacked_form v)) d) = true →
    Forall (λ kv', Forall (λ kv, key_eq kv'.1 kv.1 = false)
                     (map (λ '(k, v), (unpacked_form k, unpacked_form v)) d)) acc →
    ∃ f, unpack_map f (N.of_nat (length d)) acc body
         = Done (PyDict (acc ++ map (λ '(k, v), (unpacked_form k, unpacked_form v)) d)) [].
Proof.
  induction 1 as [|[k v] d (Hk & Hv & Hh) _ IH]; intros body acc.
  - intros <-%Return_inj _ _. exists 0%nat. by rewrite unpack_map_0, app_nil_r.
  - cbn [pack_pairs]. simpl in Hk, Hv, Hh.
    destruct (pack k) as [bk|] eqn:Ek; [|done]. bind_return.
    destruct (pack v) as [bv|] eqn:Ev; [|done]. bind_return.
    destruct (pack_pairs pack d) as [bt|] eqn:Et; [|done]. bind_return.
    intros <-%Return_inj. cbn [map keys_distinct].
    intros [Hfresh Hdist]%andb_prop Hacc.
    destruct (Hk bk eq_refl) as [fk Hfk]. destruct (Hv bv eq_refl) as [fv Hfv].
    destruct (IH bt (acc ++ [(unpacked_form k, unpacked_form v)]) eq_refl Hdist) as [ft Hft].
    { apply Forall_app. split.
      - eapply Forall_impl; [exact Hacc|]. intros kv' Hkv'. by inversion Hkv'.
      - constructor; [|done]. simpl. apply Forall_forall. intros kv Hin.
        apply negb_true_iff.
        by apply (proj1 (forallb_forall _ _) Hfresh), list_elem_of_In. }
    assert (∃ g, fk ≤ g ∧ fv ≤ g ∧ ft ≤ g)%nat as (g & Hgk & Hgv & Hgt)
      by (exists (fk + fv + ft)%nat; lia).
    exists (S g).
    rewrite unpack_map_S by (simpl length; lia).
    rewrite (unpack_fuel_more fk g bk (bv ++ bt) _ _ Hgk Hfk). cbn [app].
    rewrite (unpack_fuel_more fv g bv bt _ _ Hgv Hfv). cbn [app].
    rewrite Hh, dict_setitem_fresh.
    + replace (N.pred (N.of_nat (length ((k, v) :: d)))) with (N.of_nat (length d))
        by (simpl length; lia).
      rewrite <- (app_nil_r bt) at 1.
      rewrite (unpack_map_more ft g _ _ bt [] _ _ Hgt Hft).
      cbn [app]. by rewrite <- app_assoc.
    + eapply Forall_impl; [exact Hacc|]. intros kv' Hkv'. by inversion Hkv'.
Qed.

(** What the packer wrote is one complete object, at whatever limit
    on the nesting it was written. *)
Lemma _pack_unpack_fuel (o : pyobj) :
  faithful o = true → ∀ limit data, _pack o limit = Return data →
  ∃ f, unpack_fuel f data = Done (unpacked_form o) [].
Proof.
  induction o as [|b|n|bits|b|s|l IH|l IH|d IH|code bytes|v _|e|repr]
    using pyobj_nested_ind; intros Hf limit data Hp;
    pose proof (packable_in_nonneg limit _ (ex_intro _ data Hp)) as H0;
    try (rewrite _pack_tuple in Hp); try (rewrite _pack_list in Hp by done);
    try (rewrite _pack_dict in Hp by done);
    try (cbn [_pack] in Hp; destruct (Z.ltb_spec limit 0); [lia|]); try done.
  - apply Return_inj in Hp as <-. by exists 1%nat.
  - apply Return_inj in Hp as <-. exists 1%nat. by destruct b.
  - apply unpack_fuel_of_head. by apply pack_int_read.
  - apply Return_inj in Hp as <-. apply unpack_fuel_of_head. apply pack_float_read.
    by apply N.ltb_lt.
  - apply unpack_fuel_of_head. by apply pack_raw_read.
  - apply unpack_fuel_of_head. by apply pack_raw_read.
  - revert Hp.
    destruct (pack_array_header (N.of_nat (length l))) as [hdr|] eqn:Eh; [|done].
    bind_return.
    destruct (pack_items (λ x, _pack x (limit - 1)%Z) l) as [body|] eqn:Eb; [|done].
    bind_return. intros <-%Return_inj.
    destruct (pack_items_unpack (λ x, _pack x (limit - 1)%Z) l)
      with (body := body) (acc := @nil pyobj) as [f Hfl]; [|done|].
    { cbn [faithful] in Hf. apply Forall_forall. intros o Hin data.
      apply (proj1 (Forall_forall _ _) IH o Hin).
      by apply (proj1 (forallb_forall _ _) Hf), list_elem_of_In. }
    exists (S f). by rewrite unpack_fuel_S, (pack_array_header_read _ _ _ Eh).
  - revert Hp.
    destruct (pack_array_header (N.of_nat (length l))) as [hdr|] eqn:Eh; [|done].
    bind_return.
    destruct (pack_items (λ x, _pack x (limit - 1)%Z) l) as [body|] eqn:Eb; [|done].
    bind_return. intros <-%Return_inj.
    destruct (pack_items_unpack (λ x, _pack x (limit - 1)%Z) l)
      with (body := body) (acc := @nil pyobj) as [f Hfl]; [|done|].
    { cbn [faithful] in Hf. apply Forall_forall. intros o Hin data.
      apply (proj1 (Forall_forall _ _) IH o Hin).
      by apply (proj1 (forallb_forall _ _) Hf), list_elem_of_In. }
    exists (S f). by rewrite unpack_fuel_S, (pack_array_header_read _ _ _ Eh).
  - revert Hp.
    destruct (pack_map_header (N.of_nat (length d))) as [hdr|] eqn:Eh; [|done].
    bind_return.
    destruct (pack_pairs (λ x, _pack x (limit - 1)%Z) d) as [body|] eqn:Eb; [|done].
    bind_return. intros <-%Return_inj.
    cbn [faithful] in Hf. apply andb_prop in Hf as [Hall Hdist].
    destruct (pack_pairs_unpack (λ x, _pack x (limit - 1)%Z) d)
      with (body := body) (acc := @nil (pyobj * pyobj)) as [f Hfd]; [|done|done|done|].
    { apply Forall_forall. intros [k v] Hin.
      destruct (proj1 (Forall_forall _ _) IH (k, v) Hin) as [IHk IHv].
      apply list_elem_of_In in Hin.
      pose proof (proj1 (forallb_forall _ _) Hall (k, v) Hin) as Hkv. simpl in Hkv.
      apply andb_prop in Hkv as [[Hfk Hfv]%andb_prop Hh].
      split; [intros data; by apply IHk|]. split; [intros data; by apply IHv|done]. }
    exists (S f). by rewrite unpack_fuel_S, (pack_map_header_read _ _ _ Eh).
  - apply unpack_fuel_of_head. by apply pack_ext_read.
Qed.

(** The same, for an object that is followed by more bytes. *)
Lemma _pack_reads_back (o : pyobj) (limit : Z) (data rest : bytes) :
  faithful o = true →
  _pack o limit = Return data →
  unpack (data ++ rest) = Done (unpacked_form o) rest.
Proof.
  intros Hf Hp. destruct (_pack_unpack_fuel o Hf limit data Hp) as [f Hfuel].
  rewrite <- (unpack_fuel_enough (f `max` (2 * length (data ++ rest) + 1))) by lia.
  by rewrite (unpack_fuel_more f _ data rest _ _ (Nat.le_max_l _ _) Hfuel).
Qed.

End RoundTripObjects.

(** X18.  What [packb] writes, the unpacker reads back: the bytes of
    one object are one complete object, whatever follows them, and the
    object read is the one that was packed, with text as [bytes] and
    tuples as lists.  The payload of a float is 64 bits, and the keys of
    a dict are hashable and distinct as they come back. *)
Theorem packb_unpack_round_trip `{PyText} (o : pyobj) (data rest : bytes) :
  faithful o = true →
  packb o = Return data →
  unpack (data ++ rest) = Done (unpacked_form o) rest.
Proof. apply _pack_reads_back. Qed.

(** [{'methods': {'add': ('x', -200)}, 1.5: None}], followed by a byte *)
Lemma packb_unpack_round_trip_witness :
  ∃ data,
    packb (PyDict [(PyStr "methods", PyDict [(PyStr "add", PyTuple [PyStr "x"; PyInt (-200)])]);
                   (PyFloat 4609434218613702656, PyNone)]) = Return data
    ∧ unpack (data ++ [xc0]) =
        Done (PyDict [(Demo.b "methods",
                       PyDict [(Demo.b "add", PyList [Demo.b "x"; PyInt (-200)])]);
                      (PyFloat 4609434218613702656, PyNone)]) [xc0].
Proof.
  eexists. split; [reflexivity|].
  apply (packb_unpack_round_trip
           (PyDict [(PyStr "methods",
                     PyDict [(PyStr "add", PyTuple [PyStr "x"; PyInt (-200)])]);
                    (PyFloat 4609434218613702656, PyNone)])); reflexivity.
Defined.

(** ** What the unpacker delivers is its own unpacked form *)

Section WireObjects.
Context `{PyText}.

Lemma widen32_lt (u : N) : u < 2 ^ 32 → widen32 u < 2 ^ 64.
Proof.
  intros Hu. unfold widen32.
  assert (u / 2 ^ 31 < 2) as Hs by (apply N.Div0.div_lt_upper_bound; lia).
  pose proof (N.mod_upper_bound (u / 2 ^ 23) (2 ^ 8) ltac:(done)) as He.
  pose proof (N.mod_upper_bound u (2 ^ 23) ltac:(done)) as Hm.
  set (s := u / 2 ^ 31) in *. set (e := (u / 2 ^ 23) mod 2 ^ 8) in *.
  set (m := u mod 2 ^ 23) in *.
  change (2 ^ 8) with 256 in He. change (2 ^ 23) with 8388608 in Hm.
  change (2 ^ 63) with 9223372036854775808. change (2 ^ 64) with 18446744073709551616.
  change (2 ^ 52) with 4503599627370496. change (2 ^ 29) with 536870912.
  destruct (N.eqb_spec e 255); [lia|].
  destruct (N.eqb_spec e 0); [|lia].
  destruct (N.eqb_spec m 0); [lia|].
  destruct (N.log2_spec m ltac:(lia)) as [Hlo Hhi].
  assert (N.log2 m < 23) as Hp.
  { apply N.log2_lt_pow2; [lia|]. by change (2 ^ 23) with 8388608. }
  set (p := N.log2 m) in *.
  assert ((m - 2 ^ p) * 2 ^ (52 - p) < 4503599627370496) as Hfrac.
  { change 4503599627370496 with (2 ^ 52).
    replace (2 ^ 52) with (2 ^ p * 2 ^ (52 - p)) by (rewrite <- N.pow_add_r; f_equal; lia).
    apply N.mul_lt_mono_pos_r; [apply N.neq_0_lt_0, N.pow_nonzero; lia|].
    rewrite N.pow_succ_r' in Hhi. lia. }
  lia.
Qed.

Lemma read_head_wire (b : bytes) : head_wire (read_head b).
Proof.
  destruct b as [|x t]; [done|]. unfold read_head.
  destruct (format_of (Byte.to_N x)) as [n|n|n|n|n| | |v|w|w| | |w|w|n|w|w|w];
    simpl read_body; try done;
    repeat first [ apply (with_uint_elim head_wire); [done|]; intros ? ? ?
                 | apply (with_bytes_elim head_wire); [done|]; intros ? ? ? ? ];
    try done.
  - unfold read_ext.
    repeat (apply (with_bytes_elim head_wire); [done|]; intros ? ? ? ?).
    by case_match.
  - split; [|done]. apply N.ltb_lt, widen32_lt. by change (2 ^ 32) with (256 ^ 4).
  - split; [|done]. apply N.ltb_lt. by change (2 ^ 64) with (256 ^ 8).
  - unfold read_ext.
    repeat (apply (with_bytes_elim head_wire); [done|]; intros ? ? ? ?).
    by case_match.
Qed.

Lemma forallb_dict_setitem (P : pyobj → bool) (d : list (pyobj * pyobj)) (k v : pyobj) :
  forallb (λ kv, P kv.1) d = true → P k = true →
  forallb (λ kv, P kv.1) (dict_setitem d k v) = true.
Proof.
  intros Hd Hk. induction d as [|[k' v'] d IH]; simpl in *; [by rewrite Hk|].
  apply andb_prop in Hd as [Hk' Hd].
  destruct (key_eq k' k); simpl; rewrite Hk'; [done|]. by apply IH.
Qed.

(** Setting an item keeps the keys of a dict distinct. *)
Lemma dict_setitem_distinct (d : list (pyobj * pyobj)) (k v : pyobj) :
  keys_distinct d = true → keys_distinct (dict_setitem d k v) = true.
Proof.
  induction d as [|[k' v'] d IH]; [done|]. simpl.
  intros [Hk' Hd]%andb_prop. destruct (key_eq k' k) eqn:Ek; simpl.
  - by rewrite Hk', Hd.
  - rewrite IH by done. rewrite (forallb_dict_setitem (λ o, negb (key_eq k' o))); [done..|].
    by rewrite Ek.
Qed.

Lemma dict_setitem_wire (d : list (pyobj * pyobj)) (k v : pyobj) :
  Forall (λ kv, wire_object kv.1 ∧ wire_object kv.2 ∧ hashable kv.1 = true) d →
  wire_object k → wire_object v → hashable k = true →
  Forall (λ kv, wire_object kv.1 ∧ wire_object kv.2 ∧ hashable kv.1 = true)
    (dict_setitem d k v).
Proof.
  intros Hd Hk Hv Hh. induction Hd as [|[k' v'] d (Hk' & Hv' & Hh') Hd IH]; simpl.
  - by constructor.
  - destruct (key_eq k' k); constructor; done.
Qed.

Lemma wire_object_list (l : list pyobj) : Forall wire_object l → wire_object (PyList l).
Proof.
  intros Hl. split.
  - cbn [faithful]. apply forallb_forall. intros o Hin%list_elem_of_In.
    by destruct (proj1 (Forall_forall _ _) Hl o Hin).
  - cbn [unpacked_form]. f_equal. induction Hl as [|o l [_ Ho] _ IH]; [done|].
    cbn [map]. by rewrite Ho, IH.
Qed.

Lemma wire_object_dict (d : list (pyobj * pyobj)) :
  Forall (λ kv, wire_object kv.1 ∧ wire_object kv.2 ∧ hashable kv.1 = true) d →
  keys_distinct d = true →
  wire_object (PyDict d).
Proof.
  intros Hd Hdist.
  assert (map (λ '(k, v), (unpacked_form k, unpacked_form v)) d = d) as Hmap.
  { clear Hdist. induction Hd as [|[k v] d ([_ Hk] & [_ Hv] & _) _ IH]; [done|].
    cbn [map]. simpl in Hk, Hv. by rewrite Hk, Hv, IH. }
  split.
  - cbn [faithful]. rewrite Hmap, Hdist, andb_true_r.
    apply forallb_forall. intros [k v] Hin%list_elem_of_In.
    destruct (proj1 (Forall_forall _ _) Hd (k, v) Hin) as ([Hfk Huk] & [Hfv _] & Hh).
    simpl in *. by rewrite Hfk, Hfv, Huk, Hh.
  - cbn [unpacked_form]. by rewrite Hmap.
Qed.

Lemma unpack_fuel_wire_all (f : nat) :
  (∀ b v r, unpack_fuel f b = Done v r → wire_object v)
  ∧ (∀ n acc b v r,
       Forall wire_object acc → unpack_array f n acc b = Done v r → wire_object v)
  ∧ (∀ n acc b v r,
       Forall (λ kv, wire_object kv.1 ∧ wire_object kv.2 ∧ hashable kv.1 = true) acc →
       keys_distinct acc = true →
       unpack_map f n acc b = Done v r → wire_object v).
Proof.
  induction f as [|f (IHv & IHa & IHm)].
  - split; [done|]. split.
    + intros n acc b v r Hacc. destruct (N.eqb_spec n 0) as [->|Hn0].
      * rewrite unpack_array_0. intros [= <- _]. by apply wire_object_list, Forall_rev.
      * simpl. by destruct (N.eqb_spec n 0).
    + intros n acc b v r Hacc Hdist. destruct (N.eqb_spec n 0) as [->|Hn0].
      * rewrite unpack_map_0. intros [= <- _]. by apply wire_object_dict.
      * simpl. by destruct (N.eqb_spec n 0).
  - split; [|split].
    + intros b v r. rewrite unpack_fuel_S.
      pose proof (read_head_wire b) as Hh. unfold head_wire in Hh.
      destruct (read_head b) as [v0 r0|n r0|n r0| |e]; try done.
      * by intros [= <- _].
      * by apply IHa.
      * by apply IHm.
    + intros n acc b v r Hacc.
      destruct (N.eqb_spec n 0) as [->|Hn0].
      * rewrite unpack_array_0. intros [= <- _]. by apply wire_object_list, Forall_rev.
      * rewrite unpack_array_S by done.
        destruct (unpack_fuel f b) as [v0 r0| |e] eqn:E; try done.
        apply IHa. constructor; [by eapply IHv|done].
    + intros n acc b v r Hacc Hdist.
      destruct (N.eqb_spec n 0) as [->|Hn0].
      * rewrite unpack_map_0. intros [= <- _]. by apply wire_object_dict.
      * rewrite unpack_map_S by done.
        destruct (unpack_fuel f b) as [k0 r0| |e] eqn:E; try done.
        destruct (unpack_fuel f r0) as [v0 r1| |e] eqn:E'; try done.
        destruct (hashable k0) eqn:Eh; [|done].
        apply IHm.
        -- apply dict_setitem_wire; [done|by eapply IHv|by eapply IHv|done].
        -- by apply dict_setitem_distinct.
Qed.

Lemma unpack_wire (b : bytes) (v : pyobj) (r : bytes) :
  unpack b = Done v r → wire_object v.
Proof. apply (proj1 (unpack_fuel_wire_all _)). Qed.

End WireObjects.

Section ResponseOnTheWire.
Context `{PyText} `{Tags}.

(** The id of a request off the wire is an object as the unpacker
    builds them. *)
Lemma received_mid_wire (type mid method params : pyobj) :
  received (Request type mid method params) → wire_object mid.
Proof.
  intros (buffer & msg & rest & Hu & Hm). apply unpack_wire in Hu as [Hf Hform].
  unfold message_of in Hm.
  destruct msg as [| | | | | |l|l| |code data| | |]; try done.
  - cbn [as_sequence] in Hm. cbn [faithful] in Hf. cbn [unpacked_form] in Hform.
    destruct l as [|tag items]; [done|].
    destruct (eq_int tag TYPE_REQUEST).
    + destruct items as [|m0 [|? [|? [|]]]]; try done. injection Hm as -> -> -> ->.
      cbn [forallb] in Hf. cbn [map] in Hform.
      apply andb_prop in Hf as [_ [Hmid _]%andb_prop]. by injection Hform as _ ? _ _.
    + destruct (eq_int tag TYPE_NOTIFICATION); [|done].
      by destruct items as [|? [|? [|]]].
  - simpl in Hm. destruct (eq_int (PyInt code) TYPE_REQUEST); [done|].
    by destruct (eq_int (PyInt code) TYPE_NOTIFICATION).
Qed.

(** [error] is [None] or the two texts of an exception. *)
Lemma run_handler_error (self : Server) (msg : msgobj) (writer : StreamWriter) :
  (run_handler self msg writer).2 = PyNone
  ∨ ∃ e, (run_handler self msg writer).2 = exc_info e.
Proof.
  unfold run_handler. destruct (_execute_quest self msg writer) as [result|e]; [|by eauto].
  destruct (iscoroutine result); [|by left].
  destruct (await result); [by left|by eauto].
Qed.

(** A reply that [packb] accepts reads back as its four elements. *)
Lemma reply_reads_back (mid error result : pyobj) (reply : bytes) :
  wire_object mid → faithful error = true → faithful result = true →
  packb (reply_of mid error result) = Return reply →
  unpack reply =
    Done (PyList [PyInt TYPE_RESPONSE; mid; unpacked_form error; unpacked_form result]) [].
Proof.
  intros [Hmid Hform] Hferr Hres Hp.
  assert (faithful (reply_of mid error result) = true) as Hfr.
  { unfold reply_of. cbn [faithful forallb]. by rewrite Hmid, Hferr, Hres. }
  rewrite <- (app_nil_r reply), (_pack_reads_back _ _ _ [] Hfr Hp).
  unfold reply_of. cbn [unpacked_form map]. by rewrite Hform.
Qed.

End ResponseOnTheWire.

(** X19.  An object that came off the wire can be sent back as it is
    when it is nested no deeper than the packer goes: [packb] accepts
    it, and what [packb] writes for it reads back as the same object,
    whatever follows.  An object off the wire that is nested deeper,
    [packb] refuses. *)
Theorem received_object_packs_and_reads_back `{PyText}
    (buffer : bytes) (v : pyobj) (rest : bytes) :
  unpack buffer = Done v rest →
  ((nesting v ≤ DEFAULT_RECURSE_LIMIT)%Z →
   ∃ data, packb v = Return data ∧ ∀ more, unpack (data ++ more) = Done v more)
  ∧ ((DEFAULT_RECURSE_LIMIT < nesting v)%Z → ∃ e, packb v = Raise e).
Proof.
  intros Hu. split.
  - intros Hn. destruct (unpack_packable _ _ _ Hu _ Hn) as [data Hp].
    destruct (unpack_wire _ _ _ Hu) as [Hf Hform].
    exists data. split; [done|]. intros more.
    by rewrite (_pack_reads_back v _ data more Hf Hp), Hform.
  - apply _pack_too_deep.
Qed.

(** A request, with a map and a negative number among its parameters *)
Lemma received_object_packs_and_reads_back_witness :
  ((nesting (PyList [PyInt 0; PyInt 7; Demo.b "add";
                     PyList [PyDict [(Demo.b "x", PyInt (-1))]; PyNone]])
    ≤ DEFAULT_RECURSE_LIMIT)%Z →
   ∃ data,
     packb (PyList [PyInt 0; PyInt 7; Demo.b "add";
                    PyList [PyDict [(Demo.b "x", PyInt (-1))]; PyNone]]) = Return data
     ∧ ∀ more,
         unpack (data ++ more) =
           Done (PyList [PyInt 0; PyInt 7; Demo.b "add";
                         PyList [PyDict [(Demo.b "x", PyInt (-1))]; PyNone]]) more)
  ∧ ((DEFAULT_RECURSE_LIMIT
      < nesting (PyList [PyInt 0; PyInt 7; Demo.b "add";
                         PyList [PyDict [(Demo.b "x", PyInt (-1))]; PyNone]]))%Z →
     ∃ e, packb (PyList [PyInt 0; PyInt 7; Demo.b "add";
                         PyList [PyDict [(Demo.b "x", PyInt (-1))]; PyNone]]) = Raise e).
Proof.
  apply (received_object_packs_and_reads_back
           [x94; x00; x07; xa3; "a"; "d"; "d"; x92; x81; xa1; "x"; xff; xc0; x01]%byte
           (PyList [PyInt 0; PyInt 7; Demo.b "add";
                    PyList [PyDict [(Demo.b "x", PyInt (-1))]; PyNone]])
           [x01]%byte).
  reflexivity.
Defined.

(** X20.  Whenever [process] writes for a request off the wire, what it
    writes is one complete response for the peer: an array of four
    elements, the response tag, the id of the request unchanged, the
    error ([None], or the two texts of the exception as [bytes]) and the
    result in its unpacked form. *)
Theorem response_reads_back `{PyText} `{Tags}
    (self : Server) (type mid method params : pyobj) (writer : StreamWriter)
    (drain : outcome unit) (result error : pyobj) (reply : bytes) :
  received (Request type mid method params) →
  run_handler self (Request type mid method params) writer = (result, error) →
  faithful result = true →
  written (process self (Request type mid method params) writer drain).1
    = written writer ++ [reply] →
  unpack reply =
    Done (PyList [PyInt TYPE_RESPONSE; mid; unpacked_form error; unpacked_form result]) []
  ∧ (unpacked_form error = PyNone
     ∨ ∃ e, unpacked_form error
            = PyList [PyBytes (str_encode (str_type e)); PyBytes (str_encode (str_value e))]).
Proof.
  intros Hrecv Hrun Hres Hproc.
  pose proof (received_mid_wire _ _ _ _ Hrecv) as Hmid.
  pose proof (run_handler_error self (Request type mid method params) writer) as Herr.
  rewrite Hrun in Herr. cbn [snd] in Herr.
  assert (faithful error = true) as Hferr by (by destruct Herr as [->|[e ->]]).
  split; [|destruct Herr as [->|[e ->]]; [by left|right; by exists e]].
  unfold process in Hproc. rewrite Hrun in Hproc.
  destruct (packb (reply_of mid error result)) as [reply'|] eqn:Hp.
  - cbn [fst write written] in Hproc. apply app_inv_head in Hproc as [= ->].
    by apply reply_reads_back.
  - cbn [fst] in Hproc. apply (f_equal length) in Hproc.
    rewrite length_app in Hproc. simpl in Hproc. lia.
Qed.

(** [echo('hi')]: the tuple comes back as a list, also when the
    connection is lost before the reply is drained. *)
Lemma response_reads_back_witness :
  unpack [x94; x01; x08; xc0; x91; xa2; "h"; "i"]%byte =
    Done (PyList [PyInt TYPE_RESPONSE; PyInt 8; unpacked_form PyNone;
                  unpacked_form (PyTuple [Demo.b "hi"])]) []
  ∧ (unpacked_form PyNone = PyNone
     ∨ ∃ e, unpacked_form PyNone
            = PyList [PyBytes (str_encode (str_type e)); PyBytes (str_encode (str_value e))]).
Proof.
  apply (response_reads_back Demo.server (PyInt 0) (PyInt 8) (Demo.b "echo")
           (PyList [Demo.b "hi"]) Demo.writer (Raise (OSError "Connection lost"))
           (PyTuple [Demo.b "hi"]) PyNone
           [x94; x01; x08; xc0; x91; xa2; "h"; "i"]%byte).
  - exists [x94; x00; x08; xa4; "e"; "c"; "h"; "o"; x91; xa2; "h"; "i"]%byte,
      (PyList [PyInt 0; PyInt 8; Demo.b "echo"; PyList [Demo.b "hi"]]), [].
    split; reflexivity.
  - reflexivity.
  - reflexivity.
  - reflexivity.
Defined.

(** X21.  An exception raised before the function returns (by the
    resolution of the name, by the binding of the parameters, or by the
    function itself) is answered, when the id of the request is nested
    less deep than the packer goes, as every integer is: [process]
    writes one chunk, a response that reads back as the response tag,
    the id of the request, the text of the class of the exception and
    the text of the exception, and a null result; the task then ends the
    way [drain] does.  The two texts are of a length that the wire
    format holds. *)
Theorem raised_call_is_answered `{PyText} `{Tags}
    (self : Server) (type mid method params : pyobj) (writer : StreamWriter)
    (drain : outcome unit) (e : exc) :
  received (Request type mid method params) →
  (nesting mid < DEFAULT_RECURSE_LIMIT)%Z →
  _execute_quest self (Request type mid method params) writer = Raise e →
  short_text e →
  ∃ reply,
    process self (Request type mid method params) writer drain
    = ({| get_extra_info := get_extra_info writer;
          written := written writer ++ [reply];
          closed := closed writer |}, escaped drain)
    ∧ unpack reply =
        Done (PyList [PyInt TYPE_RESPONSE; mid;
                      PyList [PyBytes (str_encode (str_type e));
                              PyBytes (str_encode (str_value e))];
                      PyNone]) [].
Proof.
  intros Hrecv Hmid Hq Hshort.
  destruct (process_raise self type mid method params writer drain e Hrecv Hmid Hq Hshort)
    as (reply & Hp & Hproc).
  exists reply. split; [done|].
  apply (reply_reads_back mid (exc_info e) PyNone); [|done..].
  by eapply received_mid_wire.
Qed.

(** [[0, 7, 5, []]]: the method is an integer, which has no
    [startswith]. *)
Lemma raised_call_is_answered_witness :
  ∃ reply,
    process Demo.server (Request (PyInt 0) (PyInt 7) (PyInt 5) (PyList []))
      Demo.writer (Return ())
    = ({| get_extra_info := get_extra_info Demo.writer;
          written := written Demo.writer ++ [reply];
          closed := closed Demo.writer |}, escaped (Return ()))
    ∧ unpack reply =
        Done (PyList [PyInt TYPE_RESPONSE; PyInt 7;
                      PyList [PyBytes (str_encode "<class 'AttributeError'>");
                              PyBytes (str_encode "'int' object has no attribute 'startswith'")];
                      PyNone]) [].
Proof.
  apply (raised_call_is_answered Demo.server (PyInt 0) (PyInt 7) (PyInt 5)
           (PyList []) Demo.writer (Return ()) (AttributeError "int" "startswith")).
  - exists [x94; x00; x07; x05; x90]%byte,
      (PyList [PyInt 0; PyInt 7; PyInt 5; PyList []]), [].
    split; reflexivity.
  - reflexivity.
  - reflexivity.
  - split; vm_compute; reflexivity.
Defined.

(** ** Resolution, once more *)

(** X22.  Resolution succeeds in exactly two cases: the method is the
    reflection command, or it is a byte string that does not start with
    a NUL byte, is well-formed UTF-8, and decodes to a registered name;
    the descriptor is then that of the command, or the registered one.
    Any other method (another type, other bytes, an unknown name)
    raises. *)
Theorem resolution_succeeds_exactly `{PyText} `{Tags}
    (self : Server) (msg : msgobj) (fdef : FuncDef) :
  _get_exec_func self msg = Return fdef ↔
    (method msg = PyBytes (x00 :: list_byte_of_string "reflection")
     ∧ fdef = _ctrl_cmd_reflection self)
    ∨ (∃ b, method msg = PyBytes b
            ∧ bytes_startswith b [x00] = false
            ∧ utf8_valid (length b) b = true
            ∧ _app_funcs self !! string_of_list_byte b = Some fdef).
Proof.
  unfold _get_exec_func. split.
  - destruct (method msg) as [| | | |b| | | | | | | |] eqn:Em; try done.
    unfold startswith. bind_return.
    destruct (bytes_startswith b [x00]) eqn:Es.
    + apply bytes_startswith_nul in Es as [b' ->].
      unfold _get_control_command, decode, bytes_decode.
      destruct (utf8_valid (length (x00 :: b')) (x00 :: b')) eqn:Ev; [|done].
      change (utf8_valid (length (x00 :: b')) (x00 :: b'))
        with (utf8_valid (length b') b') in Ev.
      bind_return.
      change (str_tail (string_of_list_byte (x00 :: b')))
        with (drop_continuation (string_of_list_byte b')).
      rewrite drop_continuation_valid by done.
      destruct (bool_decide_reflect (string_of_list_byte b' = "reflection")) as [Hr|]; [|done].
      intros [= <-]. left. split; [|done].
      apply (f_equal list_byte_of_string) in Hr.
      rewrite list_byte_of_string_of_list_byte in Hr. by subst b'.
    + unfold decode, bytes_decode.
      destruct (utf8_valid (length b) b) eqn:Ev; [|done]. bind_return.
      destruct (_app_funcs self !! string_of_list_byte b) as [fd|] eqn:El; [|done].
      intros [= <-]. right. by exists b.
  - intros [[Hm ->]|(b & Hm & Hs & Hv & Hl)]; rewrite Hm.
    + reflexivity.
    + unfold startswith. bind_return. rewrite Hs.
      unfold decode, bytes_decode. rewrite Hv. bind_return. by rewrite Hl.
Qed.
